(** * Boot state of UC20 kernel and base snaps (package boot, bootstate20.go)

    A shallow embedding of the try/commit boot-state code: the two
    [bootState] implementations [bootState20Kernel] and [bootState20Base],
    the kernel state mutator for extracted-run-kernel-image bootloaders, the
    generic helpers [genericSetNext] and [selectSuccessfulBootSnap], and the
    combined [bootState20MarkSuccessful.commit].

    The bootloader and the modeenv file are external to the embedded code.
    They are modelled as a [World] that records every call made to them,
    together with a fault oracle that decides, from the history of calls,
    whether the next call fails.  Go methods with a pointer receiver become
    functions that return the updated receiver. *)

From Stdlib Require Import Ascii.
From stdpp Require Import base strings list gmap pretty.

Set Default Proof Using "Type".

(** ** Status constants *)

(** Modelled from the spec: the three status strings of package boot are
    declared outside the embedded file; the boot variable [kernel_status]
    and the modeenv [base_status] take the values empty, try and trying. *)
Definition DefaultStatus : string := EmptyString.
Definition TryStatus : string := "try".
Definition TryingStatus : string := "trying".

(** ** Errors *)

(** Go [error] values.  [ErrNoTryKernelRef] is the sentinel of package
    bootloader that [revisions] compares against; every other error is a
    message. *)
Inductive error : Type :=
| ErrNoTryKernelRef
| Errorf (msg : string).

Definition Error (e : error) : string :=
  match e with
  | ErrNoTryKernelRef => "no try-kernel referenced"
  | Errorf msg => msg
  end.

#[global] Instance error_eq_dec : EqDecision error.
Proof. solve_decision. Defined.

(** ** snap.PlaceInfo *)

(** [snap.Revision] is a struct around one int, compared with [==]. *)
Definition Revision : Type := Z.

(** The [snap.PlaceInfo] interface, restricted to the methods the boot
    state code calls.  Its implementations live in package snap. *)
Class PlaceInfo (P : Type) : Type := {
  Filename : P -> string;
  SnapName : P -> string;
  SnapRevision : P -> Revision
}.

(** [snap.ParsePlaceInfoFromSnapFileName], also of package snap: decodes a
    file name, or fails. *)
Class SnapFileNames (P : Type) : Type :=
  ParsePlaceInfoFromSnapFileName : string -> error + P.

(** ** The modeenv *)

(** Modelled from the spec: the [Modeenv] struct is declared outside the
    embedded file; these are the fields the boot state code reads and
    writes. *)
Record Modeenv : Type := mkModeenv {
  Base : string;
  TryBase : string;
  BaseStatus : string;
  CurrentKernels : list string
}.

#[global] Instance Modeenv_eq_dec : EqDecision Modeenv.
Proof. solve_decision. Defined.

Definition set_CurrentKernels (ks : list string) (m : Modeenv) : Modeenv :=
  mkModeenv (Base m) (TryBase m) (BaseStatus m) ks.
Definition set_Base (b : string) (m : Modeenv) : Modeenv :=
  mkModeenv b (TryBase m) (BaseStatus m) (CurrentKernels m).
Definition set_TryBase (b : string) (m : Modeenv) : Modeenv :=
  mkModeenv (Base m) b (BaseStatus m) (CurrentKernels m).
Definition set_BaseStatus (s : string) (m : Modeenv) : Modeenv :=
  mkModeenv (Base m) (TryBase m) s (CurrentKernels m).

(** ** The world outside: bootloader, modeenv file, call log *)

Section world.
Context {P : Type}.

(** The calls the code makes to its collaborators. *)
Inductive call : Type :=
| CReadModeenv
| CModeenvWrite (m : Modeenv)
| CFind
| CGetBootVars (names : list string)
| CKernel
| CTryKernel
| CSetBootVars (m : gmap string string)
| CEnableKernel (sn : P)
| CEnableTryKernel (sn : P)
| CDisableTryKernel.

(** A logged call with its outcome: [None] when it returned a nil error. *)
Definition event : Type := call * option error.

Record World : Type := mkWorld {
  (** the modeenv file, [None] while it does not exist *)
  modeenvFile : option Modeenv;
  (** the bootloader's environment *)
  bootVars : gmap string string;
  (** the kernel the bootloader boots by default *)
  kernelRef : option P;
  (** the try-kernel reference *)
  tryKernelRef : option P;
  (** the bootloader's name, and whether it implements
      ExtractedRunKernelImageBootloader *)
  blName : string;
  blExtractedRunKernelImage : bool;
  (** fault oracle: the error, if any, of the next call given the log *)
  faults : list event -> call -> option error;
  (** the log, oldest call first *)
  calls : list event
}.

Definition record (ev : event) (w : World) : World :=
  mkWorld (modeenvFile w) (bootVars w) (kernelRef w) (tryKernelRef w)
          (blName w) (blExtractedRunKernelImage w) (faults w) (calls w ++ [ev]).

Definition put_modeenvFile (m : Modeenv) (w : World) : World :=
  mkWorld (Some m) (bootVars w) (kernelRef w) (tryKernelRef w)
          (blName w) (blExtractedRunKernelImage w) (faults w) (calls w).
Definition put_bootVars (m : gmap string string) (w : World) : World :=
  mkWorld (modeenvFile w) (m ∪ bootVars w) (kernelRef w) (tryKernelRef w)
          (blName w) (blExtractedRunKernelImage w) (faults w) (calls w).
Definition put_kernelRef (sn : P) (w : World) : World :=
  mkWorld (modeenvFile w) (bootVars w) (Some sn) (tryKernelRef w)
          (blName w) (blExtractedRunKernelImage w) (faults w) (calls w).
Definition put_tryKernelRef (sn : option P) (w : World) : World :=
  mkWorld (modeenvFile w) (bootVars w) (kernelRef w) sn
          (blName w) (blExtractedRunKernelImage w) (faults w) (calls w).

(** ** Results and the monad of the embedded code *)

(** A Go call returns normally, returns a non-nil error, or panics (nil
    dereference, explicit panic). *)
Inductive result (A : Type) : Type :=
| Ok (a : A)
| Err (e : error)
| Panic (msg : string).
Global Arguments Ok {A} a.
Global Arguments Err {A} e.
Global Arguments Panic {A} msg.

Definition M (A : Type) : Type := World -> result A * World.

Definition ret {A} (a : A) : M A := fun w => (Ok a, w).
Definition fail {A} (e : error) : M A := fun w => (Err e, w).
Definition panic {A} (msg : string) : M A := fun w => (Panic msg, w).

(** [if err != nil { return err }] is the bind of [M]. *)
Definition bind {A B} (c : M A) (k : A -> M B) : M B :=
  fun w =>
    match c w with
    | (Ok a, w') => k a w'
    | (Err e, w') => (Err e, w')
    | (Panic msg, w') => (Panic msg, w')
    end.

(** [v, err := c] followed by an inspection of [err]. *)
Definition catch {A} (c : M A) : M (error + A) :=
  fun w =>
    match c w with
    | (Ok a, w') => (Ok (inr a), w')
    | (Err e, w') => (Ok (inl e), w')
    | (Panic msg, w') => (Panic msg, w')
    end.

(** Dereference of a pointer that may be nil. *)
Definition deref {A} (p : option A) : M A :=
  match p with
  | Some a => ret a
  | None => panic "invalid memory address or nil pointer dereference"
  end.

(** A call that changes the collaborator's state when it succeeds. *)
Definition invoke (c : call) (effect : World -> World) : M unit :=
  fun w =>
    match faults w (calls w) c with
    | Some e => (Err e, record (c, Some e) w)
    | None => (Ok tt, record (c, None) (effect w))
    end.

(** A call that only reads the collaborator's state. *)
Definition query {A} (c : call) (read : World -> error + A) : M A :=
  fun w =>
    match faults w (calls w) c with
    | Some e => (Err e, record (c, Some e) w)
    | None =>
        match read w with
        | inl e => (Err e, record (c, Some e) w)
        | inr a => (Ok a, record (c, None) w)
        end
    end.

End world.

Global Arguments call : clear implicits.
Global Arguments event : clear implicits.
Global Arguments World : clear implicits.
Global Arguments M : clear implicits.

Declare Scope go_scope.
Delimit Scope go_scope with go.
Notation "x <- c ;; k" := (bind c (fun x => k))
  (at level 100, c at next level, right associativity) : go_scope.
Notation "c ;;; k" := (bind c (fun _ => k))
  (at level 100, right associativity) : go_scope.
Open Scope go_scope.

(** ** The embedded code *)

Section code.
Context {P : Type} `{PlaceInfo P, SnapFileNames P}.

Local Abbreviation M := (M P).

(** *** Calls to the collaborators *)

(** [ReadModeenv] with the empty root directory. *)
Definition ReadModeenv : M Modeenv :=
  query CReadModeenv (fun w =>
    match modeenvFile w with
    | Some m => inr m
    | None => inl (Errorf "modeenv: no such file or directory")
    end).

(** [Modeenv.Write]: replaces the file by the in-memory value. *)
Definition Modeenv_Write (m : Modeenv) : M unit :=
  invoke (CModeenvWrite m) (put_modeenvFile m).

(** [bootloader.Find]: the bootloader, here its name and whether it
    implements ExtractedRunKernelImageBootloader. *)
Definition bootloader_Find : M (string * bool) :=
  query CFind (fun w => inr (blName w, blExtractedRunKernelImage w)).

Definition ebl_GetBootVars (names : list string) : M (gmap string string) :=
  query (CGetBootVars names) (fun w =>
    inr (list_to_map ((fun n => (n, default EmptyString (bootVars w !! n))) <$> names))).

Definition ebl_SetBootVars (m : gmap string string) : M unit :=
  invoke (CSetBootVars m) (put_bootVars m).

Definition ebl_Kernel : M P :=
  query CKernel (fun w =>
    match kernelRef w with
    | Some sn => inr sn
    | None => inl (Errorf "cannot read kernel reference")
    end).

Definition ebl_TryKernel : M P :=
  query CTryKernel (fun w =>
    match tryKernelRef w with
    | Some sn => inr sn
    | None => inl ErrNoTryKernelRef
    end).

Definition ebl_EnableKernel (sn : P) : M unit :=
  invoke (CEnableKernel sn) (put_kernelRef sn).

Definition ebl_EnableTryKernel (sn : P) : M unit :=
  invoke (CEnableTryKernel sn) (put_tryKernelRef (Some sn)).

Definition ebl_DisableTryKernel : M unit :=
  invoke CDisableTryKernel (put_tryKernelRef None).

(** Go map index: the zero value for a missing key. *)
Definition index (m : gmap string string) (k : string) : string :=
  default EmptyString (m !! k).

(** *** modeenv methods *)

Record bootState20Modeenv : Type := mkBootState20Modeenv {
  modeenv : option Modeenv
}.

Definition bootState20Modeenv_loadModeenv (bsm : bootState20Modeenv)
  : M bootState20Modeenv :=
  match modeenv bsm with
  | Some _ => ret bsm
  | None =>
      r <- catch ReadModeenv ;;
      match r with
      | inl err =>
          fail (Errorf ("cannot get snap revision: unable to read modeenv: " ++ Error err))
      | inr m => ret (mkBootState20Modeenv (Some m))
      end
  end.

(** *** kernelStateMutator20 methods *)

(** A loaded [kernelStateMutatorExtractedRunKernelImage].  Its [ebl] field
    is the bootloader of the [World]; [loadBootenv] allocates the mutator
    anew before every [load], so [load] always runs in full and a mutator
    that is in use has all three fields set. *)
Record kernelStateMutatorExtractedRunKernelImage : Type := mkKmerki {
  currentKernelStatus : string;
  commitKernelStatus : string;
  currentKernel : P
}.
Local Abbreviation kmerki := kernelStateMutatorExtractedRunKernelImage.

Definition kmerki_load : M kmerki :=
  bl <- bootloader_Find ;;
  if negb (snd bl) then
    fail (Errorf ("cannot use " ++ fst bl
                  ++ " bootloader: does not support extracted run kernel images"))
  else
    m <- ebl_GetBootVars ["kernel_status"] ;;
    let status := index m "kernel_status" in
    r <- catch ebl_Kernel ;;
    match r with
    | inl err =>
        fail (Errorf ("cannot identify kernel snap with bootloader " ++ fst bl
                      ++ ": " ++ Error err))
    | inr kernel => ret (mkKmerki status status kernel)
    end.

Definition kmerki_kernel (k : kmerki) : P := currentKernel k.
Definition kmerki_tryKernel (k : kmerki) : M P := ebl_TryKernel.
Definition kmerki_kernelStatus (k : kmerki) : string := currentKernelStatus k.
Definition kmerki_setCommitStatus (status : string) (k : kmerki) : kmerki :=
  mkKmerki (currentKernelStatus k) status (currentKernel k).

Definition kmerki_markSuccessful (k : kmerki) (sn : P) : M unit :=
  (if decide (commitKernelStatus k <> DefaultStatus)
   then ebl_SetBootVars {[ "kernel_status" := DefaultStatus ]}
   else ret tt) ;;;
  (if decide (Filename (currentKernel k) <> Filename sn)
   then ebl_EnableKernel sn
   else ret tt) ;;;
  ebl_DisableTryKernel.

Definition kmerki_setNextKernel (k : kmerki) (sn : P) : M unit :=
  (if decide (Filename sn <> Filename (currentKernel k))
   then ebl_EnableTryKernel sn
   else ret tt) ;;;
  if decide (commitKernelStatus k <> currentKernelStatus k)
  then ebl_SetBootVars {[ "kernel_status" := commitKernelStatus k ]}
  else ret tt.

(** *** The boot state objects *)

(** [revisions] returns the current snap, the try snap or nil, and the
    status. *)
Definition revs : Type := P * option P * string.

Record bootState20Kernel : Type := mkBootState20Kernel {
  kmut : option kmerki;
  (** the kernel snap that was booted, for markSuccessful *)
  bootedKernelSnap : option P;
  (** the kernel snap to try, for setNext *)
  nextKernelSnap : option P;
  kModeenv : bootState20Modeenv
}.

Record bootState20Base : Type := mkBootState20Base {
  (** the embedded bootState20Modeenv *)
  bsModeenv : bootState20Modeenv;
  commitBaseStatus : string;
  (** the base snap that was booted, for markSuccessful *)
  bootedBaseSnap : option P;
  (** the base snap to try, for setNext *)
  tryBaseSnap : option P
}.

(** The combination of both, with the two structs embedded. *)
Record bootState20MarkSuccessful : Type := mkBootState20MarkSuccessful {
  msBase : bootState20Base;
  msKernel : bootState20Kernel
}.

(** The zero values that [newBootState20] and [selectSuccessfulBootSnap]
    allocate. *)
Definition bootState20Kernel_zero : bootState20Kernel :=
  mkBootState20Kernel None None None (mkBootState20Modeenv None).
Definition bootState20Base_zero : bootState20Base :=
  mkBootState20Base (mkBootState20Modeenv None) EmptyString None None.
Definition bootState20MarkSuccessful_zero : bootState20MarkSuccessful :=
  mkBootState20MarkSuccessful bootState20Base_zero bootState20Kernel_zero.

(** The [bootStateUpdate] interface has these three implementations. *)
Inductive bootStateUpdate : Type :=
| UpdateKernel (ks20 : bootState20Kernel)
| UpdateBase (bs20 : bootState20Base)
| UpdateMarkSuccessful (bsmark : bootState20MarkSuccessful).

(** The [bootState] interface, as far as the generic helpers call it. *)
Class bootState (B : Type) : Type :=
  revisions : B -> M (B * revs).

(** *** kernel snap methods *)

Definition bootState20Kernel_loadBootenv (ks20 : bootState20Kernel)
  : M bootState20Kernel :=
  k <- kmerki_load ;;
  ret (mkBootState20Kernel (Some k) (bootedKernelSnap ks20)
                           (nextKernelSnap ks20) (kModeenv ks20)).

Definition bootState20Kernel_revisions (ks20 : bootState20Kernel)
  : M (bootState20Kernel * revs) :=
  ks20 <- bootState20Kernel_loadBootenv ks20 ;;
  k <- deref (kmut ks20) ;;
  let status := kmerki_kernelStatus k in
  let kern := kmerki_kernel k in
  r <- catch (kmerki_tryKernel k) ;;
  match r with
  | inl err =>
      if decide (err <> ErrNoTryKernelRef) then fail err
      else ret (ks20, (kern, None, status))
  | inr tryKernel => ret (ks20, (kern, Some tryKernel, status))
  end.

#[export] Instance bootState20Kernel_bootState : bootState bootState20Kernel :=
  bootState20Kernel_revisions.

(** *** base snap methods *)

Definition bootState20Base_loadModeenv (bs20 : bootState20Base)
  : M bootState20Base :=
  match modeenv (bsModeenv bs20) with
  | Some _ => ret bs20
  | None =>
      r <- catch ReadModeenv ;;
      match r with
      | inl err =>
          fail (Errorf ("cannot get snap revision: unable to read modeenv: " ++ Error err))
      | inr m =>
          ret (mkBootState20Base (mkBootState20Modeenv (Some m)) (BaseStatus m)
                                 (bootedBaseSnap bs20) (tryBaseSnap bs20))
      end
  end.

Definition bootState20Base_revisions (bs20 : bootState20Base)
  : M (bootState20Base * revs) :=
  bs20 <- bootState20Base_loadModeenv bs20 ;;
  m <- deref (modeenv (bsModeenv bs20)) ;;
  if decide (Base m = EmptyString) then
    fail (Errorf "cannot get snap revision: modeenv base boot variable is empty")
  else
    match ParsePlaceInfoFromSnapFileName (Base m) with
    | inl err =>
        fail (Errorf ("cannot get snap revision: modeenv base boot variable is invalid: "
                      ++ Error err))
    | inr bootSn =>
        if decide (BaseStatus m = TryingStatus /\ TryBase m <> EmptyString) then
          match ParsePlaceInfoFromSnapFileName (TryBase m) with
          | inl err =>
              fail (Errorf ("cannot get snap revision: modeenv try base boot variable is invalid: "
                            ++ Error err))
          | inr tryBootSn => ret (bs20, (bootSn, Some tryBootSn, BaseStatus m))
          end
        else ret (bs20, (bootSn, None, BaseStatus m))
    end.

#[export] Instance bootState20Base_bootState : bootState bootState20Base :=
  bootState20Base_revisions.

(** *** generic methods *)

Definition genericSetNext {B} `{bootState B} (b : B) (next : P) : M (B * string) :=
  r <- revisions b ;;
  let '(b, (current, _, _)) := r in
  if decide (SnapName current = SnapName next
             /\ SnapRevision next = SnapRevision current)
  then ret (b, DefaultStatus)
  else ret (b, TryStatus).

(** The verb %T of package fmt on an update: the name of its dynamic type,
    a pointer to one of the three structs of package boot. *)
Definition typeName (update : bootStateUpdate) : string :=
  match update with
  | UpdateKernel _ => "*boot.bootState20Kernel"
  | UpdateBase _ => "*boot.bootState20Base"
  | UpdateMarkSuccessful _ => "*boot.bootState20MarkSuccessful"
  end.

(** [update] is nil or one of the three implementations of
    [bootStateUpdate]; the type assertion succeeds on a
    [bootState20MarkSuccessful] only. *)
Definition selectSuccessfulBootSnap {B} `{bootState B}
    (b : B) (update : option bootStateUpdate)
  : M (B * bootState20MarkSuccessful * P) :=
  r <- revisions b ;;
  let '(b, (sn, trySnap, status)) := r in
  bsmark <- match update with
            | None => ret bootState20MarkSuccessful_zero
            | Some (UpdateMarkSuccessful u) => ret u
            | Some update =>
                fail (Errorf ("internal error, cannot thread "
                              ++ typeName update ++ " with update for UC20"))
            end ;;
  match decide (status = TryingStatus), trySnap with
  | left _, Some t => ret (b, bsmark, t)
  | _, _ => ret (b, bsmark, sn)
  end.

(** *** markSuccessful, setNext and commit of the kernel snap *)

Definition bootState20Kernel_markSuccessful
    (ks20 : bootState20Kernel) (update : option bootStateUpdate)
  : M (bootState20Kernel * bootStateUpdate) :=
  r <- selectSuccessfulBootSnap ks20 update ;;
  let '(ks20, u, sn) := r in
  let u := mkBootState20MarkSuccessful (msBase u)
             (mkBootState20Kernel (kmut ks20) (Some sn)
                                  (nextKernelSnap ks20) (kModeenv ks20)) in
  ret (ks20, UpdateMarkSuccessful u).

Definition bootState20Kernel_setNext (ks20 : bootState20Kernel) (next : P)
  : M (bool * bootState20Kernel) :=
  km <- bootState20Modeenv_loadModeenv (kModeenv ks20) ;;
  let ks20 := mkBootState20Kernel (kmut ks20) (bootedKernelSnap ks20)
                                  (nextKernelSnap ks20) km in
  r <- genericSetNext ks20 next ;;
  let '(ks20, nextStatus) := r in
  let rebootRequired := bool_decide (nextStatus = TryStatus) in
  k <- deref (kmut ks20) ;;
  ret (rebootRequired,
       mkBootState20Kernel (Some (kmerki_setCommitStatus nextStatus k))
                           (bootedKernelSnap ks20) (Some next) (kModeenv ks20)).

Definition bootState20Kernel_commit (ks20 : bootState20Kernel)
  : M bootState20Kernel :=
  k <- deref (kmut ks20) ;;
  let currentKernel := kmerki_kernel k in
  next <- deref (nextKernelSnap ks20) ;;
  ks20 <- (if decide (Filename next <> Filename currentKernel) then
             m <- deref (modeenv (kModeenv ks20)) ;;
             let m := set_CurrentKernels (CurrentKernels m ++ [Filename next]) m in
             Modeenv_Write m ;;;
             ret (mkBootState20Kernel (kmut ks20) (bootedKernelSnap ks20)
                    (nextKernelSnap ks20) (mkBootState20Modeenv (Some m)))
           else ret ks20) ;;
  kmerki_setNextKernel k next ;;;
  ret ks20.

(** *** markSuccessful, setNext and commit of the base snap *)

Definition bootState20Base_markSuccessful
    (bs20 : bootState20Base) (update : option bootStateUpdate)
  : M (bootState20Base * bootStateUpdate) :=
  r <- selectSuccessfulBootSnap bs20 update ;;
  let '(bs20, u, sn) := r in
  let u := mkBootState20MarkSuccessful
             (mkBootState20Base (bsModeenv bs20) (commitBaseStatus bs20)
                                (Some sn) (tryBaseSnap bs20))
             (msKernel u) in
  ret (bs20, UpdateMarkSuccessful u).

Definition bootState20Base_setNext (bs20 : bootState20Base) (next : P)
  : M (bool * bootState20Base) :=
  r <- genericSetNext bs20 next ;;
  let '(bs20, nextStatus) := r in
  let rebootRequired := bool_decide (nextStatus = TryStatus) in
  let tryBaseSnap' :=
    if decide (nextStatus = TryStatus) then Some next else tryBaseSnap bs20 in
  ret (rebootRequired,
       mkBootState20Base (bsModeenv bs20) nextStatus
                         (bootedBaseSnap bs20) tryBaseSnap').

Definition bootState20Base_commit (bs20 : bootState20Base)
  : M bootState20Base :=
  m <- deref (modeenv (bsModeenv bs20)) ;;
  let '(m, changed) :=
    match tryBaseSnap bs20 with
    | Some t =>
        let tryBase := Filename t in
        if decide (tryBase <> TryBase m) then (set_TryBase tryBase m, true)
        else (m, false)
    | None => (m, false)
    end in
  let '(m, changed) :=
    if decide (commitBaseStatus bs20 <> BaseStatus m)
    then (set_BaseStatus (commitBaseStatus bs20) m, true)
    else (m, changed) in
  let bs20 := mkBootState20Base (mkBootState20Modeenv (Some m))
                (commitBaseStatus bs20) (bootedBaseSnap bs20) (tryBaseSnap bs20) in
  if changed then Modeenv_Write m ;;; ret bs20 else ret bs20.

(** *** The combined commit of markSuccessful *)

(** The fields [modeenv], [kmut], [bootedKernelSnap] and [bootedBaseSnap] of
    a [bootState20MarkSuccessful] are promoted from the embedded structs:
    [modeenv] is the one of the base snap. *)
Definition bootState20MarkSuccessful_commit (bsmark : bootState20MarkSuccessful)
  : M bootState20MarkSuccessful :=
  let bs := msBase bsmark in
  let ks := msKernel bsmark in
  r <- match bootedKernelSnap ks with
       | Some sn =>
           k <- deref (kmut ks) ;;
           kmerki_markSuccessful k sn ;;;
           m <- deref (modeenv (bsModeenv bs)) ;;
           ret (set_CurrentKernels [Filename sn] m, true)
       | None =>
           m <- deref (modeenv (bsModeenv bs)) ;;
           ret (m, false)
       end ;;
  let '(m, modeenvChanged) := r in
  let '(m, modeenvChanged) :=
    if decide (BaseStatus m <> DefaultStatus)
    then (set_BaseStatus DefaultStatus (set_TryBase EmptyString m), true)
    else (m, modeenvChanged) in
  let '(m, modeenvChanged) :=
    match bootedBaseSnap bs with
    | Some sn =>
        let tryBase := Filename sn in
        let '(m, modeenvChanged) :=
          if decide (Base m <> tryBase) then (set_Base tryBase m, true)
          else (m, modeenvChanged) in
        if decide (TryBase m <> EmptyString)
        then (set_TryBase EmptyString m, true)
        else (m, modeenvChanged)
    | None => (m, modeenvChanged)
    end in
  let bsmark :=
    mkBootState20MarkSuccessful
      (mkBootState20Base (mkBootState20Modeenv (Some m)) (commitBaseStatus bs)
                         (bootedBaseSnap bs) (tryBaseSnap bs))
      ks in
  if modeenvChanged then Modeenv_Write m ;;; ret bsmark else ret bsmark.

End code.

Global Arguments bootState20Modeenv : clear implicits.
Global Arguments kernelStateMutatorExtractedRunKernelImage : clear implicits.
Global Arguments bootState20Kernel : clear implicits.
Global Arguments bootState20Base : clear implicits.
Global Arguments bootState20MarkSuccessful : clear implicits.
Global Arguments bootStateUpdate : clear implicits.
Global Arguments revs : clear implicits.

(** ** A PlaceInfo implementation to run the code on *)

(** Modelled from the spec: package snap is outside the embedded file.  A
    placement is a name and a revision, and its file name is derived from
    them as name_revision.snap; a file name is decoded by splitting at the
    underscore and reading the decimal revision before the optional
    extension. *)
Record Info : Type := mkInfo {
  RealName : string;
  InfoRevision : Z
}.

#[global] Instance Info_eq_dec : EqDecision Info.
Proof. solve_decision. Defined.

Fixpoint digits (s : string) (acc : N) : option N :=
  match s with
  | EmptyString => Some acc
  | String c rest =>
      let n := Ascii.N_of_ascii c in
      if decide (48 <= n < 58)%N then digits rest (acc * 10 + (n - 48))%N
      else None
  end.

Fixpoint splitAt (sep : Ascii.ascii) (s : string) : option (string * string) :=
  match s with
  | EmptyString => None
  | String c rest =>
      if decide (c = sep) then Some (EmptyString, rest)
      else match splitAt sep rest with
           | Some (a, b) => Some (String c a, b)
           | None => None
           end
  end.

Fixpoint trimSuffix (suffix s : string) : string :=
  match s with
  | EmptyString => EmptyString
  | String c rest => if decide (s = suffix) then EmptyString
                     else String c (trimSuffix suffix rest)
  end.

Definition Info_Filename (i : Info) : string :=
  RealName i ++ "_" ++ pretty (InfoRevision i) ++ ".snap".

Definition Info_parse (sn : string) : error + Info :=
  match splitAt "_"%char sn with
  | None => inl (Errorf "snap file name has invalid format (missing '_')")
  | Some (name, rest) =>
      if decide (name = EmptyString)
      then inl (Errorf "snap file name has invalid format (no snap name before '_')")
      else
        let rev := trimSuffix ".snap" rest in
        match rev, digits rev 0 with
        | String _ _, Some n => inr (mkInfo name (Z.of_N n))
        | _, _ => inl (Errorf "cannot parse revision in snap file name")
        end
  end.

#[global] Instance Info_PlaceInfo : PlaceInfo Info := {|
  Filename := Info_Filename;
  SnapName := RealName;
  SnapRevision := InfoRevision
|}.

#[global] Instance Info_SnapFileNames : SnapFileNames Info := Info_parse.

(** A world without faults. *)
Definition noFaults : list (event Info) -> call Info -> option error :=
  fun _ _ => None.

Definition world0 (m : option Modeenv) (vars : gmap string string)
    (kernel tryKernel : option Info) : World Info :=
  mkWorld m vars kernel tryKernel "grub" true noFaults [].

Definition k100 : Info := mkInfo "pc-kernel" 100.
Definition k101 : Info := mkInfo "pc-kernel" 101.
Definition core20_1 : Info := mkInfo "core20" 1.
Definition core20_2 : Info := mkInfo "core20" 2.

(** Nothing pending: kernel 100 and base 1 are current. *)
Definition modeenv_default : Modeenv :=
  mkModeenv "core20_1.snap" EmptyString DefaultStatus ["pc-kernel_100.snap"].
Definition world_default : World Info :=
  world0 (Some modeenv_default) ∅ (Some k100) None.

(** Kernel 101 was staged and the boot script moved the status to trying. *)
Definition modeenv_trying : Modeenv :=
  mkModeenv "core20_1.snap" EmptyString DefaultStatus
            ["pc-kernel_100.snap"; "pc-kernel_101.snap"].
Definition world_trying : World Info :=
  world0 (Some modeenv_trying) {[ "kernel_status" := TryingStatus ]}
         (Some k100) (Some k101).

(** A base is staged, with a try base that does not decode. *)
Definition modeenv_try_undecodable : Modeenv :=
  mkModeenv "core20_1.snap" "not-a-snap-file" TryStatus ["pc-kernel_100.snap"].
Definition world_try_undecodable : World Info :=
  world0 (Some modeenv_try_undecodable) ∅ (Some k100) None.
Definition modeenv_trying_undecodable : Modeenv :=
  mkModeenv "core20_1.snap" "not-a-snap-file" TryingStatus ["pc-kernel_100.snap"].
Definition world_trying_undecodable : World Info :=
  world0 (Some modeenv_trying_undecodable) ∅ (Some k100) None.

(** A base is being tried. *)
Definition modeenv_base_trying : Modeenv :=
  mkModeenv "core20_1.snap" "core20_2.snap" TryingStatus ["pc-kernel_100.snap"].
Definition world_base_trying : World Info :=
  world0 (Some modeenv_base_trying) ∅ (Some k100) None.

(** The world in which removing the try-kernel reference fails. *)
Definition failDisableTryKernel
  : list (event Info) -> call Info -> option error :=
  fun _ c =>
    match c with
    | CDisableTryKernel => Some (Errorf "cannot remove try-kernel.efi")
    | _ => None
    end.
Definition world_trying_faulty : World Info :=
  mkWorld (Some modeenv_trying) {[ "kernel_status" := TryingStatus ]}
          (Some k100) (Some k101) "grub" true failDisableTryKernel [].

(** The plans that markSuccessful of the kernel, then of the base, builds in
    [world_default] and in [world_trying], and the one of the base alone in
    [world_default]. *)
Definition kmut_default : kernelStateMutatorExtractedRunKernelImage Info :=
  mkKmerki DefaultStatus DefaultStatus k100.
Definition kmut_trying : kernelStateMutatorExtractedRunKernelImage Info :=
  mkKmerki TryingStatus TryingStatus k100.
Definition plan_default : bootState20MarkSuccessful Info :=
  mkBootState20MarkSuccessful
    (mkBootState20Base (mkBootState20Modeenv (Some modeenv_default))
                       DefaultStatus (Some core20_1) None)
    (mkBootState20Kernel (Some kmut_default) (Some k100) None
                         (mkBootState20Modeenv None)).
Definition plan_trying : bootState20MarkSuccessful Info :=
  mkBootState20MarkSuccessful
    (mkBootState20Base (mkBootState20Modeenv (Some modeenv_trying))
                       DefaultStatus (Some core20_1) None)
    (mkBootState20Kernel (Some kmut_trying) (Some k101) None
                         (mkBootState20Modeenv None)).
Definition plan_base_only : bootState20MarkSuccessful Info :=
  mkBootState20MarkSuccessful
    (mkBootState20Base (mkBootState20Modeenv (Some modeenv_default))
                       DefaultStatus (Some core20_1) None)
    bootState20Kernel_zero.

(** The kernel boot state that setNext of kernel 101 returns in
    [world_default]. *)
Definition kernel_next_101 : bootState20Kernel Info :=
  mkBootState20Kernel (Some (mkKmerki DefaultStatus TryStatus k100))
                      None (Some k101)
                      (mkBootState20Modeenv (Some modeenv_default)).

(** Both markSuccessful calls, the kernel first. *)
Definition markBothSuccessful : M Info (bootStateUpdate Info) :=
  r <- bootState20Kernel_markSuccessful bootState20Kernel_zero None ;;
  r <- bootState20Base_markSuccessful bootState20Base_zero (Some r.2) ;;
  ret r.2.

(** A system whose modeenv cannot be read, and one whose bootloader does not
    support extracted run kernel images. *)
Definition world_no_modeenv : World Info := world0 None ∅ (Some k100) None.
Definition world_uboot : World Info :=
  mkWorld (Some modeenv_default) ∅ (Some k100) None "uboot" false noFaults [].

(** The base boot state that setNext of base 2 returns in [world_default],
    and the kernel boot state of a setNext of the current kernel while a
    kernel is staged. *)
Definition base_next_2 : bootState20Base Info :=
  mkBootState20Base (mkBootState20Modeenv (Some modeenv_default))
                    TryStatus None (Some core20_2).
Definition kernel_next_100 : bootState20Kernel Info :=
  mkBootState20Kernel (Some (mkKmerki TryStatus DefaultStatus k100))
                      None (Some k100)
                      (mkBootState20Modeenv (Some modeenv_default)).

(** Kernel 101 is staged and the system has not rebooted yet. *)
Definition world_kernel_staged : World Info :=
  world0 (Some modeenv_trying) {[ "kernel_status" := TryStatus ]}
         (Some k100) (Some k101).


(** ** What the specification lists *)

Section spec.
Context {P : Type} `{PlaceInfo P}.

Implicit Types (w : World P) (evs : list (event P)).

(** [w'] is [w] after the calls [evs], seen through the log. *)
Definition logged w w' evs : Prop :=
  calls w' = calls w ++ evs /\ faults w' = faults w.

(** A logged call that returned a nil error. *)
Definition succeeded (ev : event P) : Prop := ev.2 = None.

(** A run that issues the calls [steps] in this order and stops at the first
    one that fails: the calls made are a prefix of [steps], every call but
    the last returned nil, the run returns normally only after all of
    [steps] returned nil, and it returns the error of the call that failed. *)
Definition runs_in_order {A} (steps : list (call P)) (r : result A) evs : Prop :=
  map fst evs `prefix_of` steps
  /\ match r with
     | Ok _ => map fst evs = steps /\ Forall succeeded evs
     | Err e => exists pre c, evs = pre ++ [(c, Some e)] /\ Forall succeeded pre
     | Panic _ => Forall succeeded evs
     end.

(** Steps 1 to 3 of the combined commit of markSuccessful: clear
    [kernel_status] (not called when the staged status is the default
    already), enable the successful kernel (not called when it is the
    current one), remove the try-kernel reference. *)
Definition spec_markSuccessful_steps
    (k : kernelStateMutatorExtractedRunKernelImage P) (sn : P) : list (call P) :=
  (if decide (commitKernelStatus k <> DefaultStatus)
   then [CSetBootVars {[ "kernel_status" := DefaultStatus ]}] else [])
  ++ (if decide (Filename (currentKernel k) <> Filename sn)
      then [CEnableKernel sn] else [])
  ++ [CDisableTryKernel].

(** Steps 1 to 3 of the kernel's setNext commit for a candidate that is not
    the current kernel: persist the modeenv with the candidate appended,
    enable the try-kernel reference, set [kernel_status] to try (not called
    when that is the value read from the bootloader). *)
Definition spec_setNext_steps (m : Modeenv)
    (k : kernelStateMutatorExtractedRunKernelImage P) (next : P) : list (call P) :=
  [CModeenvWrite (set_CurrentKernels (CurrentKernels m ++ [Filename next]) m);
   CEnableTryKernel next]
  ++ (if decide (TryStatus <> currentKernelStatus k)
      then [CSetBootVars {[ "kernel_status" := TryStatus ]}] else []).

(** Steps 4 and 5 of the combined commit, on the modeenv in memory: with a
    kernel marked, [current_kernels] becomes its file name alone; the base
    status becomes the default; [try_base] is cleared when the status was
    not the default or a base is marked; with a base marked, [base] becomes
    its file name. *)
Definition spec_markSuccessful_modeenv (kernel base : option P) (m : Modeenv)
  : Modeenv :=
  mkModeenv
    (match base with Some sn => Filename sn | None => Base m end)
    (if decide (BaseStatus m <> DefaultStatus \/ is_Some base)
     then EmptyString else TryBase m)
    DefaultStatus
    (match kernel with Some sn => [Filename sn] | None => CurrentKernels m end).

(** Same artifact: equal name and revision. *)
Definition spec_sameArtifact (a b : P) : Prop :=
  SnapName a = SnapName b /\ SnapRevision a = SnapRevision b.

(** A call that changes persisted state: the modeenv file, the boot
    variables or the kernel references. *)
Definition mutating (c : call P) : bool :=
  match c with
  | CModeenvWrite _ | CSetBootVars _ | CEnableKernel _
  | CEnableTryKernel _ | CDisableTryKernel => true
  | _ => false
  end.

Definition isModeenvWrite (c : call P) : bool :=
  match c with CModeenvWrite _ => true | _ => false end.

(** The persisted state is the same in both worlds. *)
Definition same_persisted w w' : Prop :=
  modeenvFile w' = modeenvFile w /\ bootVars w' = bootVars w
  /\ kernelRef w' = kernelRef w /\ tryKernelRef w' = tryKernelRef w.

(** A run from [w] to [w'] that made no mutating call and left the persisted
    state as it was. *)
Definition reads_only w w' : Prop :=
  same_persisted w w'
  /\ exists evs, logged w w' evs /\ Forall (fun ev => mutating ev.1 = false) evs.

(** A computation that only reads, whatever the world it starts from. *)
Definition quiet {A} (c : M P A) : Prop := forall w, reads_only w (c w).2.

(** [current_kernels] of the modeenv file is not empty. *)
Definition kernels_nonempty w : Prop :=
  forall m, modeenvFile w = Some m -> CurrentKernels m <> [].

(** [current_kernels] of a modeenv held in memory, if any, is not empty. *)
Definition memory_nonempty (o : option Modeenv) : Prop :=
  forall m, o = Some m -> CurrentKernels m <> [].

End spec.

(** ** How callers use the boot state *)

Section callers.
Context {P : Type} {info : PlaceInfo P} {parse : SnapFileNames P}.

(** [commit] of the [bootStateUpdate] interface: the method of the dynamic
    type. *)
Definition bootStateUpdate_commit (u : bootStateUpdate P)
  : M P (bootStateUpdate P) :=
  match u with
  | UpdateKernel ks20 =>
      ks20 <- bootState20Kernel_commit ks20 ;; ret (UpdateKernel ks20)
  | UpdateBase bs20 =>
      bs20 <- bootState20Base_commit bs20 ;; ret (UpdateBase bs20)
  | UpdateMarkSuccessful bsmark =>
      bsmark <- bootState20MarkSuccessful_commit bsmark ;;
      ret (UpdateMarkSuccessful bsmark)
  end.

(** Modelled from the spec: the orchestrator, which is not in this file of
    the code, "calls setNext(candidate) to stage an update (returns whether a
    reboot is needed)" and commits the update that setNext returns.  Here on a
    fresh boot state. *)
Definition stageBase (next : P) : M P (bool * bootStateUpdate P) :=
  r <- bootState20Base_setNext bootState20Base_zero next ;;
  u <- bootStateUpdate_commit (UpdateBase r.2) ;;
  ret (r.1, u).

Definition stageKernel (next : P) : M P (bool * bootStateUpdate P) :=
  r <- bootState20Kernel_setNext bootState20Kernel_zero next ;;
  u <- bootStateUpdate_commit (UpdateKernel r.2) ;;
  ret (r.1, u).

(** Modelled from the spec: after a boot the orchestrator "calls
    markSuccessful on each relevant target feeding a shared accumulator, then
    calls commit() once".  Here the kernel, then the base with the update of
    the kernel; and the base alone. *)
Definition markBootSuccessful : M P (bootStateUpdate P) :=
  r <- bootState20Kernel_markSuccessful bootState20Kernel_zero None ;;
  r <- bootState20Base_markSuccessful bootState20Base_zero (Some r.2) ;;
  bootStateUpdate_commit r.2.

Definition markBaseSuccessful : M P (bootStateUpdate P) :=
  r <- bootState20Base_markSuccessful bootState20Base_zero None ;;
  bootStateUpdate_commit r.2.

(** Modelled from the spec: the boot script is "a black box whose only
    visible effect is setting a status variable to a trying value before
    handing control to the operating system"; it does so when the status is
    try. *)
Definition bootScript_base (w : World P) : World P :=
  match modeenvFile w with
  | Some m =>
      if decide (BaseStatus m = TryStatus)
      then put_modeenvFile (set_BaseStatus TryingStatus m) w else w
  | None => w
  end.

Definition bootScript_kernel (w : World P) : World P :=
  if decide (index (bootVars w) "kernel_status" = TryStatus)
  then put_bootVars {[ "kernel_status" := TryingStatus ]} w else w.

(** No call fails in this world. *)
Definition faultless (w : World P) : Prop := forall h c, faults w h c = None.

(** The world after [load] read the bootloader. *)
Definition loaded w : World P :=
  record (CKernel, None)
    (record (CGetBootVars ["kernel_status"], None) (record (CFind, None) w)).

(** The world after the setNext commit of a kernel made its three calls. *)
Definition staged (m : Modeenv) (next : P) w : World P :=
  record (CSetBootVars {[ "kernel_status" := TryStatus ]}, None)
    (put_bootVars {[ "kernel_status" := TryStatus ]}
       (record (CEnableTryKernel next, None)
          (put_tryKernelRef (Some next)
             (record (CModeenvWrite m, None) (put_modeenvFile m w))))).

(** The world after the bootloader steps of markSuccessful for a kernel that
    was tried. *)
Definition confirmed (next : P) w : World P :=
  record (CDisableTryKernel, None)
    (put_tryKernelRef None
       (record (CEnableKernel next, None)
          (put_kernelRef next
             (record (CSetBootVars {[ "kernel_status" := DefaultStatus ]}, None)
                (put_bootVars {[ "kernel_status" := DefaultStatus ]} w))))).

(** Modelled from the spec: "The enabled kernel at the bootloader and the
    try-reference (if any) are always a subset of currentKernels", together
    with what the comments of the two commits ask for: kernel_status is try
    only while the bootloader references a try kernel. *)
Definition trusted (w : World P) : Prop :=
  exists m,
    modeenvFile w = Some m
    /\ (forall k, kernelRef w = Some k -> Filename k ∈ CurrentKernels m)
    /\ (forall t, tryKernelRef w = Some t -> Filename t ∈ CurrentKernels m)
    /\ (index (bootVars w) "kernel_status" = TryStatus ->
        is_Some (tryKernelRef w)).

(** Calls that enable a kernel as the one booted by default or remove the
    try-kernel reference. *)
Definition changesKernelRef (c : call P) : bool :=
  match c with
  | CEnableKernel _ | CDisableTryKernel => true
  | _ => false
  end.

End callers.

(** * Disks and their partitions (package osutil/disks, disks.go) *)

(** ** What the code takes from Go and from its libraries *)

(** The platform and the library functions that the code calls and that are
    declared outside disks.go.  [intSize] is the size of Go's int, 32 or 64
    bits.  [OutputErr] is osutil.OutputErr, which wraps the output of a
    failed command in an error.  [Scanner] is a bufio.Scanner with its
    default split function over the bytes of an output: the lines that
    [Scan] and [Text] give, in order, and the error that [Err] returns once
    [Scan] has returned false.  [Quote] is the verb %q of package fmt. *)
Class GoLib : Type := {
  intSize : Z;
  intSize_cases : intSize = 32%Z \/ intSize = 64%Z;
  OutputErr : string -> error -> error;
  Scanner : string -> list string * option error;
  Quote : string -> string
}.

(** The fields of osutil.MountInfoEntry that the code reads. *)
Record MountInfoEntry : Type := mkMountInfoEntry {
  MountDir : string;
  DevMajor : Z;
  DevMinor : Z;
  MountSource : string
}.

(** The system the code queries: the mount table that osutil.LoadMountInfo
    reads, and the output and error of the command
    udevadm info --query property --name <device>. *)
Record System : Type := mkSystem {
  LoadMountInfo : error + list MountInfoEntry;
  udevadmProperties : string -> string * option error
}.

Section disks.
Context {lib : GoLib}.

Definition minInt : Z := (- 2 ^ (intSize - 1))%Z.
Definition maxInt : Z := (2 ^ (intSize - 1) - 1)%Z.

(** The value of an int after an operation whose exact result is [z]. *)
Definition wrapInt (z : Z) : Z :=
  ((z - minInt) mod 2 ^ intSize + minInt)%Z.

(** [strings.SplitN s sep 2] for a separator of one byte: [s] alone when it
    does not contain the separator, otherwise what comes before and what
    comes after the first separator. *)
Definition SplitN2 (s : string) (sep : ascii) : list string :=
  match splitAt sep s with
  | Some (a, b) => [a; b]
  | None => [s]
  end.

(** [strings.Contains]. *)
Fixpoint Contains (s substr : string) : bool :=
  String.prefix substr s
  || match s with
     | EmptyString => false
     | String _ rest => Contains rest substr
     end.

(** [strconv.Atoi]: an optional sign, then one or more decimal digits, for a
    value that fits an int.  The error is not modelled: its only caller
    replaces it. *)
Definition Atoi (s : string) : option Z :=
  let '(neg, ds) :=
    match s with
    | String c rest =>
        if decide (c = "-"%char) then (true, rest)
        else if decide (c = "+"%char) then (false, rest)
        else (false, s)
    | EmptyString => (false, s)
    end in
  match ds with
  | EmptyString => None
  | String _ _ =>
      match digits ds 0 with
      | Some n =>
          let v := if neg : bool then (- Z.of_N n)%Z else Z.of_N n in
          if decide (minInt <= v <= maxInt)%Z then Some v else None
      | None => None
      end
  end.

(** The verb %d of package fmt for an int. *)
Definition Sprintf_d (n : Z) : string := pretty n.

(** [filepath.Join dir name] for a clean [dir] and a [name] without
    separators or dots, which is all the code passes. *)
Definition filepath_Join (dir name : string) : string := dir ++ "/" ++ name.

(** ** The code *)

Record partition : Type := mkPartition {
  part_major : Z;
  part_minor : Z;
  label : string;
  partuuid : string;
  path : string
}.

(** [partitions] is a slice that can be nil. *)
Record disk : Type := mkDisk {
  major : Z;
  minor : Z;
  partitions : option (list partition)
}.

(** Go's [append] on a slice that can be nil, and [len]. *)
Definition append {A} (s : option (list A)) (x : A) : option (list A) :=
  Some (default [] s ++ [x]).
Definition len {A} (s : option (list A)) : nat := length (default [] s).

Definition errMsg : error :=
  Errorf "invalid device number format: (expected <int>:<int>)".

Definition parseDeviceMajorMinor (s : string) : error + Z * Z :=
  match SplitN2 s ":" with
  | [maj; min] =>
      match Atoi maj with
      | None => inl errMsg
      | Some maj =>
          match Atoi min with
          | None => inl errMsg
          | Some min => inr (maj, min)
          end
      end
  | _ => inl errMsg
  end.

(** [parseUdevProperties]: the reader is given by what the scanner yields
    from it.  The map that is returned is never nil. *)
Definition parseUdevProperties (r : list string * option error)
  : gmap string string * option error :=
  (fold_left
     (fun m line =>
        match SplitN2 line "=" with
        | [k; v] => <[k := v]> m
        | _ => m
        end)
     r.1 ∅,
   r.2).

(** [udevProperties] returns a map that can be nil, and an error. *)
Definition udevProperties (sys : System) (device : string)
  : option (gmap string string) * option error :=
  match udevadmProperties sys device with
  | (out, Some err) => (None, Some (OutputErr out err))
  | (out, None) =>
      let '(m, err) := parseUdevProperties (Scanner out) in (Some m, err)
  end.

(** Indexing a map that can be nil. *)
Definition props_index (props : option (gmap string string)) (k : string)
  : string :=
  index (default ∅ props) k.

Definition Dev (d : disk) : string :=
  Sprintf_d (major d) ++ ":" ++ Sprintf_d (minor d).

(** The first entry of the mount table mounted at [mountpoint]: the loop
    that stops at its first hit. *)
Fixpoint findMount (mounts : list MountInfoEntry) (mountpoint : string)
  : option partition :=
  match mounts with
  | [] => None
  | mount :: mounts =>
      if decide (MountDir mount = mountpoint)
      then Some (mkPartition (DevMajor mount) (DevMinor mount)
                             EmptyString EmptyString (MountSource mount))
      else findMount mounts mountpoint
  end.

(** The options are not used yet by the code. *)
Record Options : Type := mkOptions { IsDecryptedDevice : bool }.

Definition diskFromMountPointImpl (sys : System) (mountpoint : string)
    (opts : option Options) : error + disk :=
  match LoadMountInfo sys with
  | inl err => inl err
  | inr mounts =>
      match findMount mounts mountpoint with
      | None => inl (Errorf ("cannot find mountpoint " ++ Quote mountpoint))
      | Some mountpointPart =>
          let '(props, err) := udevProperties sys (path mountpointPart) in
          match err, props with
          | Some err, None =>
              inl (Errorf ("cannot find disk for partition "
                           ++ path mountpointPart ++ ": " ++ Error err))
          | _, _ =>
              match default ∅ props !! "ID_PART_ENTRY_DISK" with
              | Some majorMinor =>
                  match parseDeviceMajorMinor majorMinor with
                  | inl err =>
                      inl (Errorf ("cannot find disk for partition "
                                   ++ path mountpointPart
                                   ++ ", bad udev output: " ++ Error err))
                  | inr (maj, min) => inr (mkDisk maj min None)
                  end
              | None =>
                  inl (Errorf ("cannot find disk for partition "
                               ++ path mountpointPart
                               ++ ", incomplete udev output"))
              end
          end
      end
  end.

(** [DiskFromMountPoint] calls the package variable [diskFromMountPoint],
    which is [diskFromMountPointImpl] unless a test replaces it. *)
Definition DiskFromMountPoint (sys : System) (mountpoint : string)
    (opts : option Options) : error + disk :=
  diskFromMountPointImpl sys mountpoint opts.

(** The loop of [FindMatchingPartitionUUID] that looks for the partitions of
    the disk, from the device after [currentMinor] on.  It ends when udev
    does not know a device, or knows it as something else than a partition,
    or on an error; [fuel] bounds the number of devices it asks for, and
    the result is [None] when that bound is hit.  The disk is returned with
    the partitions appended so far, also on an error. *)
Fixpoint findPartitions (sys : System) (fuel : nat) (d : disk)
    (currentMinor : Z) : option (option error * disk) :=
  match fuel with
  | O => None
  | S fuel =>
      let currentMinor := wrapInt (currentMinor + 1)%Z in
      let partMajMin :=
        (Sprintf_d (major d) ++ ":" ++ Sprintf_d currentMinor)%string in
      let '(props, err) :=
        udevProperties sys (filepath_Join "/dev/block" partMajMin) in
      match err with
      | Some err =>
          if Contains (Error err) "Unknown device" then Some (None, d)
          else Some (Some (Errorf ("cannot get udev properties for partition "
                                   ++ partMajMin ++ ": " ++ Error err)), d)
      | None =>
          if decide (props_index props "DEVTYPE" <> "partition")
          then Some (None, d)
          else
            let label := props_index props "ID_FS_LABEL" in
            if decide (label <> EmptyString) then
              let partuuid := props_index props "ID_PART_ENTRY_UUID" in
              if decide (partuuid <> EmptyString) then
                let p := mkPartition (major d) currentMinor label partuuid
                                     EmptyString in
                findPartitions sys fuel
                  (mkDisk (major d) (minor d) (append (partitions d) p))
                  currentMinor
              else
                Some (Some (Errorf
                        ("cannot get udev properties for partition "
                         ++ partMajMin ++ ", missing udev property "
                         ++ String "034" "ID_PART_ENTRY_UUID"
                         ++ String "034" EmptyString)), d)
            else findPartitions sys fuel d currentMinor
      end
  end.

Definition FindMatchingPartitionUUID (sys : System) (fuel : nat) (d : disk)
    (lbl : string) : option ((error + string) * disk) :=
  match
    match partitions d with
    | None => findPartitions sys fuel d (minor d)
    | Some _ => Some (None, d)
    end
  with
  | None => None
  | Some (Some err, d) => Some (inl err, d)
  | Some (None, d) =>
      if decide (len (partitions d) = 0%nat) then
        Some (inl (Errorf ("no partitions found for disk " ++ Dev d)), d)
      else
        match List.find (fun part => bool_decide (label part = lbl))
                        (default [] (partitions d)) with
        | Some part => Some (inr (partuuid part), d)
        | None => Some (inl (Errorf ("couldn't find label " ++ Quote lbl)), d)
        end
  end.

(** Asking udev for the device [maj]:[min] ends the loop of
    [FindMatchingPartitionUUID]: there is an error, or the device is not a
    partition, or it has a label and no partition UUID. *)
Definition loop_ends (sys : System) (maj min : Z) : Prop :=
  let '(props, err) :=
    udevProperties sys
      (filepath_Join "/dev/block" (Sprintf_d maj ++ ":" ++ Sprintf_d min)) in
  err <> None
  \/ props_index props "DEVTYPE" <> "partition"
  \/ (props_index props "ID_FS_LABEL" <> EmptyString
      /\ props_index props "ID_PART_ENTRY_UUID" = EmptyString).

Definition MountPointIsFromDisk (sys : System) (d : disk)
    (mountpoint : string) (opts : option Options) : error + bool :=
  match diskFromMountPointImpl sys mountpoint opts with
  | inl err => inl err
  | inr d2 =>
      inr (bool_decide (major d = major d2) && bool_decide (minor d = minor d2))
  end.

End disks.

(** ** A concrete system for the runs *)

(** A 64-bit platform.  The scanner cuts at line feeds, drops a carriage
    return that ends a line and never fails, as for outputs with short
    lines; the quoting and the error of a failed command are those for plain
    text on one line. *)
Fixpoint dropCR (s : string) : string :=
  match s with
  | EmptyString => EmptyString
  | String c rest =>
      if decide (c = "013"%char /\ rest = EmptyString) then EmptyString
      else String c (dropCR rest)
  end.

Fixpoint splitLines (s : string) : list string :=
  match s with
  | EmptyString => []
  | String c rest =>
      if decide (c = "010"%char) then EmptyString :: splitLines rest
      else match splitLines rest with
           | [] => [String c EmptyString]
           | l :: ls => String c l :: ls
           end
  end.

Definition unlines (ls : list string) : string :=
  fold_right (fun l acc => l ++ String "010" acc)%string EmptyString ls.

Definition GoLib64 : GoLib := {|
  intSize := 64;
  intSize_cases := or_intror eq_refl;
  OutputErr := fun out err =>
    if decide (out = EmptyString) then err else Errorf out;
  Scanner := fun out => (dropCR <$> splitLines out, None);
  Quote := fun s => String "034" (s ++ String "034" EmptyString)
|}.

(** A disk 8:0 with a first partition without file system and three
    labelled partitions, the second of them mounted; the partition UUID of
    the last one is a parameter, and udev knows no further device. *)
Definition mounts_sda : list MountInfoEntry :=
  [ mkMountInfoEntry "/" 0 25 "tmpfs";
    mkMountInfoEntry "/run/mnt/ubuntu-boot" 8 3 "/dev/sda3";
    mkMountInfoEntry "/run/mnt/ubuntu-boot" 8 4 "/dev/sda4" ].

Definition udev_sda (uuid_data : string) (device : string)
  : string * option error :=
  if decide (device = "/dev/sda3") then
    (unlines ["DEVTYPE=partition"; "ID_PART_ENTRY_DISK=8:0";
              "ID_FS_LABEL=ubuntu-boot"], None)
  else if decide (device = "/dev/block/8:1") then
    (unlines ["DEVTYPE=partition"], None)
  else if decide (device = "/dev/block/8:2") then
    (unlines ["DEVTYPE=partition"; "ID_FS_LABEL=ubuntu-seed";
              "ID_PART_ENTRY_UUID=uuid-seed"], None)
  else if decide (device = "/dev/block/8:3") then
    (unlines ["DEVTYPE=partition"; "ID_FS_LABEL=ubuntu-boot";
              "ID_PART_ENTRY_UUID=uuid-boot"], None)
  else if decide (device = "/dev/block/8:4") then
    (unlines ["DEVTYPE=partition"; "ID_FS_LABEL=ubuntu-data";
              "ID_PART_ENTRY_UUID=" ++ uuid_data]%string, None)
  else ("Unknown device, No such device", Some (Errorf "exit status 4")).

Definition sys_sda (uuid_data : string) : System :=
  mkSystem (inr mounts_sda) (udev_sda uuid_data).

Definition disk_sda : disk := mkDisk 8 0 None.
Definition part_seed : partition :=
  mkPartition 8 2 "ubuntu-seed" "uuid-seed" EmptyString.
Definition part_boot : partition :=
  mkPartition 8 3 "ubuntu-boot" "uuid-boot" EmptyString.


Definition part_data : partition :=
  mkPartition 8 4 "ubuntu-data" "uuid-data" EmptyString.

(** ** Running the code *)

Section trace.
Context {P : Type}.

Implicit Types (w : World P) (evs : list (event P)) (steps : list (call P)).

Lemma logged_refl w : logged w w [].
Proof. split; [by rewrite app_nil_r | done]. Qed.

Lemma logged_trans w1 w2 w3 evs1 evs2 :
  logged w1 w2 evs1 -> logged w2 w3 evs2 -> logged w1 w3 (evs1 ++ evs2).
Proof.
  intros [H1 F1] [H2 F2]. split.
  - by rewrite H2, H1, app_assoc.
  - congruence.
Qed.

Lemma logged_inj w w' evs1 evs2 :
  logged w w' evs1 -> logged w w' evs2 -> evs1 = evs2.
Proof. intros [H1 _] [H2 _]. rewrite H1 in H2. by apply app_inv_head in H2. Qed.

Lemma runs_nil {A} (a : A) : runs_in_order (P:=P) [] (Ok a) [].
Proof. split; [done | split; [done | constructor]]. Qed.

Lemma runs_cons_ok {A} c steps (r : result A) evs :
  runs_in_order steps r evs -> runs_in_order (c :: steps) r ((c, None) :: evs).
Proof.
  intros [Hp Hr]. split.
  - simpl. by apply prefix_cons.
  - destruct r as [a|e|msg].
    + destruct Hr as [<- Hf]. split; [done | by constructor].
    + destruct Hr as (pre & c' & -> & Hf).
      exists ((c, None) :: pre), c'. split; [done | by constructor].
    + by constructor.
Qed.

Lemma runs_cons_err {A} c steps e :
  runs_in_order (A:=A) (c :: steps) (Err e) [(c, Some e)].
Proof.
  split.
  - simpl. apply prefix_cons, prefix_nil.
  - exists [], c. split; [done | constructor].
Qed.

Lemma runs_panic {A} steps msg : runs_in_order (A:=A) steps (Panic msg) [].
Proof. split; [apply prefix_nil | constructor]. Qed.

Lemma runs_app {A B} steps1 steps2 (a : A) (r : result B) evs1 evs2 :
  runs_in_order steps1 (Ok a) evs1 -> runs_in_order steps2 r evs2 ->
  runs_in_order (steps1 ++ steps2) r (evs1 ++ evs2).
Proof.
  intros [_ [<- F1]] [Hp Hr]. split.
  - rewrite map_app. by apply prefix_app.
  - destruct r as [b|e|msg].
    + destruct Hr as [<- F2]. split; [by rewrite map_app | by apply Forall_app].
    + destruct Hr as (pre & c & -> & F2).
      exists (evs1 ++ pre), c. split; [by rewrite app_assoc | by apply Forall_app].
    + by apply Forall_app.
Qed.

Lemma runs_app_stop {A B} steps1 steps2 (r : result A) (r' : result B) evs :
  runs_in_order steps1 r evs ->
  match r, r' with
  | Err e, Err e' => e = e'
  | Panic _, Panic _ => True
  | _, _ => False
  end ->
  runs_in_order (steps1 ++ steps2) r' evs.
Proof.
  intros [Hp Hr] Hrr. split.
  - by apply prefix_app_r.
  - destruct r, r'; try done. by subst.
Qed.

End trace.

(** Computations that only read *)

Section quiet.
Context {P : Type}.
Implicit Types (w : World P).

Lemma reads_only_refl w : reads_only w w.
Proof.
  split; [done|]. exists []. split; [apply logged_refl | constructor].
Qed.

Lemma reads_only_trans w1 w2 w3 :
  reads_only w1 w2 -> reads_only w2 w3 -> reads_only w1 w3.
Proof.
  intros [(A1 & B1 & C1 & D1) (evs1 & L1 & F1)]
         [(A2 & B2 & C2 & D2) (evs2 & L2 & F2)].
  split.
  - repeat split; congruence.
  - exists (evs1 ++ evs2). split; [by eapply logged_trans | by apply Forall_app].
Qed.

Lemma quiet_ret {A} (a : A) : quiet (P:=P) (ret a).
Proof. intros w. apply reads_only_refl. Qed.

Lemma quiet_fail {A} e : quiet (P:=P) (A:=A) (fail e).
Proof. intros w. apply reads_only_refl. Qed.

Lemma quiet_panic {A} msg : quiet (P:=P) (A:=A) (panic msg).
Proof. intros w. apply reads_only_refl. Qed.

Lemma quiet_deref {A} (p : option A) : quiet (P:=P) (deref p).
Proof. destruct p; [apply quiet_ret | apply quiet_panic]. Qed.

Lemma quiet_bind {A B} (c : M P A) (k : A -> M P B) :
  quiet c -> (forall a, quiet (k a)) -> quiet (bind c k).
Proof.
  intros Hc Hk w. unfold bind. specialize (Hc w).
  destruct (c w) as [[a|e|msg] w1]; [|done..].
  eapply reads_only_trans; [exact Hc | apply Hk].
Qed.

Lemma quiet_catch {A} (c : M P A) : quiet c -> quiet (catch c).
Proof.
  intros Hc w. unfold catch. specialize (Hc w).
  by destruct (c w) as [[a|e|msg] w1].
Qed.

Lemma quiet_query {A} (c : call P) (read : World P -> error + A) :
  mutating c = false -> quiet (query c read).
Proof.
  intros Hc w. unfold query.
  destruct (faults w (calls w) c) as [e|]; [|destruct (read w) as [e|a]];
    (split; [done|]); eexists; (split; [by split|]); by repeat constructor.
Qed.

End quiet.

Ltac quiet_step :=
  first
    [ apply quiet_ret | apply quiet_fail | apply quiet_panic | apply quiet_deref
    | apply quiet_catch
    | apply quiet_query; reflexivity
    | apply quiet_bind; [|intros ?]
    | case_match ].


(** Tactics for stepping through a run *)

Ltac oracle :=
  repeat match goal with
  | |- context [faults ?w0 ?h ?c] => destruct (faults w0 h c) eqn:?; simpl
  end.

Ltac unfold_calls :=
  unfold Modeenv_Write, ReadModeenv, bootloader_Find, ebl_GetBootVars,
    ebl_SetBootVars, ebl_Kernel, ebl_TryKernel, ebl_EnableKernel,
    ebl_EnableTryKernel, ebl_DisableTryKernel, invoke, query,
    bind, catch, ret, fail, panic, deref in *.

Ltac decisions :=
  repeat match goal with
  | |- context [decide ?Q] => destruct (decide Q); cbn in *
  end.

Ltac stable :=
  repeat match goal with
  | n : ~ (?a <> ?b) |- _ => apply dec_stable in n
  end.

Ltac absurd_case :=
  exfalso;
  match goal with
  | n : ~ (_ \/ is_Some (Some _)) |- _ => apply n; right; by eexists
  | n : ~ (?A \/ _), h : ?A |- _ => apply n; left; exact h
  | o : _ \/ is_Some None |- _ =>
      destruct o as [?|[? ?]]; [contradiction | discriminate]
  | n : ?x <> ?x |- _ => by apply n
  end.

Ltac in_order :=
  repeat first [ apply runs_cons_ok | apply runs_cons_err | apply runs_nil
               | apply runs_panic ].

Ltac log_here :=
  unfold logged; simpl; rewrite <- ?app_assoc; simpl;
  eexists; split; [split; reflexivity|].

Ltac the_log Hl :=
  simpl in Hl; rewrite <- ?app_assoc in Hl; simpl in Hl;
  first [ apply app_inv_head in Hl
        | rewrite <- (app_nil_r (calls _)) in Hl at 1; apply app_inv_head in Hl ];
  subst.

Ltac members Hin :=
  repeat (apply elem_of_cons in Hin as [Hin|Hin]; [simplify_eq/=|]);
  try (by apply elem_of_nil in Hin).

Section run.
Context {P : Type} {info : PlaceInfo P} {parse : SnapFileNames P}.

Implicit Types (w : World P) (evs : list (event P)) (steps : list (call P)).

Lemma kmerki_markSuccessful_run k sn w :
  exists evs,
    logged w (kmerki_markSuccessful k sn w).2 evs
    /\ modeenvFile (kmerki_markSuccessful k sn w).2 = modeenvFile w
    /\ runs_in_order (spec_markSuccessful_steps k sn)
                     (kmerki_markSuccessful k sn w).1 evs
    /\ (forall msg, (kmerki_markSuccessful k sn w).1 <> Panic msg).
Proof.
  unfold kmerki_markSuccessful, spec_markSuccessful_steps.
  unfold_calls.
  repeat case_decide; simpl; oracle; log_here;
    (split; [reflexivity | split; [in_order | done]]).
Qed.

Lemma kmerki_setNextKernel_run k sn w :
  commitKernelStatus k = TryStatus ->
  Filename sn <> Filename (currentKernel k) ->
  exists evs,
    logged w (kmerki_setNextKernel k sn w).2 evs
    /\ modeenvFile (kmerki_setNextKernel k sn w).2 = modeenvFile w
    /\ runs_in_order
         (CEnableTryKernel sn
          :: (if decide (TryStatus <> currentKernelStatus k)
              then [CSetBootVars {[ "kernel_status" := TryStatus ]}] else []))
         (kmerki_setNextKernel k sn w).1 evs
    /\ (forall msg, (kmerki_setNextKernel k sn w).1 <> Panic msg).
Proof.
  intros Hc Hf. unfold kmerki_setNextKernel. rewrite Hc.
  unfold_calls.
  repeat case_decide; try done; simpl; oracle; log_here;
    (split; [reflexivity | split; [in_order | done]]).
Qed.

Lemma Modeenv_Write_run m w :
  exists o,
    logged w (Modeenv_Write m w).2 [(CModeenvWrite m, o)]
    /\ match o with
       | None => (Modeenv_Write m w).1 = Ok ()
                 /\ modeenvFile (Modeenv_Write m w).2 = Some m
       | Some e => (Modeenv_Write m w).1 = Err e
                   /\ modeenvFile (Modeenv_Write m w).2 = modeenvFile w
       end
    /\ bootVars (Modeenv_Write m w).2 = bootVars w
    /\ kernelRef (Modeenv_Write m w).2 = kernelRef w
    /\ tryKernelRef (Modeenv_Write m w).2 = tryKernelRef w.
Proof.
  unfold_calls. oracle; eexists; (split; [by split|]); done.
Qed.

(** *** The combined commit of markSuccessful *)

(** The combined commit with a kernel staged: the bootloader steps, then
    the write of the modeenv built in memory. *)
Lemma markSuccessful_commit_kernel bsmark k sn w :
  bootedKernelSnap (msKernel bsmark) = Some sn ->
  kmut (msKernel bsmark) = Some k ->
  match modeenv (bsModeenv (msBase bsmark)) with
  | Some m0 =>
      let bs := msBase bsmark in
      let m := spec_markSuccessful_modeenv (Some sn) (bootedBaseSnap bs) m0 in
      let b := mkBootState20MarkSuccessful
                 (mkBootState20Base (mkBootState20Modeenv (Some m))
                    (commitBaseStatus bs) (bootedBaseSnap bs) (tryBaseSnap bs))
                 (msKernel bsmark) in
      bootState20MarkSuccessful_commit bsmark w
      = (kmerki_markSuccessful k sn ;;; Modeenv_Write m ;;; ret b) w
  | None =>
      exists msg, bootState20MarkSuccessful_commit bsmark w
                  = (kmerki_markSuccessful k sn ;;; panic msg) w
  end.
Proof.
  intros Hsn Hk. unfold bootState20MarkSuccessful_commit. rewrite Hsn, Hk.
  destruct (modeenv (bsModeenv (msBase bsmark))) as [[b0 tb0 st0 ks0]|];
    unfold bind, ret, deref, panic; simpl.
  - unfold spec_markSuccessful_modeenv.
    destruct (kmerki_markSuccessful k sn w) as [[[]|e|msg] w1];
      destruct (bootedBaseSnap (msBase bsmark)) as [bsn|]; cbn;
      try reflexivity;
      decisions; try absurd_case; stable; simplify_eq/=; reflexivity.
  - eexists.
    destruct (kmerki_markSuccessful k sn w) as [[[]|e|msg] w1]; reflexivity.
Qed.

Lemma index_put_bootVars (vars : gmap string string) k v :
  index ({[ k := v ]} ∪ vars) k = v.
Proof.
  unfold index. by rewrite (lookup_union_Some_l _ _ _ v) by apply lookup_singleton_eq.
Qed.

(** The bootloader after the steps of markSuccessful returned nil, when the
    mutator holds what the bootloader held. *)
Lemma kmerki_markSuccessful_state k sn w :
  (kmerki_markSuccessful k sn w).1 = Ok () ->
  index (bootVars w) "kernel_status" = commitKernelStatus k ->
  kernelRef w = Some (currentKernel k) ->
  let w' := (kmerki_markSuccessful k sn w).2 in
  index (bootVars w') "kernel_status" = DefaultStatus
  /\ Filename <$> kernelRef w' = Some (Filename sn)
  /\ tryKernelRef w' = None.
Proof.
  unfold kmerki_markSuccessful. unfold_calls.
  decisions; oracle; try done; intros _ Hst Hk; stable;
    rewrite ?index_put_bootVars, ?Hk; cbn; repeat split; congruence.
Qed.
(** C1: in the combined commit with a kernel marked, the calls are issued in
    the order clear kernel_status, enable the kernel, remove the try-kernel
    reference, write the modeenv; the commit stops at the first call that
    fails, so the write comes last, at most once, and only after the
    bootloader calls returned nil; the modeenv written, and kept in memory
    when the commit returns normally, has the booted kernel's file name as
    its only current kernel; and after a commit that returns normally
    kernel_status is the default, the booted kernel is the enabled one and
    there is no try-kernel reference. *)
Theorem markSuccessful_commit_order bsmark k sn w :
  bootedKernelSnap (msKernel bsmark) = Some sn ->
  kmut (msKernel bsmark) = Some k ->
  exists evs m,
    logged w (bootState20MarkSuccessful_commit bsmark w).2 evs
    /\ CurrentKernels m = [Filename sn]
    /\ runs_in_order (spec_markSuccessful_steps k sn ++ [CModeenvWrite m])
                     (bootState20MarkSuccessful_commit bsmark w).1 evs
    /\ (forall b, (bootState20MarkSuccessful_commit bsmark w).1 = Ok b ->
        modeenv (bsModeenv (msBase b)) = Some m
        /\ modeenvFile (bootState20MarkSuccessful_commit bsmark w).2 = Some m)
    /\ (forall b, (bootState20MarkSuccessful_commit bsmark w).1 = Ok b ->
        index (bootVars w) "kernel_status" = commitKernelStatus k ->
        kernelRef w = Some (currentKernel k) ->
        let w' := (bootState20MarkSuccessful_commit bsmark w).2 in
        index (bootVars w') "kernel_status" = DefaultStatus
        /\ Filename <$> kernelRef w' = Some (Filename sn)
        /\ tryKernelRef w' = None).
Proof.
  intros Hsn Hk.
  pose proof (markSuccessful_commit_kernel bsmark k sn w Hsn Hk) as Hc.
  destruct (kmerki_markSuccessful_run k sn w) as (evs1 & Hl1 & Hf1 & Hr1 & Hp1).
  pose proof (kmerki_markSuccessful_state k sn w) as Hs1.
  destruct (kmerki_markSuccessful k sn w) as [r1 w1] eqn:E1; simpl in *.
  destruct (modeenv (bsModeenv (msBase bsmark))) as [m0|].
  - cbv zeta in Hc.
    set (m := spec_markSuccessful_modeenv _ _ _) in Hc.
    destruct (Modeenv_Write_run m w1) as (o & Hl2 & Ho & Hv & Hkr & Htr).
    unfold bind, ret in Hc. rewrite E1 in Hc.
    destruct r1 as [[]|e|msg].
    + destruct (Modeenv_Write m w1) as [r2 w2] eqn:E2; simpl in *.
      exists (evs1 ++ [(CModeenvWrite m, o)]), m. rewrite Hc.
      destruct o as [e'|]; destruct Ho as [-> Ho2]; simpl;
        (split; [by eapply logged_trans|]); (split; [done|]);
        (split; [eapply runs_app; [done | in_order]|]); [done|].
      split; [by intros b [= <-]|].
      intros b _ Hst Hker. rewrite Hv, Hkr, Htr. by apply Hs1.
    + exists evs1, m. rewrite Hc; simpl.
      split; [done|]. split; [done|]. split; [|done].
      eapply runs_app_stop; [done | done].
    + by destruct (Hp1 msg).
  - exists evs1, (mkModeenv EmptyString EmptyString EmptyString [Filename sn]).
    destruct Hc as [msg0 Hc]. unfold bind, panic in Hc. rewrite E1 in Hc.
    rewrite Hc. destruct r1 as [[]|e|msg]; simpl.
    + split; [done|]. split; [done|]. split; [|done].
      rewrite <- (app_nil_r evs1). eapply runs_app; [done | in_order].
    + split; [done|]. split; [done|]. split; [|done].
      eapply runs_app_stop; [done | done].
    + by destruct (Hp1 msg).
Qed.

(** C8: a bootloader call of the combined commit that fails ends the
    commit: the commit returns that error, the failed call is the last one
    made, no modeenv write is issued and the modeenv file is as before. *)
Theorem markSuccessful_commit_bootloader_failure bsmark w evs c e :
  logged w (bootState20MarkSuccessful_commit bsmark w).2 evs ->
  (c, Some e) ∈ evs ->
  isModeenvWrite c = false ->
  (bootState20MarkSuccessful_commit bsmark w).1 = Err e
  /\ modeenvFile (bootState20MarkSuccessful_commit bsmark w).2 = modeenvFile w
  /\ Forall (fun ev => isModeenvWrite ev.1 = false) evs
  /\ last evs = Some (c, Some e).
Proof.
  intros [Hl _] Hin Hnw. revert Hl.
  unfold bootState20MarkSuccessful_commit, kmerki_markSuccessful.
  destruct (bootedKernelSnap (msKernel bsmark)) as [sn|];
    [destruct (kmut (msKernel bsmark)) as [k|]|];
    (destruct (modeenv (bsModeenv (msBase bsmark))) as [[b0 tb0 st0 ks0]|]);
    (destruct (bootedBaseSnap (msBase bsmark)) as [bsn|]);
    unfold_calls; cbn; decisions; oracle; decisions; oracle;
    intros Hl; the_log Hl; members Hin; try done.
  all: repeat split; try done; repeat constructor.
Qed.
(** *** The setNext commit of the kernel snap *)

(** C2: the setNext commit of a kernel that is not the current one, staged
    with status try, first writes the modeenv with the candidate's file name
    appended to the current kernels, then enables the try-kernel reference,
    then sets kernel_status to try, and makes that last call only when try
    is not the status read from the bootloader; a call that fails ends the
    commit. *)
Theorem kernel_commit_order ks20 k next m w :
  kmut ks20 = Some k ->
  nextKernelSnap ks20 = Some next ->
  modeenv (kModeenv ks20) = Some m ->
  commitKernelStatus k = TryStatus ->
  Filename next <> Filename (currentKernel k) ->
  exists evs,
    logged w (bootState20Kernel_commit ks20 w).2 evs
    /\ runs_in_order (spec_setNext_steps m k next)
                     (bootState20Kernel_commit ks20 w).1 evs.
Proof.
  intros Hk Hn Hm Hc Hf.
  unfold bootState20Kernel_commit, kmerki_setNextKernel, spec_setNext_steps,
    kmerki_kernel.
  rewrite Hk, Hn, Hm. unfold_calls. cbn. rewrite Hc.
  decisions; try done; oracle; log_here; in_order.
Qed.

(** *** The current kernels are never emptied *)

Lemma kernel_commit_nonempty ks20 w :
  memory_nonempty (modeenv (kModeenv ks20)) ->
  kernels_nonempty w ->
  kernels_nonempty (bootState20Kernel_commit ks20 w).2
  /\ forall b, (bootState20Kernel_commit ks20 w).1 = Ok b ->
               memory_nonempty (modeenv (kModeenv b)).
Proof.
  unfold kernels_nonempty, memory_nonempty,
    bootState20Kernel_commit, kmerki_setNextKernel, kmerki_kernel.
  destruct ks20 as [[k|] bk [next|] [[m|]]]; cbn; intros Hmem Hw;
    unfold_calls; cbn; decisions; oracle;
    (split; [|intros b ?]); intros m' ?; simplify_eq/=; eauto;
    try (by intros [_ ?]%app_eq_nil).
Qed.

Lemma base_commit_nonempty (bs20 : bootState20Base P) w :
  memory_nonempty (modeenv (bsModeenv bs20)) ->
  kernels_nonempty w ->
  kernels_nonempty (bootState20Base_commit bs20 w).2
  /\ forall b, (bootState20Base_commit bs20 w).1 = Ok b ->
               memory_nonempty (modeenv (bsModeenv b)).
Proof.
  unfold kernels_nonempty, memory_nonempty, bootState20Base_commit.
  destruct bs20 as [[[m|]] st bb [t|]]; cbn; intros Hmem Hw;
    unfold_calls; cbn; decisions; oracle;
    (split; [|intros b ?]); intros m' ?; simplify_eq/=; eauto.
Qed.

Lemma markSuccessful_commit_nonempty (bsmark : bootState20MarkSuccessful P) w :
  memory_nonempty (modeenv (bsModeenv (msBase bsmark))) ->
  kernels_nonempty w ->
  kernels_nonempty (bootState20MarkSuccessful_commit bsmark w).2
  /\ forall b, (bootState20MarkSuccessful_commit bsmark w).1 = Ok b ->
               memory_nonempty (modeenv (bsModeenv (msBase b))).
Proof.
  unfold kernels_nonempty, memory_nonempty, bootState20MarkSuccessful_commit,
    kmerki_markSuccessful.
  destruct bsmark as [[[[m|]] st [bb|] t] [[k|] [bk|] nk km]]; cbn;
    intros Hmem Hw;
    unfold_calls; cbn; decisions; oracle; decisions; oracle;
    (split; [|intros b ?]); intros m' ?; simplify_eq/=; eauto.
Qed.

Lemma kernel_commit_appends (ks20 : bootState20Kernel P) k next m w b :
  kmut ks20 = Some k ->
  nextKernelSnap ks20 = Some next ->
  modeenv (kModeenv ks20) = Some m ->
  Filename next <> Filename (currentKernel k) ->
  (bootState20Kernel_commit ks20 w).1 = Ok b ->
  let m' := set_CurrentKernels (CurrentKernels m ++ [Filename next]) m in
  modeenvFile (bootState20Kernel_commit ks20 w).2 = Some m'
  /\ modeenv (kModeenv b) = Some m'.
Proof.
  unfold bootState20Kernel_commit, kmerki_setNextKernel, kmerki_kernel.
  intros -> -> -> Hf. unfold_calls. cbn.
  decisions; try done; oracle; intros ?; simplify_eq/=; try done.
Qed.

Lemma markSuccessful_commit_shrinks (bsmark : bootState20MarkSuccessful P) sn w b :
  bootedKernelSnap (msKernel bsmark) = Some sn ->
  (bootState20MarkSuccessful_commit bsmark w).1 = Ok b ->
  exists m, CurrentKernels m = [Filename sn]
            /\ modeenvFile (bootState20MarkSuccessful_commit bsmark w).2 = Some m
            /\ modeenv (bsModeenv (msBase b)) = Some m.
Proof.
  unfold bootState20MarkSuccessful_commit, kmerki_markSuccessful.
  destruct bsmark as [[[[m|]] st [bb|] t] [[k|] bk nk km]]; cbn;
    intros ->; unfold_calls; cbn; decisions; oracle; decisions; oracle;
    intros ?; simplify_eq/=;
    (eexists; split; [|split; [reflexivity|]]; reflexivity).
Qed.

(** C9: the current kernels are never emptied.  A setNext commit of a kernel
    that is not the current one, when it returns normally, has written and
    keeps in memory the previous list with the candidate's file name
    appended, so every previous file name and the candidate's are in it; a
    combined markSuccessful commit with a kernel marked, when it returns
    normally, has written and keeps in memory the booted kernel's file name
    alone; and none of the three commits makes a non-empty list of the
    modeenv file empty. *)
Theorem currentKernels_never_empty :
  (forall (ks20 : bootState20Kernel P) k next m w b,
      kmut ks20 = Some k ->
      nextKernelSnap ks20 = Some next ->
      modeenv (kModeenv ks20) = Some m ->
      Filename next <> Filename (currentKernel k) ->
      (bootState20Kernel_commit ks20 w).1 = Ok b ->
      exists m',
        modeenvFile (bootState20Kernel_commit ks20 w).2 = Some m'
        /\ modeenv (kModeenv b) = Some m'
        /\ CurrentKernels m' = CurrentKernels m ++ [Filename next]
        /\ (forall f, f ∈ CurrentKernels m -> f ∈ CurrentKernels m')
        /\ Filename next ∈ CurrentKernels m')
  /\ (forall (bsmark : bootState20MarkSuccessful P) sn w b,
        bootedKernelSnap (msKernel bsmark) = Some sn ->
        (bootState20MarkSuccessful_commit bsmark w).1 = Ok b ->
        exists m',
          modeenvFile (bootState20MarkSuccessful_commit bsmark w).2 = Some m'
          /\ modeenv (bsModeenv (msBase b)) = Some m'
          /\ CurrentKernels m' = [Filename sn])
  /\ (forall (ks20 : bootState20Kernel P) w,
        memory_nonempty (modeenv (kModeenv ks20)) -> kernels_nonempty w ->
        kernels_nonempty (bootState20Kernel_commit ks20 w).2)
  /\ (forall (bs20 : bootState20Base P) w,
        memory_nonempty (modeenv (bsModeenv bs20)) -> kernels_nonempty w ->
        kernels_nonempty (bootState20Base_commit bs20 w).2)
  /\ (forall (bsmark : bootState20MarkSuccessful P) w,
        memory_nonempty (modeenv (bsModeenv (msBase bsmark))) ->
        kernels_nonempty w ->
        kernels_nonempty (bootState20MarkSuccessful_commit bsmark w).2).
Proof.
  split; [|split; [|split; [|split]]].
  - intros ks20 k next m w b Hk Hn Hm Hf Hok.
    destruct (kernel_commit_appends ks20 k next m w b Hk Hn Hm Hf Hok) as [H1 H2].
    eexists. split; [exact H1|]. split; [exact H2|]. cbn.
    split; [done|]. split.
    + intros f Hin. apply elem_of_app. by left.
    + apply elem_of_app. right. by apply list_elem_of_singleton.
  - intros bsmark sn w b Hsn Hok.
    destruct (markSuccessful_commit_shrinks bsmark sn w b Hsn Hok)
      as (m & Hm & Hfile & Hmem). by exists m.
  - intros ks20 w Hmem Hw. by apply kernel_commit_nonempty.
  - intros bs20 w Hmem Hw. by apply base_commit_nonempty.
  - intros bsmark w Hmem Hw. by apply markSuccessful_commit_nonempty.
Qed.
(** *** setNext stages, commit applies *)

Lemma quiet_loadModeenv bsm : quiet (bootState20Modeenv_loadModeenv (P:=P) bsm).
Proof.
  unfold bootState20Modeenv_loadModeenv, ReadModeenv. repeat quiet_step.
Qed.

Lemma quiet_kmerki_load : quiet (kmerki_load (P:=P)).
Proof.
  unfold kmerki_load, bootloader_Find, ebl_GetBootVars, ebl_Kernel.
  repeat quiet_step.
Qed.

Lemma quiet_kernel_revisions (ks20 : bootState20Kernel P) :
  quiet (bootState20Kernel_revisions ks20).
Proof.
  unfold bootState20Kernel_revisions, bootState20Kernel_loadBootenv,
    kmerki_tryKernel, ebl_TryKernel.
  apply quiet_bind; [apply quiet_bind; [apply quiet_kmerki_load|]|];
    intros; repeat quiet_step.
Qed.

Lemma quiet_base_revisions (bs20 : bootState20Base P) :
  quiet (bootState20Base_revisions bs20).
Proof.
  unfold bootState20Base_revisions, bootState20Base_loadModeenv, ReadModeenv.
  repeat quiet_step.
Qed.

Lemma quiet_genericSetNext {B} {impl : @bootState P B} (b : B) next :
  quiet (revisions b) -> quiet (genericSetNext b next).
Proof.
  intros Hq. unfold genericSetNext. apply quiet_bind; [done|].
  intros [b' [[cur t] st]]. repeat quiet_step.
Qed.

(** C6: setNext alone changes no persisted state, for the kernel and for the
    base: whatever the world and the faults, it makes no mutating call (no
    modeenv write, no boot variable write, no change of a kernel reference)
    and leaves the modeenv file, the boot variables and the kernel
    references as they were. *)
Theorem setNext_mutates_nothing
    (ks20 : bootState20Kernel P) (bs20 : bootState20Base P) next :
  quiet (bootState20Kernel_setNext ks20 next)
  /\ quiet (bootState20Base_setNext bs20 next).
Proof.
  split.
  - unfold bootState20Kernel_setNext.
    apply quiet_bind; [apply quiet_loadModeenv|]. intros km.
    apply quiet_bind;
      [apply quiet_genericSetNext, quiet_kernel_revisions|].
    intros [ks nextStatus]. repeat quiet_step.
  - unfold bootState20Base_setNext.
    apply quiet_bind;
      [apply quiet_genericSetNext, quiet_base_revisions|].
    intros [bs nextStatus]. repeat quiet_step.
Qed.
Lemma kmerki_load_ok w k :
  (kmerki_load w).1 = Ok k -> commitKernelStatus k = currentKernelStatus k.
Proof.
  unfold kmerki_load. unfold_calls. cbn. oracle; try done.
  destruct (blExtractedRunKernelImage w); cbn; [|done].
  oracle; try done. destruct (kernelRef w); cbn; [|done].
  by intros [= <-].
Qed.

Lemma kernel_revisions_ok (ks : bootState20Kernel P) w ks1 cur t st :
  (bootState20Kernel_revisions ks w).1 = Ok (ks1, (cur, t, st)) ->
  exists k,
    ks1 = mkBootState20Kernel (Some k) (bootedKernelSnap ks)
                              (nextKernelSnap ks) (kModeenv ks)
    /\ currentKernel k = cur
    /\ currentKernelStatus k = st
    /\ commitKernelStatus k = st.
Proof.
  unfold bootState20Kernel_revisions, bootState20Kernel_loadBootenv,
    kmerki_tryKernel, kmerki_kernel, kmerki_kernelStatus.
  pose proof (kmerki_load_ok w) as Hload.
  unfold bind, catch, ret, deref, fail.
  destruct (kmerki_load w) as [[k|e|msg] w1]; cbn; [|done..].
  specialize (Hload k eq_refl).
  destruct (ebl_TryKernel w1) as [[tk|e|msg] w2]; cbn; [| |done].
  - intros [= <- <- <- <-]. by exists k.
  - destruct (decide (e <> ErrNoTryKernelRef)); cbn; [done|].
    intros [= <- <- <- <-]. by exists k.
Qed.

Lemma genericSetNext_run {B} {impl : @bootState P B} (b : B) next w b' cur t st :
  (revisions b w).1 = Ok (b', (cur, t, st)) ->
  genericSetNext b next w
  = (Ok (b', if decide (spec_sameArtifact cur next)
             then DefaultStatus else TryStatus),
     (revisions b w).2).
Proof.
  unfold genericSetNext, bind, ret, spec_sameArtifact.
  destruct (revisions b w) as [[[b0 [[c0 t0] s0]]|e|msg] w1]; cbn; [|done..].
  intros [= -> -> -> ->].
  destruct (decide (SnapName cur = SnapName next
                    /\ SnapRevision next = SnapRevision cur)) as [[? ?]|Hn];
    destruct (decide (SnapName cur = SnapName next
                      /\ SnapRevision cur = SnapRevision next)) as [[? ?]|Hn'];
    try done.
  - destruct Hn'. by split.
  - destruct Hn. by split.
Qed.

(** C3: setNext of the kernel and of the base, once the current snap is
    read, returns normally and stages the status that the one routine
    genericSetNext returns: the default status and no reboot when the
    candidate has the name and revision of the current snap, and otherwise
    status try, the candidate as the snap to try, and a reboot. *)
Theorem setNext_decision next :
  (forall (ks20 : bootState20Kernel P) w km ks1 cur t st,
      let ks' := mkBootState20Kernel (kmut ks20) (bootedKernelSnap ks20)
                                     (nextKernelSnap ks20) km in
      let w1 := (bootState20Modeenv_loadModeenv (kModeenv ks20) w).2 in
      (bootState20Modeenv_loadModeenv (kModeenv ks20) w).1 = Ok km ->
      (bootState20Kernel_revisions ks' w1).1 = Ok (ks1, (cur, t, st)) ->
      exists reboot ks2 k,
        bootState20Kernel_setNext ks20 next w
        = (Ok (reboot, ks2), (bootState20Kernel_revisions ks' w1).2)
        /\ kmut ks2 = Some k
        /\ nextKernelSnap ks2 = Some next
        /\ (genericSetNext ks' next w1).1 = Ok (ks1, commitKernelStatus k)
        /\ (spec_sameArtifact cur next ->
            reboot = false /\ commitKernelStatus k = DefaultStatus)
        /\ (~ spec_sameArtifact cur next ->
            reboot = true /\ commitKernelStatus k = TryStatus))
  /\ (forall (bs20 : bootState20Base P) w bs1 cur t st,
        (bootState20Base_revisions bs20 w).1 = Ok (bs1, (cur, t, st)) ->
        exists reboot bs2,
          bootState20Base_setNext bs20 next w
          = (Ok (reboot, bs2), (bootState20Base_revisions bs20 w).2)
          /\ (genericSetNext bs20 next w).1 = Ok (bs1, commitBaseStatus bs2)
          /\ (spec_sameArtifact cur next ->
              reboot = false /\ commitBaseStatus bs2 = DefaultStatus)
          /\ (~ spec_sameArtifact cur next ->
              reboot = true /\ commitBaseStatus bs2 = TryStatus
              /\ tryBaseSnap bs2 = Some next)).
Proof.
  split.
  - intros ks20 w km ks1 cur t st ks' w1 Hload Hrev.
    destruct (kernel_revisions_ok _ _ _ _ _ _ Hrev) as (k & -> & Hcur & Hst & Hc).
    pose proof (genericSetNext_run (impl:=bootState20Kernel_bootState)
                  ks' next w1 _ _ _ _ Hrev) as Hg.
    unfold bootState20Kernel_setNext, bind at 1.
    destruct (bootState20Modeenv_loadModeenv (kModeenv ks20) w)
      as [r0 w0] eqn:E0. cbn in Hload, w1. subst r0 w1.
    cbv beta iota. fold ks'. unfold bind at 1.
    eexists _, _, _. rewrite Hg. cbn. split; [reflexivity|]. cbn.
    split; [done|]. split; [done|]. split; [done|].
    destruct (decide (spec_sameArtifact cur next)); split; intros; done.
  - intros bs20 w bs1 cur t st Hrev.
    pose proof (genericSetNext_run (impl:=bootState20Base_bootState)
                  bs20 next w _ _ _ _ Hrev) as Hg.
    unfold bootState20Base_setNext, bind at 1.
    eexists _, _. rewrite Hg. cbn. split; [reflexivity|]. cbn. split; [done|].
    destruct (decide (spec_sameArtifact cur next)); split; intros; done.
Qed.

(** *** markSuccessful selects the snap *)

(** C4: from what revisions returns, selectSuccessfulBootSnap picks the try
    snap when the status is trying and there is a try snap, and the current
    snap in every other case. *)
Theorem selectSuccessfulBootSnap_choice {B} {impl : @bootState P B}
    (b : B) (update : option (bootStateUpdate P)) w b' cur t st :
  (revisions b w).1 = Ok (b', (cur, t, st)) ->
  (forall u, update = Some u -> exists bsmark, u = UpdateMarkSuccessful bsmark) ->
  exists bsmark sn,
    selectSuccessfulBootSnap b update w = (Ok (b', bsmark, sn), (revisions b w).2)
    /\ (forall tsn, st = TryingStatus -> t = Some tsn -> sn = tsn)
    /\ (~ (st = TryingStatus /\ is_Some t) -> sn = cur).
Proof.
  intros Hrev Hu. unfold selectSuccessfulBootSnap, bind, ret, fail.
  destruct (revisions b w) as [[[b0 [[c0 t0] s0]]|e|msg] w1]; cbn in *; [|done..].
  injection Hrev as -> -> -> ->.
  destruct update as [[ks|bs|u]|];
    try (by destruct (Hu _ eq_refl) as [? [=]]); cbn;
    destruct (decide (st = TryingStatus)) as [->|Hst], t as [tsn|]; cbn;
    eexists _, _; (split; [reflexivity|]); split; try done;
    try (by intros ? _ [= ->]);
    try (by intros []; split; [done | eexists]);
    try (by intros [_ [? ?]]).
Qed.

(** *** revisions of the base snap *)

Lemma base_loadModeenv_ok (bs20 : bootState20Base P) w bs1 :
  (bootState20Base_loadModeenv bs20 w).1 = Ok bs1 ->
  exists m, modeenv (bsModeenv bs1) = Some m.
Proof.
  unfold bootState20Base_loadModeenv.
  destruct (modeenv (bsModeenv bs20)) as [m|] eqn:E; cbn.
  - intros [= <-]. by exists m.
  - unfold bind, catch, ret, fail.
    destruct (ReadModeenv w) as [[m|e|msg] w1]; cbn; [|done..].
    intros [= <-]. by exists m.
Qed.

(** [revisions] of the base snap once the modeenv [m] is loaded. *)
Lemma base_revisions_loaded (bs20 : bootState20Base P) w bs1 m :
  (bootState20Base_loadModeenv bs20 w).1 = Ok bs1 ->
  modeenv (bsModeenv bs1) = Some m ->
  bootState20Base_revisions bs20 w
  = ((if decide (Base m = EmptyString) then
        Err (Errorf "cannot get snap revision: modeenv base boot variable is empty")
      else
        match ParsePlaceInfoFromSnapFileName (Base m) with
        | inl err =>
            Err (Errorf ("cannot get snap revision: modeenv base boot variable is invalid: "
                         ++ Error err))
        | inr bootSn =>
            if decide (BaseStatus m = TryingStatus /\ TryBase m <> EmptyString) then
              match ParsePlaceInfoFromSnapFileName (TryBase m) with
              | inl err =>
                  Err (Errorf ("cannot get snap revision: modeenv try base boot variable is invalid: "
                               ++ Error err))
              | inr tryBootSn => Ok (bs1, (bootSn, Some tryBootSn, BaseStatus m))
              end
            else Ok (bs1, (bootSn, None, BaseStatus m))
        end),
     (bootState20Base_loadModeenv bs20 w).2).
Proof.
  unfold bootState20Base_revisions, bind, ret, fail, deref.
  destruct (bootState20Base_loadModeenv bs20 w) as [[b|e|msg] w1]; cbn; [|done..].
  intros [= ->] ->. cbn.
  destruct (decide (Base m = EmptyString)); cbn; [done|].
  destruct (ParsePlaceInfoFromSnapFileName (Base m)) as [err|bootSn];
    cbn; [done|].
  destruct (decide (BaseStatus m = TryingStatus /\ TryBase m <> EmptyString));
    cbn; [|done].
  by destruct (ParsePlaceInfoFromSnapFileName (TryBase m)).
Qed.

(** C10: revisions of the base snap returns a try snap only when the base
    status of the modeenv is trying and its try base is not empty; when the
    status is try it returns no try snap whatever the try base holds, and
    its result does not depend on how the try base would be decoded. *)
Theorem base_revisions_try_candidate (bs20 : bootState20Base P) w :
  (forall bs1 cur t st,
      (bootState20Base_revisions bs20 w).1 = Ok (bs1, (cur, Some t, st)) ->
      exists m, modeenv (bsModeenv bs1) = Some m
                /\ BaseStatus m = TryingStatus
                /\ st = TryingStatus
                /\ TryBase m <> EmptyString
                /\ ParsePlaceInfoFromSnapFileName (TryBase m) = inr t)
  /\ (forall bs1 m sn,
        (bootState20Base_loadModeenv bs20 w).1 = Ok bs1 ->
        modeenv (bsModeenv bs1) = Some m ->
        BaseStatus m = TryStatus ->
        Base m <> EmptyString ->
        ParsePlaceInfoFromSnapFileName (Base m) = inr sn ->
        bootState20Base_revisions bs20 w
        = (Ok (bs1, (sn, None, TryStatus)),
           (bootState20Base_loadModeenv bs20 w).2))
  /\ (forall (parse' : SnapFileNames P) bs1 m,
        (bootState20Base_loadModeenv bs20 w).1 = Ok bs1 ->
        modeenv (bsModeenv bs1) = Some m ->
        BaseStatus m = TryStatus ->
        parse' (Base m) = parse (Base m) ->
        @bootState20Base_revisions P parse' bs20 w
        = @bootState20Base_revisions P parse bs20 w).
Proof.
  split; [|split].
  - intros bs1 cur t st Hrev.
    destruct (bootState20Base_loadModeenv bs20 w) as [r1 w1] eqn:E.
    assert (exists b, r1 = Ok b) as [b ->].
    { revert Hrev. unfold bootState20Base_revisions, bind. rewrite E.
      destruct r1; [by eexists | done..]. }
    destruct (base_loadModeenv_ok bs20 w b) as [m Hm]; [by rewrite E|].
    rewrite (base_revisions_loaded bs20 w b m) in Hrev by (by rewrite ?E).
    cbn in Hrev. exists m.
    destruct (decide (Base m = EmptyString)); [done|].
    destruct (ParsePlaceInfoFromSnapFileName (Base m)) as [err|bootSn]; [done|].
    destruct (decide (BaseStatus m = TryingStatus /\ TryBase m <> EmptyString))
      as [[Hst Htb]|]; [|done].
    destruct (ParsePlaceInfoFromSnapFileName (TryBase m)) as [err|tsn]; [done|].
    injection Hrev as <- <- <- <-. by rewrite Hst.
  - intros bs1 m sn Hload Hm Hst Hb Hp.
    rewrite (base_revisions_loaded bs20 w bs1 m Hload Hm), Hp, Hst.
    destruct (decide (Base m = EmptyString)); [done|].
    destruct (decide (TryStatus = TryingStatus /\ TryBase m <> EmptyString))
      as [[? _]|]; done.
  - intros parse' bs1 m Hload Hm Hst Hp.
    unfold bootState20Base_revisions, bind, ret, fail, deref.
    destruct (bootState20Base_loadModeenv bs20 w) as [[b|e|msg] w1];
      cbn in *; [|done..].
    injection Hload as ->. rewrite Hm. cbn.
    unfold ParsePlaceInfoFromSnapFileName. rewrite Hp, Hst.
    destruct (decide (Base m = EmptyString)); cbn; [done|].
    destruct (parse (Base m)) as [err|sn]; cbn; [done|].
    destruct (decide (TryStatus = TryingStatus /\ TryBase m <> EmptyString))
      as [[? _]|]; done.
Qed.

(** C7, as amended: revisions of the base snap fails when the base of the
    modeenv cannot be decoded, with the decoding error in its message when
    the base is not empty, and fails with the decoding error when the status
    is trying and a non-empty try base cannot be decoded. *)
Theorem base_revisions_parse_errors (bs20 : bootState20Base P) w bs1 m :
  (bootState20Base_loadModeenv bs20 w).1 = Ok bs1 ->
  modeenv (bsModeenv bs1) = Some m ->
  (forall err, ParsePlaceInfoFromSnapFileName (Base m) = inl err ->
               exists e, (bootState20Base_revisions bs20 w).1 = Err e)
  /\ (forall err, Base m <> EmptyString ->
                  ParsePlaceInfoFromSnapFileName (Base m) = inl err ->
                  (bootState20Base_revisions bs20 w).1
                  = Err (Errorf ("cannot get snap revision: modeenv base boot variable is invalid: "
                                 ++ Error err)))
  /\ (forall sn err, Base m <> EmptyString ->
                     ParsePlaceInfoFromSnapFileName (Base m) = inr sn ->
                     BaseStatus m = TryingStatus ->
                     TryBase m <> EmptyString ->
                     ParsePlaceInfoFromSnapFileName (TryBase m) = inl err ->
                     (bootState20Base_revisions bs20 w).1
                     = Err (Errorf ("cannot get snap revision: modeenv try base boot variable is invalid: "
                                    ++ Error err))).
Proof.
  intros Hload Hm. rewrite (base_revisions_loaded bs20 w bs1 m Hload Hm). cbn.
  split; [|split].
  - intros err ->. destruct (decide (Base m = EmptyString)); by eexists.
  - intros err Hb ->. by destruct (decide (Base m = EmptyString)).
  - intros sn err Hb -> Hst Htb ->.
    destruct (decide (Base m = EmptyString)); [done|].
    destruct (decide (BaseStatus m = TryingStatus /\ TryBase m <> EmptyString))
      as [|Hn]; [done|]. by destruct Hn.
Qed.

(** *** A commit that has nothing to do *)

(** Where the commit compares before it flags a change: the combined commit
    of a plan with no kernel marked, whose modeenv has the default base
    status and whose marked base, if any, is the stored base with an empty
    try base, makes no call at all and returns normally with the plan as it
    was. *)
Theorem markSuccessful_commit_default_no_write
    (bsmark : bootState20MarkSuccessful P) m w :
  bootedKernelSnap (msKernel bsmark) = None ->
  modeenv (bsModeenv (msBase bsmark)) = Some m ->
  BaseStatus m = DefaultStatus ->
  (forall sn, bootedBaseSnap (msBase bsmark) = Some sn ->
              Filename sn = Base m /\ TryBase m = EmptyString) ->
  bootState20MarkSuccessful_commit bsmark w = (Ok bsmark, w).
Proof.
  unfold bootState20MarkSuccessful_commit.
  destruct bsmark as [[[om] st bb t] [km bk nk kme]]; cbn.
  intros -> -> Hst Hbase. unfold bind, ret, deref; cbn.
  destruct m as [b0 tb0 st0 ks0]; cbn in *. subst st0.
  destruct (decide (DefaultStatus <> DefaultStatus)); [done|]. cbn.
  destruct bb as [sn|]; cbn; [|done].
  destruct (Hbase sn eq_refl) as [Hf ->]. rewrite Hf.
  destruct (decide (b0 <> b0)); [done|]. cbn.
  destruct (decide (EmptyString <> EmptyString)); done.
Qed.

End run.

(** ** Runs on concrete inputs *)

(** markSuccessful and setNext build the plans and the boot state used
    below. *)
Example markBothSuccessful_default :
  (markBothSuccessful world_default).1 = Ok (UpdateMarkSuccessful plan_default).
Proof. vm_compute. reflexivity. Qed.

Example markBothSuccessful_trying :
  (markBothSuccessful world_trying).1 = Ok (UpdateMarkSuccessful plan_trying).
Proof. vm_compute. reflexivity. Qed.

Example markSuccessful_base_only :
  (bootState20Base_markSuccessful bootState20Base_zero None world_default).1
  = Ok (mkBootState20Base (mkBootState20Modeenv (Some modeenv_default))
                          DefaultStatus None None,
        UpdateMarkSuccessful plan_base_only).
Proof. vm_compute. reflexivity. Qed.

Example setNext_kernel_101 :
  (bootState20Kernel_setNext bootState20Kernel_zero k101 world_default).1
  = Ok (true, kernel_next_101).
Proof. vm_compute. reflexivity. Qed.

(** The scenario of the specification: kernel 101 is staged over kernel 100,
    then marked successful after the boot script set the status to
    trying. *)
Example scenario_setNext_commit :
  let r := (r <- bootState20Kernel_setNext bootState20Kernel_zero k101 ;;
            bootState20Kernel_commit r.2) world_default in
  modeenvFile r.2 = Some modeenv_trying
  /\ index (bootVars r.2) "kernel_status" = TryStatus
  /\ kernelRef r.2 = Some k100
  /\ tryKernelRef r.2 = Some k101.
Proof. vm_compute. repeat split. Qed.

Example scenario_markSuccessful_commit :
  let r := bootState20MarkSuccessful_commit plan_trying world_trying in
  modeenvFile r.2
  = Some (mkModeenv "core20_1.snap" EmptyString DefaultStatus ["pc-kernel_101.snap"])
  /\ index (bootVars r.2) "kernel_status" = DefaultStatus
  /\ kernelRef r.2 = Some k101
  /\ tryKernelRef r.2 = None.
Proof. vm_compute. repeat split. Qed.

Lemma markSuccessful_commit_order_witness :
  exists evs m,
    logged world_trying
      (bootState20MarkSuccessful_commit plan_trying world_trying).2 evs
    /\ CurrentKernels m = [Filename k101]
    /\ runs_in_order
         (spec_markSuccessful_steps kmut_trying k101 ++ [CModeenvWrite m])
         (bootState20MarkSuccessful_commit plan_trying world_trying).1 evs.
Proof.
  destruct (markSuccessful_commit_order plan_trying kmut_trying k101 world_trying
              eq_refl eq_refl) as (evs & m & Hl & Hm & Hr & _).
  by exists evs, m.
Defined.

(** C5: the code at the failing input.  In [world_default] every status is
    the default and nothing is pending; markSuccessful of the kernel and of
    the base builds [plan_default]; its commit returns normally, and it
    writes the modeenv, with the very content the file already has.  The
    commit says of itself that it writes "if something changed", and its
    base part and the other commits compare before they flag a change; the
    kernel part sets the flag whenever a kernel is marked. *)
Lemma markSuccessful_commit_default_writes :
  BaseStatus modeenv_default = DefaultStatus
  /\ index (bootVars world_default) "kernel_status" = DefaultStatus
  /\ (markBothSuccessful world_default).1 = Ok (UpdateMarkSuccessful plan_default)
  /\ (bootState20MarkSuccessful_commit plan_default world_default).1
     = Ok plan_default
  /\ calls (bootState20MarkSuccessful_commit plan_default world_default).2
     = [(CDisableTryKernel, None); (CModeenvWrite modeenv_default, None)]
  /\ modeenvFile world_default = Some modeenv_default
  /\ modeenvFile (bootState20MarkSuccessful_commit plan_default world_default).2
     = modeenvFile world_default
  /\ ~ Forall (fun ev => isModeenvWrite ev.1 = false)
        (calls (bootState20MarkSuccessful_commit plan_default world_default).2).
Proof.
  repeat split; try (vm_compute; reflexivity).
  intros Hall. vm_compute in Hall.
  apply Forall_cons in Hall as [_ Hall]. apply Forall_cons in Hall as [Hw _].
  discriminate Hw.
Qed.

(** C7, counterexample: with base status try, a try base that does not
    decode is not reported: revisions returns normally, without a try
    snap. *)
Lemma base_revisions_ignores_try_base :
  ParsePlaceInfoFromSnapFileName (P:=Info) (TryBase modeenv_try_undecodable)
  = inl (Errorf "snap file name has invalid format (missing '_')")
  /\ (bootState20Base_revisions bootState20Base_zero world_try_undecodable).1
     = Ok (mkBootState20Base
             (mkBootState20Modeenv (Some modeenv_try_undecodable))
             TryStatus None None,
           (core20_1, None, TryStatus))
  /\ ~ exists e,
        (bootState20Base_revisions bootState20Base_zero world_try_undecodable).1
        = Err e.
Proof.
  repeat split; try (vm_compute; reflexivity).
  intros [e He]. vm_compute in He. discriminate He.
Qed.

Lemma kernel_commit_order_witness :
  exists evs,
    logged world_default (bootState20Kernel_commit kernel_next_101 world_default).2 evs
    /\ runs_in_order
         (spec_setNext_steps modeenv_default
            (mkKmerki DefaultStatus TryStatus k100) k101)
         (bootState20Kernel_commit kernel_next_101 world_default).1 evs.
Proof.
  apply (kernel_commit_order kernel_next_101
           (mkKmerki DefaultStatus TryStatus k100) k101 modeenv_default
           world_default eq_refl eq_refl eq_refl eq_refl).
  vm_compute. discriminate.
Defined.

Lemma setNext_decision_witness :
  exists ks2,
    (bootState20Kernel_setNext bootState20Kernel_zero k101 world_default).1
    = Ok (true, ks2)
    /\ nextKernelSnap ks2 = Some k101.
Proof.
  destruct (proj1 (setNext_decision (P:=Info) k101)
              bootState20Kernel_zero world_default
              (mkBootState20Modeenv (Some modeenv_default))
              (mkBootState20Kernel (Some kmut_default) None None
                 (mkBootState20Modeenv (Some modeenv_default)))
              k100 None DefaultStatus eq_refl eq_refl)
    as (reboot & ks2 & k & Heq & _ & Hnext & _ & _ & Hdiff).
  destruct Hdiff as [-> _].
  - vm_compute. intros [_ [=]].
  - exists ks2. rewrite Heq. split; [reflexivity | exact Hnext].
Defined.

Lemma selectSuccessfulBootSnap_choice_witness :
  exists bsmark,
    (selectSuccessfulBootSnap bootState20Base_zero None world_base_trying).1
    = Ok (mkBootState20Base (mkBootState20Modeenv (Some modeenv_base_trying))
                            TryingStatus None None,
          bsmark, core20_2).
Proof.
  destruct (selectSuccessfulBootSnap_choice (P:=Info)
              (impl:=bootState20Base_bootState)
              bootState20Base_zero None world_base_trying
              (mkBootState20Base (mkBootState20Modeenv (Some modeenv_base_trying))
                                 TryingStatus None None)
              core20_1 (Some core20_2) TryingStatus)
    as (bsmark & sn & Heq & Htry & _).
  - vm_compute. reflexivity.
  - intros u [=].
  - exists bsmark. rewrite Heq. cbn. by rewrite (Htry core20_2 eq_refl eq_refl).
Defined.

Lemma markSuccessful_commit_default_no_write_witness :
  bootState20MarkSuccessful_commit plan_base_only world_default
  = (Ok plan_base_only, world_default).
Proof.
  apply (markSuccessful_commit_default_no_write plan_base_only modeenv_default
           world_default eq_refl eq_refl eq_refl).
  intros sn [= <-]. split; reflexivity.
Defined.

Lemma base_revisions_parse_errors_witness :
  (bootState20Base_revisions bootState20Base_zero world_trying_undecodable).1
  = Err (Errorf ("cannot get snap revision: modeenv try base boot variable is invalid: "
                 ++ "snap file name has invalid format (missing '_')")).
Proof.
  apply (proj2 (proj2 (base_revisions_parse_errors (P:=Info)
           bootState20Base_zero world_trying_undecodable
           (mkBootState20Base
              (mkBootState20Modeenv (Some modeenv_trying_undecodable))
              TryingStatus None None)
           modeenv_trying_undecodable eq_refl eq_refl)) core20_1
           (Errorf "snap file name has invalid format (missing '_')"));
    [discriminate | reflexivity | reflexivity | discriminate | reflexivity].
Defined.

Lemma markSuccessful_commit_bootloader_failure_witness :
  (bootState20MarkSuccessful_commit plan_trying world_trying_faulty).1
  = Err (Errorf "cannot remove try-kernel.efi")
  /\ modeenvFile (bootState20MarkSuccessful_commit plan_trying world_trying_faulty).2
     = Some modeenv_trying.
Proof.
  destruct (markSuccessful_commit_bootloader_failure (P:=Info)
              plan_trying world_trying_faulty
              [(CSetBootVars {[ "kernel_status" := DefaultStatus ]}, None);
               (CEnableKernel k101, None);
               (CDisableTryKernel, Some (Errorf "cannot remove try-kernel.efi"))]
              CDisableTryKernel (Errorf "cannot remove try-kernel.efi"))
    as (Hr & Hf & _ & _).
  - split; reflexivity.
  - apply list_elem_of_In. right. right. left. reflexivity.
  - reflexivity.
  - split; [exact Hr | exact Hf].
Defined.

Lemma currentKernels_never_empty_witness :
  exists m',
    modeenvFile (bootState20MarkSuccessful_commit plan_trying world_trying).2 = Some m'
    /\ CurrentKernels m' = ["pc-kernel_101.snap"].
Proof.
  destruct (proj1 (proj2 (currentKernels_never_empty (P:=Info)))
              plan_trying k101 world_trying
              (mkBootState20MarkSuccessful
                 (mkBootState20Base
                    (mkBootState20Modeenv
                       (Some (spec_markSuccessful_modeenv (Some k101)
                                (Some core20_1) modeenv_trying)))
                    DefaultStatus (Some core20_1) None)
                 (msKernel plan_trying)))
    as (m' & Hfile & _ & Hks).
  - reflexivity.
  - vm_compute. reflexivity.
  - exists m'. split; [exact Hfile | exact Hks].
Defined.

Lemma base_revisions_try_candidate_witness :
  bootState20Base_revisions bootState20Base_zero world_try_undecodable
  = (Ok (mkBootState20Base
           (mkBootState20Modeenv (Some modeenv_try_undecodable))
           TryStatus None None,
         (core20_1, None, TryStatus)),
     (bootState20Base_loadModeenv bootState20Base_zero world_try_undecodable).2).
Proof.
  apply (proj1 (proj2 (base_revisions_try_candidate (P:=Info)
           bootState20Base_zero world_try_undecodable))
           (mkBootState20Base
              (mkBootState20Modeenv (Some modeenv_try_undecodable))
              TryStatus None None)
           modeenv_try_undecodable core20_1);
    [reflexivity | reflexivity | reflexivity | discriminate | reflexivity].
Defined.

(** ** More of the code: loading, staging and confirming as a whole *)

Section more.
Context {P : Type} {info : PlaceInfo P} {parse : SnapFileNames P}.

Implicit Types (w : World P) (evs : list (event P)).

(** *** Runs in a world without faults *)

Lemma bind_ok {A B} (c : M P A) (k : A -> M P B) w a w' :
  c w = (Ok a, w') -> bind c k w = k a w'.
Proof. unfold bind. by intros ->. Qed.

Lemma invoke_faultless c effect w :
  faultless w -> invoke c effect w = (Ok (), record (c, None) (effect w)).
Proof. intros Hnf. unfold invoke. by rewrite Hnf. Qed.

Lemma query_faultless {A} c (read : World P -> error + A) w a :
  faultless w -> read w = inr a -> query c read w = (Ok a, record (c, None) w).
Proof. intros Hnf Hr. unfold query. by rewrite Hnf, Hr. Qed.

Lemma index_GetBootVars (vars : gmap string string) k :
  index (<[k:=default EmptyString (vars !! k)]> ∅) k = index vars k.
Proof. unfold index. by rewrite lookup_insert_eq. Qed.

(** The boot state objects of a faultless world *)

Lemma base_loadModeenv_faultless (bs : bootState20Base P) w m :
  faultless w -> modeenvFile w = Some m -> modeenv (bsModeenv bs) = None ->
  bootState20Base_loadModeenv bs w
  = (Ok (mkBootState20Base (mkBootState20Modeenv (Some m)) (BaseStatus m)
                           (bootedBaseSnap bs) (tryBaseSnap bs)),
     record (CReadModeenv, None) w).
Proof.
  intros Hnf Hfile Hbs. unfold bootState20Base_loadModeenv. rewrite Hbs.
  unfold bind, catch, ReadModeenv.
  rewrite (query_faultless _ _ w m Hnf) by by rewrite Hfile. done.
Qed.

Lemma kmerki_load_faultless w cur :
  faultless w -> blExtractedRunKernelImage w = true -> kernelRef w = Some cur ->
  kmerki_load w
  = (Ok (mkKmerki (index (bootVars w) "kernel_status")
                  (index (bootVars w) "kernel_status") cur), loaded w).
Proof.
  intros Hnf Hbl Hk. unfold kmerki_load, bootloader_Find, ebl_GetBootVars,
    ebl_Kernel.
  erewrite bind_ok by (by apply query_faultless). cbn. rewrite Hbl. cbn.
  erewrite bind_ok by (by apply query_faultless).
  unfold bind at 1, catch.
  erewrite query_faultless; [| done | cbn; by rewrite Hk]. cbn.
  by rewrite index_GetBootVars.
Qed.

Lemma kernel_revisions_faultless (ks : bootState20Kernel P) w cur :
  faultless w -> blExtractedRunKernelImage w = true -> kernelRef w = Some cur ->
  bootState20Kernel_revisions ks w
  = (Ok (mkBootState20Kernel
           (Some (mkKmerki (index (bootVars w) "kernel_status")
                           (index (bootVars w) "kernel_status") cur))
           (bootedKernelSnap ks) (nextKernelSnap ks) (kModeenv ks),
         (cur, tryKernelRef w, index (bootVars w) "kernel_status")),
     record (CTryKernel,
             match tryKernelRef w with
             | Some _ => None
             | None => Some ErrNoTryKernelRef
             end) (loaded w)).
Proof.
  intros Hnf Hbl Hk.
  unfold bootState20Kernel_revisions, bootState20Kernel_loadBootenv.
  unfold bind at 1. unfold bind at 1.
  rewrite (kmerki_load_faultless w cur Hnf Hbl Hk). cbn.
  unfold bind, catch, kmerki_tryKernel, ebl_TryKernel, query. cbn.
  rewrite Hnf. by destruct (tryKernelRef w) as [t|].
Qed.

Lemma base_commit_run (bs : bootState20Base P) m w :
  modeenv (bsModeenv bs) = Some m ->
  let m' := mkModeenv (Base m)
              (match tryBaseSnap bs with
               | Some t => Filename t
               | None => TryBase m
               end)
              (commitBaseStatus bs) (CurrentKernels m) in
  let bs' := mkBootState20Base (mkBootState20Modeenv (Some m'))
               (commitBaseStatus bs) (bootedBaseSnap bs) (tryBaseSnap bs) in
  bootState20Base_commit bs w
  = if decide (m' = m) then (Ok bs', w) else (Modeenv_Write m' ;;; ret bs') w.
Proof.
  unfold bootState20Base_commit.
  destruct bs as [[om] st bb t]; cbn. intros ->.
  destruct m as [b0 tb0 st0 ks0]; unfold bind, ret, deref; cbn.
  destruct t as [t|]; cbn; decisions; stable; simplify_eq/=; done.
Qed.

Lemma markSuccessful_commit_base_run (plan : bootState20MarkSuccessful P) m w :
  bootedKernelSnap (msKernel plan) = None ->
  modeenv (bsModeenv (msBase plan)) = Some m ->
  let bs := msBase plan in
  let m' := spec_markSuccessful_modeenv None (bootedBaseSnap bs) m in
  let plan' := mkBootState20MarkSuccessful
                 (mkBootState20Base (mkBootState20Modeenv (Some m'))
                    (commitBaseStatus bs) (bootedBaseSnap bs) (tryBaseSnap bs))
                 (msKernel plan) in
  bootState20MarkSuccessful_commit plan w
  = if decide (m' = m) then (Ok plan', w)
    else (Modeenv_Write m' ;;; ret plan') w.
Proof.
  unfold bootState20MarkSuccessful_commit, spec_markSuccessful_modeenv.
  destruct plan as [[[om] st bb t] [km bk nk kme]]; cbn. intros -> ->.
  destruct m as [b0 tb0 st0 ks0]; unfold bind, ret, deref; cbn.
  destruct bb as [sn|]; cbn; decisions; try absurd_case; stable; simplify_eq/=;
    done.
Qed.

Lemma Modeenv_Write_faultless m w :
  faultless w ->
  Modeenv_Write m w = (Ok (), record (CModeenvWrite m, None) (put_modeenvFile m w)).
Proof. intros Hnf. by apply invoke_faultless. Qed.

Lemma base_revisions_faultless (bs : bootState20Base P) w m cur :
  faultless w -> modeenvFile w = Some m -> modeenv (bsModeenv bs) = None ->
  Base m <> EmptyString -> parse (Base m) = inr cur ->
  let bs1 := mkBootState20Base (mkBootState20Modeenv (Some m)) (BaseStatus m)
               (bootedBaseSnap bs) (tryBaseSnap bs) in
  (BaseStatus m <> TryingStatus ->
   bootState20Base_revisions bs w
   = (Ok (bs1, (cur, None, BaseStatus m)), record (CReadModeenv, None) w))
  /\ (forall t, BaseStatus m = TryingStatus -> TryBase m <> EmptyString ->
                parse (TryBase m) = inr t ->
                bootState20Base_revisions bs w
                = (Ok (bs1, (cur, Some t, BaseStatus m)),
                   record (CReadModeenv, None) w)).
Proof.
  intros Hnf Hfile Hbs Hb Hcur bs1.
  pose proof (base_loadModeenv_faultless bs w m Hnf Hfile Hbs) as Hload.
  assert (Hrev := base_revisions_loaded bs w bs1 m).
  rewrite Hload in Hrev. specialize (Hrev eq_refl eq_refl).
  rewrite Hrev. unfold ParsePlaceInfoFromSnapFileName. rewrite Hcur.
  destruct (decide (Base m = EmptyString)); [done|]. split.
  - intros Hst.
    destruct (decide (BaseStatus m = TryingStatus /\ TryBase m <> EmptyString))
      as [[? _]|]; done.
  - intros t Hst Htb Ht. rewrite Ht.
    destruct (decide (BaseStatus m = TryingStatus /\ TryBase m <> EmptyString))
      as [|Hn]; [done|]. by destruct Hn.
Qed.

Lemma stageBase_faultless w m cur next :
  faultless w -> modeenvFile w = Some m ->
  BaseStatus m = DefaultStatus ->
  Base m <> EmptyString -> parse (Base m) = inr cur ->
  ~ spec_sameArtifact cur next ->
  let m1 := mkModeenv (Base m) (Filename next) TryStatus (CurrentKernels m) in
  stageBase next w
  = (Ok (true, UpdateBase (mkBootState20Base (mkBootState20Modeenv (Some m1))
                             TryStatus None (Some next))),
     record (CModeenvWrite m1, None)
       (put_modeenvFile m1 (record (CReadModeenv, None) w))).
Proof.
  intros Hnf Hfile Hst Hb Hcur Hsame m1.
  destruct (base_revisions_faultless bootState20Base_zero w m cur
              Hnf Hfile eq_refl Hb Hcur) as [Hrev _].
  specialize (Hrev ltac:(by rewrite Hst)).
  assert (Hg : genericSetNext bootState20Base_zero next w
               = (Ok (mkBootState20Base (mkBootState20Modeenv (Some m))
                        (BaseStatus m) None None, TryStatus),
                  record (CReadModeenv, None) w)).
  { erewrite (genericSetNext_run (impl:=bootState20Base_bootState));
      unfold revisions, bootState20Base_bootState; rewrite Hrev; [|reflexivity].
    cbn. by destruct (decide (spec_sameArtifact cur next)). }
  unfold stageBase, bootState20Base_setNext.
  unfold bind at 1. unfold bind at 1. rewrite Hg.
  cbv beta iota. rewrite bool_decide_true, decide_True by done.
  unfold ret at 1. cbv beta iota. unfold bootStateUpdate_commit.
  unfold bind at 1. unfold bind at 1. cbn [snd fst].
  rewrite (base_commit_run _ m) by done. cbn.
  rewrite decide_False.
  2:{ destruct m; cbn in *. subst. by intros [=]. }
  unfold bind. rewrite Modeenv_Write_faultless by done. by unfold ret; cbn.
Qed.

Lemma markBaseSuccessful_faultless w m cur t :
  faultless w -> modeenvFile w = Some m ->
  BaseStatus m = TryingStatus ->
  Base m <> EmptyString -> parse (Base m) = inr cur ->
  TryBase m <> EmptyString -> parse (TryBase m) = inr t ->
  let m2 := mkModeenv (Filename t) EmptyString DefaultStatus (CurrentKernels m) in
  exists u,
    markBaseSuccessful w
    = (Ok u, record (CModeenvWrite m2, None)
               (put_modeenvFile m2 (record (CReadModeenv, None) w))).
Proof.
  intros Hnf Hfile Hst Hb Hcur Htb Ht m2.
  destruct (base_revisions_faultless bootState20Base_zero w m cur
              Hnf Hfile eq_refl Hb Hcur) as [_ Hrev].
  specialize (Hrev t Hst Htb Ht).
  unfold markBaseSuccessful, bootState20Base_markSuccessful,
    selectSuccessfulBootSnap.
  unfold revisions, bootState20Base_bootState.
  unfold bind at 1. unfold bind at 1. unfold bind at 1. rewrite Hrev.
  cbv beta iota. unfold bind at 1, ret at 1. cbv beta iota.
  rewrite Hst. rewrite decide_True by done. unfold ret at 1. cbv beta iota.
  unfold ret at 1. cbv beta iota. cbn [snd]. unfold bootStateUpdate_commit.
  unfold bind at 1.
  rewrite (markSuccessful_commit_base_run _ m) by done. cbn.
  rewrite decide_False.
  2:{ unfold spec_markSuccessful_modeenv. destruct m; cbn in *. subst.
      by intros [=]. }
  unfold bind. rewrite Modeenv_Write_faultless by done. unfold ret; cbn.
  unfold spec_markSuccessful_modeenv. cbn.
  rewrite decide_True by (right; by eexists). by eexists.
Qed.

(** X10: updating the base, as a whole.  In a world without faults, with
    nothing pending and a modeenv whose base decodes, setNext of a different
    base followed by commit asks for a reboot and leaves the modeenv with
    the old base, the new one as try base and status try.  When the boot
    script then moves the status to trying, markSuccessful followed by commit
    makes the new base the base, empties the try base and resets the status,
    and the kernels of the modeenv and the bootloader state are as they were
    at the start. *)
Theorem base_update_round_trip w m cur next t :
  faultless w ->
  modeenvFile w = Some m ->
  BaseStatus m = DefaultStatus ->
  Base m <> EmptyString ->
  parse (Base m) = inr cur ->
  ~ spec_sameArtifact cur next ->
  Filename next <> EmptyString ->
  parse (Filename next) = inr t ->
  Filename t = Filename next ->
  let w1 := (stageBase next w).2 in
  let w2 := (markBaseSuccessful (bootScript_base w1)).2 in
  (exists u, (stageBase next w).1 = Ok (true, u))
  /\ modeenvFile w1
     = Some (mkModeenv (Base m) (Filename next) TryStatus (CurrentKernels m))
  /\ (exists u, (markBaseSuccessful (bootScript_base w1)).1 = Ok u)
  /\ modeenvFile w2
     = Some (mkModeenv (Filename next) EmptyString DefaultStatus
                       (CurrentKernels m))
  /\ bootVars w2 = bootVars w /\ kernelRef w2 = kernelRef w
  /\ tryKernelRef w2 = tryKernelRef w.
Proof.
  intros Hnf Hfile Hst Hb Hcur Hsame Hfn Ht Hft w1 w2.
  pose proof (stageBase_faultless w m cur next Hnf Hfile Hst Hb Hcur Hsame)
    as Hs1. cbv zeta in Hs1.
  subst w2 w1. rewrite Hs1. cbn [fst snd].
  split; [by eexists|]. split; [done|].
  set (m1 := mkModeenv (Base m) (Filename next) TryStatus (CurrentKernels m)).
  set (w1 := record _ _).
  assert (Hs : bootScript_base w1
               = put_modeenvFile (set_BaseStatus TryingStatus m1) w1) by done.
  rewrite Hs.
  destruct (markBaseSuccessful_faultless
              (put_modeenvFile (set_BaseStatus TryingStatus m1) w1)
              (set_BaseStatus TryingStatus m1) cur t)
    as [u Hs2]; try done.
  rewrite Hs2. cbn. split; [by eexists|]. by rewrite Hft.
Qed.

Lemma loadModeenv_faultless w m :
  faultless w -> modeenvFile w = Some m ->
  bootState20Modeenv_loadModeenv (P:=P) (mkBootState20Modeenv None) w
  = (Ok (mkBootState20Modeenv (Some m)), record (CReadModeenv, None) w).
Proof.
  intros Hnf Hfile. unfold bootState20Modeenv_loadModeenv. cbn.
  unfold bind, catch, ReadModeenv.
  rewrite (query_faultless _ _ w m Hnf) by by rewrite Hfile. done.
Qed.

Lemma kernel_commit_faultless (ks : bootState20Kernel P) k next m w :
  faultless w ->
  kmut ks = Some k -> nextKernelSnap ks = Some next ->
  modeenv (kModeenv ks) = Some m ->
  commitKernelStatus k = TryStatus -> currentKernelStatus k <> TryStatus ->
  Filename next <> Filename (currentKernel k) ->
  let m1 := set_CurrentKernels (CurrentKernels m ++ [Filename next]) m in
  exists ks', bootState20Kernel_commit ks w = (Ok ks', staged m1 next w).
Proof.
  intros Hnf Hk Hn Hm Hc Hcur Hf m1.
  unfold bootState20Kernel_commit, kmerki_setNextKernel, kmerki_kernel, staged.
  rewrite Hk, Hn, Hm. unfold_calls. cbn. rewrite Hc.
  rewrite !decide_True by done. cbn. rewrite Hnf. cbn. rewrite Hnf. cbn.
  rewrite Hnf. cbn. by eexists.
Qed.

Lemma kmerki_markSuccessful_faultless k next w :
  faultless w ->
  commitKernelStatus k <> DefaultStatus ->
  Filename (currentKernel k) <> Filename next ->
  kmerki_markSuccessful k next w = (Ok (), confirmed next w).
Proof.
  intros Hnf Hc Hf. unfold kmerki_markSuccessful, confirmed.
  rewrite !decide_True by done. unfold_calls. cbn.
  rewrite Hnf. cbn. rewrite Hnf. cbn. by rewrite Hnf.
Qed.

Lemma stageKernel_faultless w m cur next :
  faultless w -> blExtractedRunKernelImage w = true ->
  kernelRef w = Some cur -> modeenvFile w = Some m ->
  index (bootVars w) "kernel_status" = DefaultStatus ->
  ~ spec_sameArtifact cur next ->
  Filename next <> Filename cur ->
  let m1 := set_CurrentKernels (CurrentKernels m ++ [Filename next]) m in
  exists u w0,
    stageKernel next w = (Ok (true, u), staged m1 next w0)
    /\ same_persisted w w0 /\ faultless w0
    /\ blExtractedRunKernelImage w0 = true.
Proof.
  intros Hnf Hbl Hk Hfile Hst Hsame Hf m1.
  set (w' := record (CReadModeenv, None) w).
  set (ks' := mkBootState20Kernel (P:=P) None None None
                (mkBootState20Modeenv (Some m))).
  pose proof (kernel_revisions_faultless ks' w' cur Hnf Hbl Hk) as Hrev.
  cbn [bootVars record w'] in Hrev. rewrite Hst in Hrev.
  set (w0 := record _ (loaded w')) in Hrev.
  assert (Hg : genericSetNext ks' next w'
               = (Ok (mkBootState20Kernel
                        (Some (mkKmerki DefaultStatus DefaultStatus cur))
                        None None (mkBootState20Modeenv (Some m)), TryStatus),
                  w0)).
  { erewrite (genericSetNext_run (impl:=bootState20Kernel_bootState));
      unfold revisions, bootState20Kernel_bootState; rewrite Hrev; [|reflexivity].
    cbn. by destruct (decide (spec_sameArtifact cur next)). }
  unfold stageKernel, bootState20Kernel_setNext.
  unfold bind at 1. unfold bind at 1.
  change (kModeenv bootState20Kernel_zero) with (mkBootState20Modeenv None).
  rewrite (loadModeenv_faultless w m Hnf Hfile). cbv beta iota.
  fold w'. change (mkBootState20Kernel (kmut bootState20Kernel_zero) _ _ _)
    with ks'.
  unfold bind at 1. rewrite Hg. cbv beta iota.
  rewrite bool_decide_true by done. unfold deref, bind at 1, ret at 1.
  cbv beta iota. cbn [kmut]. unfold ret at 1. cbv beta iota.
  unfold ret at 1. cbv beta iota. cbn [fst snd]. unfold bootStateUpdate_commit.
  unfold bind at 1. unfold bind at 1.
  edestruct (kernel_commit_faultless
               (mkBootState20Kernel
                  (Some (kmerki_setCommitStatus TryStatus
                           (mkKmerki DefaultStatus DefaultStatus cur)))
                  None (Some next) (mkBootState20Modeenv (Some m)))
               (mkKmerki DefaultStatus TryStatus cur) next m w0)
    as [ks2 Hcommit];
    [exact Hnf | reflexivity | reflexivity | reflexivity | reflexivity
    | by cbn | by cbn |].
  cbn in Hcommit |- *. rewrite Hcommit. unfold ret. cbn.
  eexists _, w0. split; [reflexivity|]. by repeat split.
Qed.

Lemma markBootSuccessful_faultless w m cur next b :
  faultless w -> blExtractedRunKernelImage w = true ->
  kernelRef w = Some cur -> tryKernelRef w = Some next ->
  index (bootVars w) "kernel_status" = TryingStatus ->
  modeenvFile w = Some m -> BaseStatus m = DefaultStatus ->
  Base m <> EmptyString -> parse (Base m) = inr b ->
  Filename cur <> Filename next ->
  let m' := spec_markSuccessful_modeenv (Some next) (Some b) m in
  exists u w0,
    markBootSuccessful w
    = (Ok u, record (CModeenvWrite m', None)
               (put_modeenvFile m' (confirmed next w0)))
    /\ same_persisted w w0.
Proof.
  intros Hnf Hbl Hk Ht Hst Hfile Hbst Hb Hp Hf m'.
  pose proof (kernel_revisions_faultless bootState20Kernel_zero w cur
                Hnf Hbl Hk) as Hrev.
  rewrite Hst, Ht in Hrev. set (wA := record _ (loaded w)) in Hrev.
  destruct (base_revisions_faultless bootState20Base_zero wA m b)
    as [Hrevb _]; [exact Hnf | exact Hfile | reflexivity | exact Hb | exact Hp |].
  specialize (Hrevb ltac:(by rewrite Hbst)).
  set (wB := record (CReadModeenv, None) wA) in Hrevb.
  unfold markBootSuccessful, bootState20Kernel_markSuccessful,
    bootState20Base_markSuccessful, selectSuccessfulBootSnap.
  unfold revisions at 1, bootState20Kernel_bootState.
  unfold bind at 1. unfold bind at 1. unfold bind at 1. rewrite Hrev.
  cbv beta iota. unfold bind at 1, ret at 1. cbv beta iota.
  rewrite decide_True by done. unfold ret at 1. cbv beta iota.
  unfold ret at 1. cbv beta iota. cbn [snd].
  unfold revisions, bootState20Base_bootState.
  unfold bind at 1. unfold bind at 1. unfold bind at 1. rewrite Hrevb.
  cbv beta iota. unfold bind at 1, ret at 1. cbv beta iota.
  rewrite Hbst. rewrite decide_False by done. unfold ret at 1. cbv beta iota.
  unfold ret at 1. cbv beta iota. cbn [snd]. unfold bootStateUpdate_commit.
  unfold bind at 1.
  match goal with
  | |- context [bootState20MarkSuccessful_commit ?plan wB] =>
      let p := eval cbn in plan in
      change plan with p;
      pose proof (markSuccessful_commit_kernel p
                    (mkKmerki TryingStatus TryingStatus cur) next wB
                    eq_refl eq_refl) as Hc
  end.
  cbn [modeenv bsModeenv msBase msKernel bootedBaseSnap commitBaseStatus
       tryBaseSnap] in Hc.
  cbv zeta in Hc. rewrite Hc. unfold bind at 1.
  rewrite kmerki_markSuccessful_faultless; [| exact Hnf | by cbn | by cbn].
  unfold bind at 1. rewrite Modeenv_Write_faultless by exact Hnf.
  unfold ret. cbn. eexists _, wB. split; [reflexivity|]. by repeat split.
Qed.

(** X11: updating the kernel, as a whole.  In a world without faults, with
    nothing pending, setNext of a different kernel followed by commit asks
    for a reboot, appends the new kernel to the kernels of the modeenv, sets
    kernel_status to try and makes the new kernel the try kernel, the current
    one staying the default.  When the boot script then moves the status to
    trying, markSuccessful of the kernel and of the base followed by commit
    leaves the new kernel as the only kernel of the modeenv and as the
    default kernel, with kernel_status reset and no try kernel. *)
Theorem kernel_update_round_trip w m cur next b :
  faultless w -> blExtractedRunKernelImage w = true ->
  kernelRef w = Some cur ->
  index (bootVars w) "kernel_status" = DefaultStatus ->
  modeenvFile w = Some m ->
  BaseStatus m = DefaultStatus -> Base m <> EmptyString ->
  parse (Base m) = inr b ->
  ~ spec_sameArtifact cur next ->
  Filename next <> Filename cur ->
  let w1 := (stageKernel next w).2 in
  let w2 := (markBootSuccessful (bootScript_kernel w1)).2 in
  (exists u, (stageKernel next w).1 = Ok (true, u))
  /\ (exists m1, modeenvFile w1 = Some m1
                 /\ CurrentKernels m1 = CurrentKernels m ++ [Filename next])
  /\ index (bootVars w1) "kernel_status" = TryStatus
  /\ kernelRef w1 = Some cur /\ tryKernelRef w1 = Some next
  /\ (exists u, (markBootSuccessful (bootScript_kernel w1)).1 = Ok u)
  /\ (exists m2, modeenvFile w2 = Some m2
                 /\ CurrentKernels m2 = [Filename next])
  /\ index (bootVars w2) "kernel_status" = DefaultStatus
  /\ kernelRef w2 = Some next /\ tryKernelRef w2 = None.
Proof.
  intros Hnf Hbl Hk Hst Hfile Hbst Hb Hp Hsame Hf w1 w2.
  destruct (stageKernel_faultless w m cur next Hnf Hbl Hk Hfile Hst Hsame Hf)
    as (u1 & w0 & Hs1 & (Hfile0 & Hv0 & Hk0 & Ht0) & Hnf0 & Hbl0).
  subst w2 w1. rewrite Hs1. cbn [fst snd].
  split; [by eexists|].
  split; [by eexists|].
  split; [unfold staged; cbn [bootVars record put_bootVars];
          apply index_put_bootVars|].
  split; [by cbn; rewrite Hk0|]. split; [done|].
  set (m1 := set_CurrentKernels _ m). set (w1 := staged m1 next w0).
  assert (Hs : bootScript_kernel w1
               = put_bootVars {[ "kernel_status" := TryingStatus ]} w1).
  { unfold bootScript_kernel. rewrite decide_True; [done|].
    unfold w1, staged. cbn [bootVars record put_bootVars].
    apply index_put_bootVars. }
  rewrite Hs.
  edestruct (markBootSuccessful_faultless
               (put_bootVars {[ "kernel_status" := TryingStatus ]} w1)
               m1 cur next b) as (u2 & wB & Hs2 & (HfB & HvB & HkB & HtB));
    [exact Hnf0 | exact Hbl0 | by cbn; rewrite Hk0 | reflexivity
    | cbn [bootVars put_bootVars]; apply index_put_bootVars
    | reflexivity | exact Hbst | exact Hb | exact Hp | by intros ? |].
  rewrite Hs2. cbn [fst snd].
  split; [by eexists|]. split; [by eexists|].
  split; [|done].
  unfold confirmed. cbn [bootVars record put_bootVars put_modeenvFile
                           put_kernelRef put_tryKernelRef].
  apply index_put_bootVars.
Qed.

(** *** Loading the modeenv and the bootloader state *)

(** X1: the modeenv is read at most once per boot state object.  After a
    load that returned nil, for the modeenv part alone as for the base, a
    second load on the returned object makes no call in any world and
    returns the same object. *)
Theorem loadModeenv_once :
  (forall bsm w bsm1 w',
      (bootState20Modeenv_loadModeenv (P:=P) bsm w).1 = Ok bsm1 ->
      bootState20Modeenv_loadModeenv bsm1 w' = (Ok bsm1, w'))
  /\ (forall (bs : bootState20Base P) w bs1 w',
        (bootState20Base_loadModeenv bs w).1 = Ok bs1 ->
        bootState20Base_loadModeenv bs1 w' = (Ok bs1, w')).
Proof.
  split.
  - intros bsm w bsm1 w'. unfold bootState20Modeenv_loadModeenv.
    destruct (modeenv bsm) as [m|] eqn:E; cbn.
    + intros [= <-]. by rewrite E.
    + unfold bind, catch, ret, fail.
      destruct (ReadModeenv w) as [[m|e|msg] w1]; cbn; [|done..].
      by intros [= <-].
  - intros bs w bs1 w'. unfold bootState20Base_loadModeenv.
    destruct (modeenv (bsModeenv bs)) as [m|] eqn:E; cbn.
    + intros [= <-]. by rewrite E.
    + unfold bind, catch, ret, fail.
      destruct (ReadModeenv w) as [[m|e|msg] w1]; cbn; [|done..].
      by intros [= <-].
Qed.

(** X2: when the modeenv is not loaded yet and reading it fails with [err],
    revisions, setNext and markSuccessful of the base and setNext of the
    kernel all return the error
    "cannot get snap revision: unable to read modeenv: <err>", having made the
    one attempt to read and nothing else. *)
Theorem modeenv_read_failure
    (bs : bootState20Base P) (ks : bootState20Kernel P) next update w err :
  modeenv (bsModeenv bs) = None ->
  modeenv (kModeenv ks) = None ->
  (ReadModeenv w).1 = Err err ->
  let e := Errorf ("cannot get snap revision: unable to read modeenv: "
                   ++ Error err) in
  let w1 := (ReadModeenv w).2 in
  bootState20Base_revisions bs w = (Err e, w1)
  /\ bootState20Base_setNext bs next w = (Err e, w1)
  /\ bootState20Base_markSuccessful bs update w = (Err e, w1)
  /\ bootState20Kernel_setNext ks next w = (Err e, w1).
Proof.
  intros Hb Hk Hr e w1. subst e w1.
  unfold bootState20Base_setNext, bootState20Base_markSuccessful,
    bootState20Kernel_setNext, genericSetNext, selectSuccessfulBootSnap,
    revisions, bootState20Base_bootState, bootState20Base_revisions,
    bootState20Base_loadModeenv, bootState20Modeenv_loadModeenv.
  rewrite Hb, Hk. unfold bind, catch, fail.
  destruct (ReadModeenv w) as [[m|e|msg] w1]; cbn in *; try done.
  by injection Hr as ->.
Qed.

Lemma quiet_selectSuccessfulBootSnap {B} {impl : @bootState P B} (b : B) update :
  quiet (revisions b) -> quiet (selectSuccessfulBootSnap b update).
Proof.
  intros Hq. unfold selectSuccessfulBootSnap. apply quiet_bind; [done|].
  intros [b' [[cur t] st]]. repeat quiet_step.
Qed.

(** X5: revisions and markSuccessful, for the kernel and for the base, only
    read: whatever they are given and however the calls they make fail, they
    leave the modeenv file, the boot variables and both kernel references as
    they were, and the calls they log are reads.  Everything they decide is
    held in memory until commit. *)
Theorem markSuccessful_mutates_nothing
    (ks : bootState20Kernel P) (bs : bootState20Base P) update :
  quiet (bootState20Kernel_revisions ks)
  /\ quiet (bootState20Base_revisions bs)
  /\ quiet (bootState20Kernel_markSuccessful ks update)
  /\ quiet (bootState20Base_markSuccessful bs update).
Proof.
  split; [apply quiet_kernel_revisions|].
  split; [apply quiet_base_revisions|]. split.
  - unfold bootState20Kernel_markSuccessful.
    apply quiet_bind;
      [apply quiet_selectSuccessfulBootSnap, quiet_kernel_revisions|].
    intros [[ks' u] sn]. repeat quiet_step.
  - unfold bootState20Base_markSuccessful.
    apply quiet_bind;
      [apply quiet_selectSuccessfulBootSnap, quiet_base_revisions|].
    intros [[bs' u] sn]. repeat quiet_step.
Qed.

(** X3: when the bootloader that is found does not support extracted run
    kernel images, loading the kernel state fails with
    "cannot use <name> bootloader: does not support extracted run kernel images"
    after the one call that finds the bootloader, and revisions and
    markSuccessful of the kernel return that same error without any further
    call. *)
Theorem kmerki_load_unsupported_bootloader (ks : bootState20Kernel P) w :
  faults w (calls w) CFind = None ->
  blExtractedRunKernelImage w = false ->
  let e := Errorf ("cannot use " ++ blName w
                   ++ " bootloader: does not support extracted run kernel images") in
  let w1 := record (CFind, None) w in
  kmerki_load w = (Err e, w1)
  /\ bootState20Kernel_revisions ks w = (Err e, w1)
  /\ (forall update, bootState20Kernel_markSuccessful ks update w = (Err e, w1)).
Proof.
  intros Hf Hbl e w1.
  assert (Hload : kmerki_load w = (Err e, w1)).
  { unfold kmerki_load, bootloader_Find, bind, query. rewrite Hf. cbn.
    by rewrite Hbl. }
  split; [done|].
  assert (Hrev : bootState20Kernel_revisions ks w = (Err e, w1)).
  { unfold bootState20Kernel_revisions, bootState20Kernel_loadBootenv.
    unfold bind at 1. unfold bind at 1. by rewrite Hload. }
  split; [done|]. intros update.
  unfold bootState20Kernel_markSuccessful, selectSuccessfulBootSnap,
    revisions, bootState20Kernel_bootState.
  unfold bind at 1. unfold bind at 1. by rewrite Hrev.
Qed.

(** X4: how revisions of the kernel treats the try kernel.  Once the
    kernel state is loaded: a try kernel that the bootloader returns is the
    try snap; the error ErrNoTryKernelRef is not an error of revisions, which
    then returns no try snap; any other error is returned as it is; and when
    the call does not fail the try snap is exactly the try-kernel reference
    of the bootloader. *)
Theorem kernel_revisions_try_kernel (ks : bootState20Kernel P) w k :
  (kmerki_load w).1 = Ok k ->
  let w1 := (kmerki_load w).2 in
  let ks' := mkBootState20Kernel (Some k) (bootedKernelSnap ks)
                                 (nextKernelSnap ks) (kModeenv ks) in
  (forall t, (ebl_TryKernel w1).1 = Ok t ->
             (bootState20Kernel_revisions ks w).1
             = Ok (ks', (currentKernel k, Some t, currentKernelStatus k)))
  /\ ((ebl_TryKernel w1).1 = Err ErrNoTryKernelRef ->
      (bootState20Kernel_revisions ks w).1
      = Ok (ks', (currentKernel k, None, currentKernelStatus k)))
  /\ (forall e, e <> ErrNoTryKernelRef ->
                (ebl_TryKernel w1).1 = Err e ->
                (bootState20Kernel_revisions ks w).1 = Err e)
  /\ (faults w1 (calls w1) CTryKernel = None ->
      (bootState20Kernel_revisions ks w).1
      = Ok (ks', (currentKernel k, tryKernelRef w1, currentKernelStatus k))).
Proof.
  intros Hload w1 ks'. subst w1 ks'.
  unfold bootState20Kernel_revisions, bootState20Kernel_loadBootenv,
    kmerki_tryKernel, kmerki_kernel, kmerki_kernelStatus.
  unfold bind, catch, deref, ret, fail.
  destruct (kmerki_load w) as [r w1]; cbn in Hload |- *. subst r. cbn.
  split; [|split; [|split]].
  - intros t. destruct (ebl_TryKernel w1) as [[?|?|?] ?]; cbn; intros Heq;
      [by inversion Heq | discriminate Heq..].
  - destruct (ebl_TryKernel w1) as [[?|?|?] ?]; cbn; try done.
    intros [= ->].
    destruct (decide (ErrNoTryKernelRef <> ErrNoTryKernelRef)) as [Hne|_];
      [by destruct Hne | by cbn].
  - intros e He. destruct (ebl_TryKernel w1) as [[?|?|?] ?]; cbn; try done.
    intros [= ->]. by destruct (decide (e <> ErrNoTryKernelRef)); cbn.
  - intros Hf. unfold ebl_TryKernel, query. rewrite Hf.
    by destruct (tryKernelRef w1).
Qed.

(** *** Commits that write only what changed *)

(** X9: the commit of the base (after setNext) writes the modeenv exactly
    when the staged status or the staged try base changes it: when the
    modeenv with the commit status and the file name of the try snap is the
    one that was loaded, no call is made, otherwise the only call is the
    write of that modeenv. *)
Theorem base_commit_writes_when_changed (bs : bootState20Base P) m w :
  modeenv (bsModeenv bs) = Some m ->
  let m' := mkModeenv (Base m)
              (match tryBaseSnap bs with
               | Some t => Filename t
               | None => TryBase m
               end)
              (commitBaseStatus bs) (CurrentKernels m) in
  let bs' := mkBootState20Base (mkBootState20Modeenv (Some m'))
               (commitBaseStatus bs) (bootedBaseSnap bs) (tryBaseSnap bs) in
  (m' = m -> bootState20Base_commit bs w = (Ok bs', w))
  /\ (m' <> m ->
      bootState20Base_commit bs w = (Modeenv_Write m' ;;; ret bs') w).
Proof.
  intros Hm m' bs'. rewrite (base_commit_run bs m w Hm). fold m' bs'.
  split; intros H; [by rewrite decide_True | by rewrite decide_False].
Qed.

(** X14: the commit of markSuccessful with no booted kernel staged never
    touches the bootloader: when the modeenv with the status cleaned and the
    booted base as base is the one that was loaded no call is made,
    otherwise the only call is the write of that modeenv. *)
Theorem markSuccessful_commit_base_only (plan : bootState20MarkSuccessful P) m w :
  bootedKernelSnap (msKernel plan) = None ->
  modeenv (bsModeenv (msBase plan)) = Some m ->
  let bs := msBase plan in
  let m' := spec_markSuccessful_modeenv None (bootedBaseSnap bs) m in
  let plan' := mkBootState20MarkSuccessful
                 (mkBootState20Base (mkBootState20Modeenv (Some m'))
                    (commitBaseStatus bs) (bootedBaseSnap bs) (tryBaseSnap bs))
                 (msKernel plan) in
  (m' = m -> bootState20MarkSuccessful_commit plan w = (Ok plan', w))
  /\ (m' <> m ->
      bootState20MarkSuccessful_commit plan w
      = (Modeenv_Write m' ;;; ret plan') w).
Proof.
  intros Hk Hm bs m' plan'.
  rewrite (markSuccessful_commit_base_run plan m w Hk Hm). fold bs m' plan'.
  split; intros H; [by rewrite decide_True | by rewrite decide_False].
Qed.

(** *** What markSuccessful stages *)

(** What a markSuccessful that returned normally has staged. *)
Lemma kernel_markSuccessful_ok (ks : bootState20Kernel P) update w ks' upd :
  (bootState20Kernel_markSuccessful ks update w).1 = Ok (ks', upd) ->
  exists u k sn,
    (update = None /\ u = bootState20MarkSuccessful_zero
     \/ update = Some (UpdateMarkSuccessful u))
    /\ upd = UpdateMarkSuccessful
               (mkBootState20MarkSuccessful (msBase u)
                  (mkBootState20Kernel (Some k) (Some sn)
                     (nextKernelSnap ks) (kModeenv ks))).
Proof.
  unfold bootState20Kernel_markSuccessful, selectSuccessfulBootSnap,
    revisions, bootState20Kernel_bootState.
  pose proof (kernel_revisions_ok ks w) as Hrev.
  unfold bind, ret, fail.
  destruct (bootState20Kernel_revisions ks w)
    as [[[ks1 [[cur t] st]]|e|msg] w1]; cbn; [|done..].
  destruct (Hrev _ _ _ _ eq_refl) as (k & -> & _).
  destruct update as [[?|?|u]|]; cbn; try done;
    destruct (decide (st = TryingStatus)), t; cbn; intros [= <- <-].
  1-4: eexists u, k, _; split; [by right | reflexivity].
  all: eexists bootState20MarkSuccessful_zero, k, _;
    split; [by left | reflexivity].
Qed.

Lemma base_markSuccessful_ok (bs : bootState20Base P) update w bs' upd :
  (bootState20Base_markSuccessful bs update w).1 = Ok (bs', upd) ->
  exists u m sn,
    (update = None /\ u = bootState20MarkSuccessful_zero
     \/ update = Some (UpdateMarkSuccessful u))
    /\ modeenv (bsModeenv bs') = Some m
    /\ upd = UpdateMarkSuccessful
               (mkBootState20MarkSuccessful
                  (mkBootState20Base (bsModeenv bs') (commitBaseStatus bs')
                     (Some sn) (tryBaseSnap bs'))
                  (msKernel u)).
Proof.
  unfold bootState20Base_markSuccessful, selectSuccessfulBootSnap,
    revisions, bootState20Base_bootState.
  pose proof (base_loadModeenv_ok bs w) as Hload.
  unfold bootState20Base_revisions in *. unfold bind, ret, fail, deref in *.
  destruct (bootState20Base_loadModeenv bs w) as [[bs1|e|msg] w1]; cbn; [|done..].
  destruct (Hload _ eq_refl) as [m Hm]. rewrite Hm. cbn.
  destruct (decide (Base m = EmptyString)); cbn; [done|].
  destruct (ParsePlaceInfoFromSnapFileName (Base m)) as [err|bootSn]; cbn; [done|].
  destruct (decide (BaseStatus m = TryingStatus /\ TryBase m <> EmptyString));
    cbn; [destruct (ParsePlaceInfoFromSnapFileName (TryBase m)); cbn; [done|]|];
    (destruct update as [[?|?|u]|]; cbn; try done;
     destruct (decide (BaseStatus m = TryingStatus)); cbn; intros [= <- <-];
     [ eexists u, m, _; split; [by right | split; [exact Hm | reflexivity]] ..
     | idtac | idtac ]);
    eexists bootState20MarkSuccessful_zero, m, _;
    (split; [by left | split; [exact Hm | reflexivity]]).
Qed.

Lemma markSuccessful_commit_no_panic (plan : bootState20MarkSuccessful P) k m w msg :
  kmut (msKernel plan) = Some k ->
  modeenv (bsModeenv (msBase plan)) = Some m ->
  (bootState20MarkSuccessful_commit plan w).1 <> Panic msg.
Proof.
  unfold bootState20MarkSuccessful_commit, kmerki_markSuccessful.
  destruct plan as [[[om] st bb t] [km bk nk kme]]; cbn. intros -> ->.
  destruct bk, bb; unfold_calls; cbn; decisions; oracle; decisions; oracle; done.
Qed.

(** X6: markSuccessful of the kernel and of the base threaded through one
    update, in either order, give a plan that holds both the booted kernel
    and the booted base, and the commit of that plan dereferences no nil
    pointer in any world. *)
Theorem markSuccessful_both_plan
    (ks : bootState20Kernel P) (bs : bootState20Base P) w1 w2 :
  (forall ks' upd1 bs' upd2,
      (bootState20Kernel_markSuccessful ks None w1).1 = Ok (ks', upd1) ->
      (bootState20Base_markSuccessful bs (Some upd1) w2).1 = Ok (bs', upd2) ->
      exists plan snk snb,
        upd2 = UpdateMarkSuccessful plan
        /\ bootedKernelSnap (msKernel plan) = Some snk
        /\ bootedBaseSnap (msBase plan) = Some snb
        /\ forall w msg, (bootState20MarkSuccessful_commit plan w).1 <> Panic msg)
  /\ (forall ks' upd1 bs' upd2,
        (bootState20Base_markSuccessful bs None w1).1 = Ok (bs', upd1) ->
        (bootState20Kernel_markSuccessful ks (Some upd1) w2).1 = Ok (ks', upd2) ->
        exists plan snk snb,
          upd2 = UpdateMarkSuccessful plan
          /\ bootedKernelSnap (msKernel plan) = Some snk
          /\ bootedBaseSnap (msBase plan) = Some snb
          /\ forall w msg, (bootState20MarkSuccessful_commit plan w).1 <> Panic msg).
Proof.
  split.
  - intros ks' upd1 bs' upd2 H1 H2.
    destruct (kernel_markSuccessful_ok _ _ _ _ _ H1)
      as (u1 & k & snk & [[_ ->]|[=]] & ->).
    destruct (base_markSuccessful_ok _ _ _ _ _ H2)
      as (u2 & m & snb & [[[=] _]|[= <-]] & Hm & ->).
    eexists _, snk, snb. repeat split.
    intros w msg. by eapply markSuccessful_commit_no_panic.
  - intros ks' upd1 bs' upd2 H1 H2.
    destruct (base_markSuccessful_ok _ _ _ _ _ H1)
      as (u1 & m & snb & [[_ ->]|[=]] & Hm & ->).
    destruct (kernel_markSuccessful_ok _ _ _ _ _ H2)
      as (u2 & k & snk & [[[=] _]|[= <-]] & ->).
    eexists _, snk, snb. repeat split.
    intros w msg. by eapply markSuccessful_commit_no_panic.
Qed.

(** X8: the assumption written above commit, that markSuccessful was called
    for both snaps, is needed.  The plan that markSuccessful of the kernel
    alone returns has no modeenv: when the bootloader steps of its commit
    succeed, the commit then panics on the nil modeenv, leaving the world as
    the bootloader steps left it and the modeenv file unwritten. *)
Theorem markSuccessful_kernel_only_panics (ks : bootState20Kernel P) w1 ks' upd :
  (bootState20Kernel_markSuccessful ks None w1).1 = Ok (ks', upd) ->
  exists plan k sn,
    upd = UpdateMarkSuccessful plan
    /\ kmut (msKernel plan) = Some k
    /\ bootedKernelSnap (msKernel plan) = Some sn
    /\ forall w,
        (kmerki_markSuccessful k sn w).1 = Ok () ->
        (exists msg, (bootState20MarkSuccessful_commit plan w).1 = Panic msg)
        /\ (bootState20MarkSuccessful_commit plan w).2
           = (kmerki_markSuccessful k sn w).2
        /\ modeenvFile (bootState20MarkSuccessful_commit plan w).2
           = modeenvFile w.
Proof.
  intros H1.
  destruct (kernel_markSuccessful_ok _ _ _ _ _ H1)
    as (u1 & k & sn & [[_ ->]|[=]] & ->).
  eexists _, k, sn. do 3 (split; [reflexivity|]). intros w Hok.
  destruct (kmerki_markSuccessful_run k sn w) as (evs & _ & Hfile & _).
  unfold bootState20MarkSuccessful_commit; cbn. unfold bind, ret, panic; cbn.
  destruct (kmerki_markSuccessful k sn w) as [[[]|e|msg] w']; cbn in *; try done.
  split; [by eexists | done].
Qed.

(** X7: an update that is not a bootState20MarkSuccessful (the boot state
    of a setNext, say) cannot be threaded through markSuccessful: once
    revisions has succeeded, markSuccessful of the kernel and of the base
    return "internal error, cannot thread <type> with update for UC20",
    where <type> is the dynamic type of the update, *boot.bootState20Kernel
    or *boot.bootState20Base, and make no call beyond those of revisions. *)
Theorem markSuccessful_rejects_other_updates
    (ks : bootState20Kernel P) (bs : bootState20Base P) u w :
  (forall plan, u <> UpdateMarkSuccessful plan) ->
  let e := Errorf ("internal error, cannot thread " ++ typeName u
                   ++ " with update for UC20") in
  (typeName u = "*boot.bootState20Kernel"
   \/ typeName u = "*boot.bootState20Base")
  /\ (forall r, (bootState20Kernel_revisions ks w).1 = Ok r ->
                bootState20Kernel_markSuccessful ks (Some u) w
                = (Err e, (bootState20Kernel_revisions ks w).2))
  /\ (forall r, (bootState20Base_revisions bs w).1 = Ok r ->
                bootState20Base_markSuccessful bs (Some u) w
                = (Err e, (bootState20Base_revisions bs w).2)).
Proof.
  intros Hu e. subst e. split.
  { destruct u as [?|?|plan]; [by left | by right | by destruct (Hu plan)]. }
  unfold bootState20Kernel_markSuccessful, bootState20Base_markSuccessful,
    selectSuccessfulBootSnap, revisions, bootState20Kernel_bootState,
    bootState20Base_bootState, bind, ret, fail.
  split; intros [b [[cur t] st]].
  - destruct (bootState20Kernel_revisions ks w) as [[r|?|?] w']; cbn; [|done..].
    intros [= ->]. destruct u as [?|?|plan]; cbn; try done. by destruct (Hu plan).
  - destruct (bootState20Base_revisions bs w) as [[r|?|?] w']; cbn; [|done..].
    intros [= ->]. destruct u as [?|?|plan]; cbn; try done. by destruct (Hu plan).
Qed.

(** *** The setNext commit of the kernel and the booted kernel *)

(** X12: the setNext commit for the kernel that is already the current one
    (same file name) never writes the modeenv and never enables a try kernel:
    it makes no call when the commit status is the current status, and
    otherwise only sets the boot variable kernel_status to the commit
    status. *)
Theorem kernel_commit_same_kernel (ks : bootState20Kernel P) k next w :
  kmut ks = Some k ->
  nextKernelSnap ks = Some next ->
  Filename next = Filename (currentKernel k) ->
  (commitKernelStatus k = currentKernelStatus k ->
   bootState20Kernel_commit ks w = (Ok ks, w))
  /\ (commitKernelStatus k <> currentKernelStatus k ->
      bootState20Kernel_commit ks w
      = (ebl_SetBootVars {[ "kernel_status" := commitKernelStatus k ]} ;;;
         ret ks) w).
Proof.
  unfold bootState20Kernel_commit, kmerki_setNextKernel, kmerki_kernel.
  intros -> -> Hf. unfold bind, ret, deref; cbn.
  destruct (decide (Filename next <> Filename (currentKernel k))) as [Hne|_].
  { by destruct Hne. }
  cbn.
  destruct (decide (commitKernelStatus k <> currentKernelStatus k)); cbn;
    split; intros Hc; done.
Qed.

(** X13: the setNext commit of the kernel never changes which kernel is
    booted by default: in every world and for every boot state, whatever
    fails, the kernel reference is the same afterwards, no call enables a
    kernel as the default or removes the try-kernel reference, and when the
    commit returns an error the boot variables are unchanged too. *)
Theorem kernel_commit_keeps_kernel (ks : bootState20Kernel P) w :
  kernelRef (bootState20Kernel_commit ks w).2 = kernelRef w
  /\ (forall e, (bootState20Kernel_commit ks w).1 = Err e ->
                bootVars (bootState20Kernel_commit ks w).2 = bootVars w)
  /\ exists evs,
      logged w (bootState20Kernel_commit ks w).2 evs
      /\ Forall (fun ev => changesKernelRef ev.1 = false) evs.
Proof.
  unfold bootState20Kernel_commit, kmerki_setNextKernel, kmerki_kernel.
  destruct ks as [[k|] bk [next|] [[m|]]]; cbn;
    unfold_calls; cbn; decisions; oracle;
    (split; [done|]); (split; [by intros ? [=]|]);
    first [ exists []; split; [apply logged_refl | constructor]
          | log_here; repeat constructor ].
Qed.

(** *** Re-asserting the current snap while an update is staged *)

(** X15: setNext of the base that is already the current one, committed.
    No reboot is asked for and the status in the modeenv is the default
    afterwards, but the try base is left as it was: when a base update is
    staged (status try), re-asserting the current base resets the status
    with one write and keeps the staged try_base in the file.  When nothing
    is staged, the commit makes no call. *)
Theorem base_setNext_current_keeps_try_base w m cur next :
  faultless w -> modeenvFile w = Some m ->
  BaseStatus m <> TryingStatus ->
  Base m <> EmptyString -> parse (Base m) = inr cur ->
  spec_sameArtifact cur next ->
  let m1 := mkModeenv (Base m) (TryBase m) DefaultStatus (CurrentKernels m) in
  let w0 := record (CReadModeenv, None) w in
  (exists u, (stageBase next w).1 = Ok (false, u))
  /\ modeenvFile (stageBase next w).2 = Some m1
  /\ (BaseStatus m = DefaultStatus -> (stageBase next w).2 = w0)
  /\ (BaseStatus m <> DefaultStatus ->
      (stageBase next w).2
      = record (CModeenvWrite m1, None) (put_modeenvFile m1 w0)).
Proof.
  intros Hnf Hfile Hst Hb Hcur Hsame m1 w0.
  destruct (base_revisions_faultless bootState20Base_zero w m cur
              Hnf Hfile eq_refl Hb Hcur) as [Hrev _].
  specialize (Hrev Hst).
  assert (Hg : genericSetNext bootState20Base_zero next w
               = (Ok (mkBootState20Base (mkBootState20Modeenv (Some m))
                        (BaseStatus m) None None, DefaultStatus), w0)).
  { erewrite (genericSetNext_run (impl:=bootState20Base_bootState));
      unfold revisions, bootState20Base_bootState; rewrite Hrev; [|reflexivity].
    cbn. by destruct (decide (spec_sameArtifact cur next)). }
  assert (Hrun : exists u,
             stageBase next w
             = (Ok (false, u),
                if decide (m1 = m) then w0
                else record (CModeenvWrite m1, None) (put_modeenvFile m1 w0))).
  { unfold stageBase, bootState20Base_setNext.
    unfold bind at 1. unfold bind at 1. rewrite Hg.
    cbv beta iota. rewrite bool_decide_false, decide_False by done.
    unfold ret at 1. cbv beta iota. unfold bootStateUpdate_commit.
    unfold bind at 1. unfold bind at 1. cbn [snd fst].
    rewrite (base_commit_run _ m) by done. cbn. fold m1.
    destruct (decide (m1 = m)) as [Heq|Hne].
    - unfold ret; cbn. by eexists.
    - unfold bind. rewrite Modeenv_Write_faultless by done. unfold ret; cbn.
      by eexists. }
  destruct Hrun as [u ->]. cbn [fst snd].
  split; [by eexists|].
  destruct (decide (m1 = m)) as [Heq|Hne].
  - split; [cbn; by rewrite Hfile, Heq|]. split; [done|].
    intros Hd. destruct Hd. by rewrite <- Heq.
  - split; [done|]. split; [|done].
    intros Hd. destruct Hne. subst m1. destruct m; cbn in *. by subst.
Qed.

Lemma kernel_commit_same_run (ks : bootState20Kernel P) k next w :
  kmut ks = Some k -> nextKernelSnap ks = Some next ->
  Filename next = Filename (currentKernel k) ->
  bootState20Kernel_commit ks w
  = if decide (commitKernelStatus k <> currentKernelStatus k)
    then (ebl_SetBootVars {[ "kernel_status" := commitKernelStatus k ]} ;;;
          ret ks) w
    else (Ok ks, w).
Proof.
  unfold bootState20Kernel_commit, kmerki_setNextKernel, kmerki_kernel.
  intros -> -> Hf. unfold bind, ret, deref; cbn.
  destruct (decide (Filename next <> Filename (currentKernel k))) as [Hne|_].
  { by destruct Hne. }
  cbn. by destruct (decide (commitKernelStatus k <> currentKernelStatus k)).
Qed.

(** X16: setNext of the kernel that is already the current one while
    another kernel is staged (kernel_status try), committed.  No reboot is
    asked for and kernel_status is reset, but the modeenv is not written and
    the try-kernel reference is left in place: the staged kernel stays in
    current_kernels and stays referenced by the bootloader. *)
Theorem kernel_setNext_current_keeps_try_kernel w m cur next :
  faultless w -> blExtractedRunKernelImage w = true ->
  kernelRef w = Some cur -> modeenvFile w = Some m ->
  index (bootVars w) "kernel_status" = TryStatus ->
  spec_sameArtifact cur next ->
  Filename next = Filename cur ->
  let w1 := (stageKernel next w).2 in
  (exists u, (stageKernel next w).1 = Ok (false, u))
  /\ index (bootVars w1) "kernel_status" = DefaultStatus
  /\ modeenvFile w1 = Some m
  /\ kernelRef w1 = Some cur
  /\ tryKernelRef w1 = tryKernelRef w
  /\ exists evs,
      logged w w1 evs /\ Forall (fun ev => isModeenvWrite ev.1 = false) evs.
Proof.
  intros Hnf Hbl Hk Hfile Hst Hsame Hf w1. subst w1.
  set (w' := record (CReadModeenv, None) w).
  set (ks' := mkBootState20Kernel (P:=P) None None None
                (mkBootState20Modeenv (Some m))).
  pose proof (kernel_revisions_faultless ks' w' cur Hnf Hbl Hk) as Hrev.
  cbn [bootVars record w'] in Hrev. rewrite Hst in Hrev.
  set (w0 := record _ (loaded w')) in Hrev.
  assert (Hg : genericSetNext ks' next w'
               = (Ok (mkBootState20Kernel
                        (Some (mkKmerki TryStatus TryStatus cur))
                        None None (mkBootState20Modeenv (Some m)),
                      DefaultStatus), w0)).
  { erewrite (genericSetNext_run (impl:=bootState20Kernel_bootState));
      unfold revisions, bootState20Kernel_bootState; rewrite Hrev; [|reflexivity].
    cbn. by destruct (decide (spec_sameArtifact cur next)). }
  assert (Hrun : exists u,
             stageKernel next w
             = (Ok (false, u),
                record (CSetBootVars {[ "kernel_status" := DefaultStatus ]}, None)
                  (put_bootVars {[ "kernel_status" := DefaultStatus ]} w0))).
  { unfold stageKernel, bootState20Kernel_setNext.
    unfold bind at 1. unfold bind at 1.
    change (kModeenv bootState20Kernel_zero) with (mkBootState20Modeenv None).
    rewrite (loadModeenv_faultless w m Hnf Hfile). cbv beta iota.
    fold w'. change (mkBootState20Kernel (kmut bootState20Kernel_zero) _ _ _)
      with ks'.
    unfold bind at 1. rewrite Hg. cbv beta iota.
    rewrite bool_decide_false by done. unfold deref, bind at 1, ret at 1.
    cbv beta iota. cbn [kmut]. unfold ret at 1. cbv beta iota.
    unfold ret at 1. cbv beta iota. cbn [fst snd]. unfold bootStateUpdate_commit.
    unfold bind at 1. unfold bind at 1.
    rewrite (kernel_commit_same_run _
               (mkKmerki TryStatus DefaultStatus cur) next) by done.
    cbn [commitKernelStatus currentKernelStatus].
    rewrite decide_True by done.
    unfold bind, ebl_SetBootVars, ret. rewrite invoke_faultless by done. cbn.
    by eexists. }
  destruct Hrun as [u ->]. cbn [fst snd].
  split; [by eexists|]. split; [cbn; apply index_put_bootVars|].
  split; [done|]. split; [done|]. split; [done|].
  eexists. split.
  - split; [cbn; rewrite <- !(assoc_L (++)); reflexivity | done].
  - repeat constructor.
Qed.

(** *** The kernels the bootloader can boot stay trusted *)

Lemma trusted_same_persisted w w' :
  same_persisted w w' -> trusted w -> trusted w'.
Proof.
  intros (Hf & Hv & Hk & Ht) (m & Hm & H1 & H2 & H3). exists m.
  rewrite Hf, Hv, Hk, Ht. done.
Qed.

Lemma trusted_record ev w : trusted (record ev w) <-> trusted w.
Proof. done. Qed.

Ltac trust_leaf :=
  match goal with
  | |- trusted _ =>
      eexists; cbn;
      (split; [first [reflexivity | eassumption]|]);
      (split; [|split]); cbn;
      rewrite ?index_put_bootVars;
      intros; simplify_eq/=; eauto; try set_solver
  end.

Lemma kernel_commit_trust (ks : bootState20Kernel P) k next m w :
  kmut ks = Some k -> nextKernelSnap ks = Some next ->
  modeenv (kModeenv ks) = Some m -> modeenvFile w = Some m ->
  kernelRef w = Some (currentKernel k) ->
  (commitKernelStatus k = TryStatus ->
   Filename next <> Filename (currentKernel k)) ->
  trusted w ->
  trusted (bootState20Kernel_commit ks w).2.
Proof.
  intros Hk Hn Hm Hfile Hkr Htry Ht.
  pose proof Ht as (m0 & Hf0 & H1 & H2 & H3).
  rewrite Hfile in Hf0. injection Hf0 as <-.
  unfold bootState20Kernel_commit, kmerki_setNextKernel, kmerki_kernel.
  rewrite Hk, Hn, Hm. unfold_calls. cbn.
  destruct (decide (Filename next <> Filename (currentKernel k))) as [Hne|He];
    cbn.
  - destruct (faults w (calls w) (CModeenvWrite _)) eqn:F1; cbn; [done|].
    match goal with
    | |- context [faults ?w0 ?h (CEnableTryKernel next)] =>
        destruct (faults w0 h (CEnableTryKernel next)) eqn:F2; cbn
    end.
    { trust_leaf. }
    destruct (decide (commitKernelStatus k <> currentKernelStatus k)); cbn.
    + match goal with
      | |- context [faults ?w0 ?h (CSetBootVars ?v)] =>
          destruct (faults w0 h (CSetBootVars v)) eqn:F3; cbn
      end; trust_leaf.
    + trust_leaf.
  - destruct (decide (commitKernelStatus k <> currentKernelStatus k)); cbn;
      [|done].
    match goal with
    | |- context [faults ?w0 ?h (CSetBootVars ?v)] =>
        destruct (faults w0 h (CSetBootVars v)) eqn:F3; cbn
    end; [done|].
    trust_leaf.
Qed.

Lemma markSuccessful_commit_trust (plan : bootState20MarkSuccessful P) k sn m w :
  kmut (msKernel plan) = Some k ->
  bootedKernelSnap (msKernel plan) = Some sn ->
  modeenv (bsModeenv (msBase plan)) = Some m ->
  kernelRef w = Some (currentKernel k) ->
  index (bootVars w) "kernel_status" = commitKernelStatus k ->
  (forall mf, modeenvFile w = Some mf -> Filename sn ∈ CurrentKernels mf) ->
  trusted w ->
  trusted (bootState20MarkSuccessful_commit plan w).2.
Proof.
  intros Hk Hsn Hm Hkr Hst Hin Ht.
  pose proof Ht as (mf & Hf & H1 & H2 & H3). specialize (Hin mf Hf).
  pose proof (markSuccessful_commit_kernel plan k sn w Hsn Hk) as Hc.
  rewrite Hm in Hc. cbv zeta in Hc. rewrite Hc. clear Hc.
  set (m' := spec_markSuccessful_modeenv _ _ _).
  assert (Hm' : CurrentKernels m' = [Filename sn]) by done.
  clearbody m'.
  unfold kmerki_markSuccessful. unfold_calls.
  destruct (decide (commitKernelStatus k <> DefaultStatus)) as [Hd|Hd];
    destruct (decide (Filename (currentKernel k) <> Filename sn)) as [Hne|He];
    cbn; oracle; try done.
  all: eexists; cbn; (split; [first [reflexivity | eassumption]|]);
    (split; [|split]); cbn; rewrite ?index_put_bootVars; intros;
    simplify_eq/=; eauto.
  all: try apply dec_stable in He; try apply dec_stable in Hd.
  all: try (rewrite Hm'; set_unfold; left; congruence).
  all: exfalso; unfold DefaultStatus, TryStatus in *; congruence.
Qed.

(** What the reads return is what the world holds. *)
Lemma loadModeenv_reads w bsm :
  (bootState20Modeenv_loadModeenv (P:=P) (mkBootState20Modeenv None) w).1
  = Ok bsm ->
  exists m, modeenv bsm = Some m /\ modeenvFile w = Some m.
Proof.
  unfold bootState20Modeenv_loadModeenv. cbn. unfold_calls.
  destruct (faults w (calls w) CReadModeenv); cbn; [done|].
  destruct (modeenvFile w) as [m|]; cbn; [|done].
  intros [= <-]. by exists m.
Qed.

Lemma base_loadModeenv_reads w bs :
  (bootState20Base_loadModeenv (P:=P) bootState20Base_zero w).1 = Ok bs ->
  exists m, modeenv (bsModeenv bs) = Some m /\ modeenvFile w = Some m.
Proof.
  unfold bootState20Base_loadModeenv. cbn. unfold_calls.
  destruct (faults w (calls w) CReadModeenv); cbn; [done|].
  destruct (modeenvFile w) as [m|]; cbn; [|done].
  intros [= <-]. by exists m.
Qed.

Lemma base_revisions_reads w bs r :
  (bootState20Base_revisions (P:=P) bootState20Base_zero w).1 = Ok (bs, r) ->
  exists m, modeenv (bsModeenv bs) = Some m /\ modeenvFile w = Some m.
Proof.
  unfold bootState20Base_revisions. unfold bind at 1. unfold bind at 1.
  pose proof (base_loadModeenv_reads w) as Hl.
  destruct (bootState20Base_loadModeenv bootState20Base_zero w)
    as [[bs1|e|msg] w1]; cbn; [|done..].
  destruct (Hl bs1 eq_refl) as (m & Hm & Hf). rewrite Hm.
  unfold deref, bind, ret, fail.
  destruct (decide (Base m = EmptyString)); [done|].
  destruct (ParsePlaceInfoFromSnapFileName (Base m)); [done|].
  destruct (decide _);
    [destruct (ParsePlaceInfoFromSnapFileName (TryBase m)); [done|]|];
    intros [= <- <-]; by exists m.
Qed.

Lemma kernel_revisions_reads (ks : bootState20Kernel P) w ks1 cur t st :
  (bootState20Kernel_revisions ks w).1 = Ok (ks1, (cur, t, st)) ->
  kernelRef w = Some cur
  /\ index (bootVars w) "kernel_status" = st
  /\ (forall x, t = Some x -> tryKernelRef w = Some x).
Proof.
  unfold bootState20Kernel_revisions, bootState20Kernel_loadBootenv,
    kmerki_tryKernel, kmerki_kernel, kmerki_kernelStatus, kmerki_load.
  unfold_calls. cbn.
  destruct (faults w (calls w) CFind); cbn; [done|].
  destruct (blExtractedRunKernelImage w); cbn; [|done].
  match goal with
  | |- context [faults ?w0 ?h (CGetBootVars ?v)] =>
      destruct (faults w0 h (CGetBootVars v)); cbn; [done|]
  end.
  match goal with
  | |- context [faults ?w0 ?h CKernel] =>
      destruct (faults w0 h CKernel); cbn; [done|]
  end.
  destruct (kernelRef w) as [k0|]; cbn; [|done].
  match goal with
  | |- context [faults ?w0 ?h CTryKernel] =>
      destruct (faults w0 h CTryKernel) as [e|]; cbn
  end.
  - destruct (decide (e <> ErrNoTryKernelRef)); cbn; [done|].
    intros [= <- <- <- <-]. split; [done|]. split; [|done].
    symmetry. apply index_GetBootVars.
  - destruct (tryKernelRef w) as [t0|]; cbn.
    + intros [= <- <- <- <-]. split; [done|]. split; [|done].
      symmetry. apply index_GetBootVars.
    + destruct (decide (ErrNoTryKernelRef <> ErrNoTryKernelRef)); [done|].
      cbn. intros [= <- <- <- <-]. split; [done|]. split; [|done].
      symmetry. apply index_GetBootVars.
Qed.

Lemma quiet_kernel_setNext (ks : bootState20Kernel P) next :
  quiet (bootState20Kernel_setNext ks next).
Proof.
  unfold bootState20Kernel_setNext.
  apply quiet_bind; [apply quiet_loadModeenv|]. intros km.
  apply quiet_bind; [apply quiet_genericSetNext, quiet_kernel_revisions|].
  intros [ks1 nextStatus]. repeat quiet_step.
Qed.

Lemma quiet_base_setNext (bs : bootState20Base P) next :
  quiet (bootState20Base_setNext bs next).
Proof.
  unfold bootState20Base_setNext.
  apply quiet_bind; [apply quiet_genericSetNext, quiet_base_revisions|].
  intros [bs1 nextStatus]. repeat quiet_step.
Qed.

Lemma quiet_kernel_markSuccessful (ks : bootState20Kernel P) update :
  quiet (bootState20Kernel_markSuccessful ks update).
Proof.
  unfold bootState20Kernel_markSuccessful.
  apply quiet_bind;
    [apply quiet_selectSuccessfulBootSnap, quiet_kernel_revisions|].
  intros [[ks' u] sn]. repeat quiet_step.
Qed.

Lemma quiet_base_markSuccessful (bs : bootState20Base P) update :
  quiet (bootState20Base_markSuccessful bs update).
Proof.
  unfold bootState20Base_markSuccessful.
  apply quiet_bind;
    [apply quiet_selectSuccessfulBootSnap, quiet_base_revisions|].
  intros [[bs' u] sn]. repeat quiet_step.
Qed.

Lemma quiet_trusted {A} (c : M P A) w :
  quiet c -> trusted w -> trusted (c w).2.
Proof. intros Hq. apply trusted_same_persisted, Hq. Qed.

(** What setNext of the kernel hands to commit. *)
Lemma kernel_setNext_reads next w reboot ks :
  (bootState20Kernel_setNext bootState20Kernel_zero next w).1
  = Ok (reboot, ks) ->
  exists k m,
    kmut ks = Some k /\ nextKernelSnap ks = Some next
    /\ modeenv (kModeenv ks) = Some m /\ modeenvFile w = Some m
    /\ kernelRef w = Some (currentKernel k)
    /\ (commitKernelStatus k = TryStatus ->
        ~ spec_sameArtifact (currentKernel k) next).
Proof.
  unfold bootState20Kernel_setNext. unfold bind at 1.
  change (kModeenv bootState20Kernel_zero) with (mkBootState20Modeenv None).
  pose proof (loadModeenv_reads w) as Hl.
  pose proof (quiet_loadModeenv (mkBootState20Modeenv None) w) as [Hq _].
  destruct (bootState20Modeenv_loadModeenv (mkBootState20Modeenv None) w)
    as [[km|e|msg] w1]; cbn [fst snd] in *; [|done..].
  destruct (Hl km eq_refl) as (m & Hm & Hf).
  set (ks1 := mkBootState20Kernel _ _ _ km).
  unfold bind at 1.
  pose proof (kernel_revisions_ok ks1 w1) as Hok.
  pose proof (kernel_revisions_reads ks1 w1) as Hrd.
  pose proof (genericSetNext_run (impl:=bootState20Kernel_bootState)
                ks1 next w1) as Hg.
  destruct (bootState20Kernel_revisions ks1 w1)
    as [[[ks2 [[cur t] st]]|e|msg] w2] eqn:Er.
  - assert (Hr1 : (revisions ks1 w1).1 = Ok (ks2, (cur, t, st))).
    { unfold revisions, bootState20Kernel_bootState. by rewrite Er. }
    rewrite (Hg _ _ _ _ Hr1). cbn [fst snd].
    destruct (Hok ks2 cur t st eq_refl) as (k & -> & Hcur & Hst & Hcst).
    destruct (Hrd _ cur t st eq_refl) as (Hkr & _ & _).
    cbn. unfold ret. cbn. intros [= <- <-].
    destruct Hq as (Hqf & _ & Hqk & _).
    exists (kmerki_setCommitStatus
              (if decide (spec_sameArtifact cur next)
               then DefaultStatus else TryStatus) k), m.
    cbn. do 4 (split; [done|]).
    split; [by rewrite <- Hqk, Hkr, Hcur|].
    rewrite Hcur. by destruct (decide (spec_sameArtifact cur next)).
  - unfold genericSetNext, revisions, bootState20Kernel_bootState, bind.
    by rewrite Er.
  - unfold genericSetNext, revisions, bootState20Kernel_bootState, bind.
    by rewrite Er.
Qed.

(** What markSuccessful of the kernel and then of the base hand to commit. *)
Lemma kernel_markSuccessful_reads w ks' upd :
  (bootState20Kernel_markSuccessful bootState20Kernel_zero None w).1
  = Ok (ks', upd) ->
  exists k sn,
    upd = UpdateMarkSuccessful
            (mkBootState20MarkSuccessful bootState20Base_zero
               (mkBootState20Kernel (Some k) (Some sn) None
                                    (mkBootState20Modeenv None)))
    /\ kernelRef w = Some (currentKernel k)
    /\ index (bootVars w) "kernel_status" = commitKernelStatus k
    /\ (sn = currentKernel k \/ tryKernelRef w = Some sn).
Proof.
  unfold bootState20Kernel_markSuccessful, selectSuccessfulBootSnap,
    revisions, bootState20Kernel_bootState.
  pose proof (kernel_revisions_ok bootState20Kernel_zero w) as Hok.
  pose proof (kernel_revisions_reads bootState20Kernel_zero w) as Hrd.
  unfold bind, ret.
  destruct (bootState20Kernel_revisions bootState20Kernel_zero w)
    as [[[ks1 [[cur t] st]]|e|msg] w1]; cbn; [|done..].
  destruct (Hok ks1 cur t st eq_refl) as (k & -> & Hcur & Hst & Hcst).
  destruct (Hrd _ cur t st eq_refl) as (Hkr & Hvar & Htry).
  destruct (decide (st = TryingStatus)), t as [t|]; cbn;
    intros [= <- <-]; eexists k, _; (split; [reflexivity|]);
    (split; [by rewrite Hcur|]); (split; [by rewrite Hcst|]);
    first [by left; rewrite Hcur | right; by apply Htry].
Qed.

Lemma base_markSuccessful_reads w u bs' upd :
  (bootState20Base_markSuccessful bootState20Base_zero
     (Some (UpdateMarkSuccessful u)) w).1 = Ok (bs', upd) ->
  exists m bs,
    upd = UpdateMarkSuccessful (mkBootState20MarkSuccessful bs (msKernel u))
    /\ modeenv (bsModeenv bs) = Some m /\ modeenvFile w = Some m.
Proof.
  unfold bootState20Base_markSuccessful, selectSuccessfulBootSnap,
    revisions, bootState20Base_bootState.
  pose proof (base_revisions_reads w) as Hrd.
  unfold bind, ret.
  destruct (bootState20Base_revisions bootState20Base_zero w)
    as [[[bs1 [[cur t] st]]|e|msg] w1]; cbn; [|done..].
  destruct (Hrd bs1 _ eq_refl) as (m & Hm & Hf).
  destruct (decide (st = TryingStatus)), t as [t|]; cbn;
    intros [= <- <-]; by eexists m, _.
Qed.

Lemma base_markSuccessful_alone_reads w bs' upd :
  (bootState20Base_markSuccessful bootState20Base_zero None w).1
  = Ok (bs', upd) ->
  exists m bs,
    upd = UpdateMarkSuccessful
            (mkBootState20MarkSuccessful bs bootState20Kernel_zero)
    /\ modeenv (bsModeenv bs) = Some m /\ modeenvFile w = Some m.
Proof.
  unfold bootState20Base_markSuccessful, selectSuccessfulBootSnap,
    revisions, bootState20Base_bootState.
  pose proof (base_revisions_reads w) as Hrd.
  unfold bind, ret.
  destruct (bootState20Base_revisions bootState20Base_zero w)
    as [[[bs1 [[cur t] st]]|e|msg] w1]; cbn; [|done..].
  destruct (Hrd bs1 _ eq_refl) as (m & Hm & Hf).
  destruct (decide (st = TryingStatus)), t as [t|]; cbn;
    intros [= <- <-]; by eexists m, _.
Qed.

Lemma base_setNext_reads next w reboot bs :
  (bootState20Base_setNext bootState20Base_zero next w).1 = Ok (reboot, bs) ->
  exists m, modeenv (bsModeenv bs) = Some m /\ modeenvFile w = Some m.
Proof.
  unfold bootState20Base_setNext, genericSetNext, revisions,
    bootState20Base_bootState.
  pose proof (base_revisions_reads w) as Hrd.
  unfold bind, ret.
  destruct (bootState20Base_revisions bootState20Base_zero w)
    as [[[bs1 [[cur t] st]]|e|msg] w1]; cbn; [|done..].
  destruct (Hrd bs1 _ eq_refl) as (m & Hm & Hf).
  destruct (decide _); cbn; intros [= <- <-]; by exists m.
Qed.

(** A write that keeps the kernels of the file keeps the trust. *)
Lemma Modeenv_Write_trust m m' w :
  modeenvFile w = Some m -> CurrentKernels m' = CurrentKernels m ->
  trusted w -> trusted (Modeenv_Write m' w).2.
Proof.
  intros Hf Hk (m0 & Hf0 & H1 & H2 & H3). rewrite Hf in Hf0.
  injection Hf0 as <-. unfold_calls.
  destruct (faults w (calls w) (CModeenvWrite m')); cbn.
  - by exists m.
  - exists m'. cbn. rewrite Hk. done.
Qed.

Lemma base_commit_trust (bs : bootState20Base P) m w :
  modeenv (bsModeenv bs) = Some m -> modeenvFile w = Some m ->
  trusted w -> trusted (bootState20Base_commit bs w).2.
Proof.
  intros Hm Hf Ht. rewrite (base_commit_run bs m w Hm).
  destruct (decide _); [done|]. unfold bind at 1.
  pose proof (Modeenv_Write_trust m _ w Hf
                (eq_refl : CurrentKernels
                             (mkModeenv (Base m)
                                match tryBaseSnap bs with
                                | Some t => Filename t
                                | None => TryBase m
                                end (commitBaseStatus bs) (CurrentKernels m))
                           = CurrentKernels m) Ht) as Hw.
  destruct (Modeenv_Write _ w) as [[[]|e|msg] w1]; done.
Qed.

Lemma markSuccessful_commit_base_trust (plan : bootState20MarkSuccessful P) m w :
  bootedKernelSnap (msKernel plan) = None ->
  modeenv (bsModeenv (msBase plan)) = Some m -> modeenvFile w = Some m ->
  trusted w -> trusted (bootState20MarkSuccessful_commit plan w).2.
Proof.
  intros Hk Hm Hf Ht. rewrite (markSuccessful_commit_base_run plan m w Hk Hm).
  destruct (decide _); [done|]. unfold bind at 1.
  pose proof (Modeenv_Write_trust m
                (spec_markSuccessful_modeenv None
                   (bootedBaseSnap (msBase plan)) m) w Hf eq_refl Ht) as Hw.
  destruct (Modeenv_Write _ w) as [[[]|e|msg] w1]; done.
Qed.

(** X28: each commit keeps the kernels that the bootloader can boot trusted,
    wherever it is interrupted.  From a world in which the enabled kernel
    and the try kernel, if any, are in current_kernels of the modeenv file
    and kernel_status is try only with a try kernel referenced, the same
    holds after the setNext commit of the kernel, after the markSuccessful
    commit and after the commit of the base, whatever call fails and thus
    after each of their calls, provided the boot state holds what was read
    from that world and, for the setNext commit of the kernel, that status
    try is staged only for a candidate whose file name differs from that of
    the current kernel. *)
Theorem commits_keep_trust w :
  trusted w ->
  (forall (ks : bootState20Kernel P) k next m,
      kmut ks = Some k -> nextKernelSnap ks = Some next ->
      modeenv (kModeenv ks) = Some m -> modeenvFile w = Some m ->
      kernelRef w = Some (currentKernel k) ->
      (commitKernelStatus k = TryStatus ->
       Filename next <> Filename (currentKernel k)) ->
      trusted (bootState20Kernel_commit ks w).2)
  /\ (forall (plan : bootState20MarkSuccessful P) k sn m,
         kmut (msKernel plan) = Some k ->
         bootedKernelSnap (msKernel plan) = Some sn ->
         modeenv (bsModeenv (msBase plan)) = Some m ->
         kernelRef w = Some (currentKernel k) ->
         index (bootVars w) "kernel_status" = commitKernelStatus k ->
         (sn = currentKernel k \/ tryKernelRef w = Some sn) ->
         trusted (bootState20MarkSuccessful_commit plan w).2)
  /\ (forall (bs : bootState20Base P) m,
         modeenv (bsModeenv bs) = Some m -> modeenvFile w = Some m ->
         trusted (bootState20Base_commit bs w).2).
Proof.
  intros Ht. split; [|split].
  - intros ks k next m ? ? ? ? ? ?. by eapply kernel_commit_trust.
  - intros plan k sn m Hk Hsn Hm Hkr Hst Hsn'.
    eapply markSuccessful_commit_trust; try done.
    destruct Ht as (m0 & Hf0 & H1 & H2 & _). intros mf Hmf.
    rewrite Hf0 in Hmf. injection Hmf as <-.
    destruct Hsn' as [->|Htry]; [by apply H1 | by apply H2].
  - intros bs m Hm Hf. by eapply base_commit_trust.
Qed.

(** X29: the operations as a whole keep the kernels trusted.  From any
    world in which the enabled kernel and the try kernel are in
    current_kernels and kernel_status is try only with a try kernel
    referenced, and under any pattern of failing calls, the same holds after
    setNext plus commit of a kernel (whose file name is that of the current
    kernel only if it is the same artifact), after markSuccessful of kernel
    and base plus commit, after setNext plus commit of a base and after
    markSuccessful of the base plus commit. *)
Theorem operations_keep_trust w next :
  trusted w ->
  ((forall cur, kernelRef w = Some cur -> Filename next = Filename cur ->
                spec_sameArtifact cur next) ->
   trusted (stageKernel next w).2)
  /\ trusted (markBootSuccessful w).2
  /\ trusted (stageBase next w).2
  /\ trusted (markBaseSuccessful w).2.
Proof.
  intros Ht. split; [|split; [|split]].
  - intros Hfaith. unfold stageKernel. unfold bind at 1.
    pose proof (kernel_setNext_reads next w) as Hrd.
    pose proof (quiet_kernel_setNext bootState20Kernel_zero next w) as [Hq _].
    destruct (bootState20Kernel_setNext bootState20Kernel_zero next w)
      as [[[reboot ks]|e|msg] w1]; cbn [fst snd] in *;
      [|by eapply trusted_same_persisted..].
    destruct (Hrd reboot ks eq_refl) as (k & m & Hk & Hn & Hm & Hf & Hkr & Hc).
    assert (Ht1 : trusted w1) by (by eapply trusted_same_persisted).
    destruct Hq as (Hqf & _ & Hqk & _).
    assert (Hgoal : trusted (bootState20Kernel_commit ks w1).2).
    { eapply kernel_commit_trust; try done.
      - by rewrite Hqf.
      - by rewrite Hqk.
      - intros Hs Heq. apply (Hc Hs). by apply Hfaith. }
    unfold bootStateUpdate_commit, bind, ret.
    by destruct (bootState20Kernel_commit ks w1) as [[?|?|?] ?].
  - unfold markBootSuccessful. unfold bind at 1.
    pose proof (kernel_markSuccessful_reads w) as Hrd.
    pose proof (quiet_kernel_markSuccessful bootState20Kernel_zero None w)
      as [Hq _].
    destruct (bootState20Kernel_markSuccessful bootState20Kernel_zero None w)
      as [[[ks' upd]|e|msg] w1]; cbn [fst snd] in *;
      [|by eapply trusted_same_persisted..].
    destruct (Hrd ks' upd eq_refl) as (k & sn & -> & Hkr & Hst & Hsn).
    assert (Ht1 : trusted w1) by (by eapply trusted_same_persisted).
    unfold bind at 1.
    set (plan1 := mkBootState20MarkSuccessful bootState20Base_zero
                    (mkBootState20Kernel (Some k) (Some sn) None
                       (mkBootState20Modeenv None))).
    pose proof (base_markSuccessful_reads w1 plan1) as Hrd2.
    pose proof (quiet_base_markSuccessful bootState20Base_zero
                  (Some (UpdateMarkSuccessful plan1)) w1) as [Hq2 _].
    destruct (bootState20Base_markSuccessful _ _ w1)
      as [[[bs' upd2]|e|msg] w2]; cbn [fst snd] in *;
      [|by eapply trusted_same_persisted..].
    destruct (Hrd2 bs' upd2 eq_refl) as (m & bs & -> & Hm & Hf).
    subst plan1. cbn [msKernel] in *.
    assert (Ht2 : trusted w2) by (by eapply trusted_same_persisted).
    destruct Hq as (Hqf & Hqv & Hqk & Hqt).
    destruct Hq2 as (Hqf2 & Hqv2 & Hqk2 & Hqt2).
    assert (Hgoal : trusted (bootState20MarkSuccessful_commit
                               (mkBootState20MarkSuccessful bs
                                  (mkBootState20Kernel (Some k) (Some sn) None
                                     (mkBootState20Modeenv None))) w2).2).
    { eapply (markSuccessful_commit_trust _ k sn m); try done.
      - by rewrite Hqk2, Hqk.
      - by rewrite Hqv2, Hqv.
      - destruct Ht2 as (m0 & Hf0 & H1 & H2 & _). intros mf Hmf.
        rewrite Hf0 in Hmf. injection Hmf as <-.
        destruct Hsn as [->|Htry].
        + apply H1. by rewrite Hqk2, Hqk.
        + apply H2. by rewrite Hqt2, Hqt. }
    unfold bootStateUpdate_commit, bind, ret. cbn [snd msKernel].
    by destruct (bootState20MarkSuccessful_commit _ w2) as [[?|?|?] ?].
  - unfold stageBase. unfold bind at 1.
    pose proof (base_setNext_reads next w) as Hrd.
    pose proof (quiet_base_setNext bootState20Base_zero next w) as [Hq _].
    destruct (bootState20Base_setNext bootState20Base_zero next w)
      as [[[reboot bs]|e|msg] w1]; cbn [fst snd] in *;
      [|by eapply trusted_same_persisted..].
    destruct (Hrd reboot bs eq_refl) as (m & Hm & Hf).
    assert (Ht1 : trusted w1) by (by eapply trusted_same_persisted).
    destruct Hq as (Hqf & _).
    assert (Hgoal : trusted (bootState20Base_commit bs w1).2).
    { eapply base_commit_trust; try done. by rewrite Hqf. }
    unfold bootStateUpdate_commit, bind, ret.
    by destruct (bootState20Base_commit bs w1) as [[?|?|?] ?].
  - unfold markBaseSuccessful. unfold bind at 1.
    pose proof (base_markSuccessful_alone_reads w) as Hrd.
    pose proof (quiet_base_markSuccessful bootState20Base_zero None w)
      as [Hq _].
    destruct (bootState20Base_markSuccessful bootState20Base_zero None w)
      as [[[bs' upd]|e|msg] w1]; cbn [fst snd] in *;
      [|by eapply trusted_same_persisted..].
    destruct (Hrd bs' upd eq_refl) as (m & bs & -> & Hm & Hf).
    assert (Ht1 : trusted w1) by (by eapply trusted_same_persisted).
    destruct Hq as (Hqf & _).
    assert (Hgoal : trusted (bootState20MarkSuccessful_commit
                               (mkBootState20MarkSuccessful bs
                                  bootState20Kernel_zero) w1).2).
    { eapply markSuccessful_commit_base_trust; try done. by rewrite Hqf. }
    unfold bootStateUpdate_commit, bind, ret.
    by destruct (bootState20MarkSuccessful_commit _ w1) as [[?|?|?] ?].
Qed.

End more.

(** *** Runs of the further properties on concrete inputs *)

Lemma loadModeenv_once_witness :
  bootState20Base_loadModeenv
    (mkBootState20Base (mkBootState20Modeenv (Some modeenv_default))
                       EmptyString None None) world_no_modeenv
  = (Ok (mkBootState20Base (mkBootState20Modeenv (Some modeenv_default))
                           EmptyString None None), world_no_modeenv).
Proof.
  apply (proj2 (loadModeenv_once (P:=Info)) bootState20Base_zero world_default).
  reflexivity.
Defined.

Lemma modeenv_read_failure_witness :
  (bootState20Base_setNext bootState20Base_zero core20_2 world_no_modeenv).1
  = Err (Errorf ("cannot get snap revision: unable to read modeenv: "
                 ++ "modeenv: no such file or directory"))
  /\ modeenvFile
       (bootState20Base_setNext bootState20Base_zero core20_2 world_no_modeenv).2
     = None.
Proof.
  destruct (modeenv_read_failure (P:=Info) bootState20Base_zero
              bootState20Kernel_zero core20_2 None world_no_modeenv
              (Errorf "modeenv: no such file or directory")
              eq_refl eq_refl eq_refl) as (_ & -> & _).
  split; reflexivity.
Defined.

Lemma kmerki_load_unsupported_bootloader_witness :
  (bootState20Kernel_markSuccessful bootState20Kernel_zero None world_uboot).1
  = Err (Errorf ("cannot use uboot bootloader: "
                 ++ "does not support extracted run kernel images")).
Proof.
  destruct (kmerki_load_unsupported_bootloader (P:=Info) bootState20Kernel_zero
              world_uboot eq_refl eq_refl) as (_ & _ & H).
  rewrite H. reflexivity.
Defined.

Lemma kernel_revisions_try_kernel_witness :
  (bootState20Kernel_revisions bootState20Kernel_zero world_trying).1
  = Ok (mkBootState20Kernel (Some kmut_trying) None None
                            (mkBootState20Modeenv None),
        (k100, Some k101, TryingStatus)).
Proof.
  apply (proj1 (kernel_revisions_try_kernel (P:=Info) bootState20Kernel_zero
                  world_trying kmut_trying eq_refl) k101).
  reflexivity.
Defined.

Lemma base_commit_writes_when_changed_witness :
  exists m' bs',
    bootState20Base_commit base_next_2 world_default
    = (Modeenv_Write m' ;;; ret bs') world_default
    /\ m' = mkModeenv "core20_1.snap" "core20_2.snap" TryStatus
                      ["pc-kernel_100.snap"].
Proof.
  eexists _, _. split.
  - apply (proj2 (base_commit_writes_when_changed (P:=Info) base_next_2
                    modeenv_default world_default eq_refl)).
    discriminate.
  - reflexivity.
Defined.

Lemma markSuccessful_commit_base_only_witness :
  exists plan',
    bootState20MarkSuccessful_commit plan_base_only world_default
    = (Ok plan', world_default).
Proof.
  eexists.
  apply (proj1 (markSuccessful_commit_base_only (P:=Info) plan_base_only
                  modeenv_default world_default eq_refl eq_refl)).
  reflexivity.
Defined.

Lemma markSuccessful_both_plan_witness :
  exists snk snb,
    bootedKernelSnap (msKernel plan_trying) = Some snk
    /\ bootedBaseSnap (msBase plan_trying) = Some snb
    /\ forall w msg,
        (bootState20MarkSuccessful_commit plan_trying w).1 <> Panic msg.
Proof.
  destruct (proj1 (markSuccessful_both_plan (P:=Info) bootState20Kernel_zero
                     bootState20Base_zero world_trying
                     (bootState20Kernel_markSuccessful bootState20Kernel_zero
                        None world_trying).2)
              (mkBootState20Kernel (Some kmut_trying) None None
                 (mkBootState20Modeenv None))
              (UpdateMarkSuccessful
                 (mkBootState20MarkSuccessful bootState20Base_zero
                    (mkBootState20Kernel (Some kmut_trying) (Some k101) None
                       (mkBootState20Modeenv None))))
              (mkBootState20Base (mkBootState20Modeenv (Some modeenv_trying))
                 DefaultStatus None None)
              (UpdateMarkSuccessful plan_trying))
    as (plan & snk & snb & Hp & H).
  - vm_compute. reflexivity.
  - vm_compute. reflexivity.
  - injection Hp as <-. by exists snk, snb.
Defined.

Lemma markSuccessful_kernel_only_panics_witness :
  exists plan msg,
    (bootState20Kernel_markSuccessful bootState20Kernel_zero None world_trying).1
    = Ok (mkBootState20Kernel (Some kmut_trying) None None
            (mkBootState20Modeenv None), UpdateMarkSuccessful plan)
    /\ (bootState20MarkSuccessful_commit plan world_trying).1 = Panic msg
    /\ modeenvFile (bootState20MarkSuccessful_commit plan world_trying).2
       = Some modeenv_trying.
Proof.
  destruct (markSuccessful_kernel_only_panics (P:=Info) bootState20Kernel_zero
              world_trying
              (mkBootState20Kernel (Some kmut_trying) None None
                 (mkBootState20Modeenv None))
              (UpdateMarkSuccessful
                 (mkBootState20MarkSuccessful bootState20Base_zero
                    (mkBootState20Kernel (Some kmut_trying) (Some k101) None
                       (mkBootState20Modeenv None)))) eq_refl)
    as (plan & k & sn & Hp & Hk & Hsn & H).
  injection Hp as <-. injection Hk as <-. injection Hsn as <-.
  destruct (H world_trying eq_refl) as ((msg & Hpanic) & _ & Hfile).
  eexists _, msg. split; [reflexivity|]. split; [exact Hpanic | exact Hfile].
Defined.

Lemma markSuccessful_rejects_other_updates_witness :
  (bootState20Base_markSuccessful bootState20Base_zero
     (Some (UpdateKernel kernel_next_101)) world_default).1
  = Err (Errorf ("internal error, cannot thread *boot.bootState20Kernel "
                 ++ "with update for UC20")).
Proof.
  destruct (markSuccessful_rejects_other_updates (P:=Info)
              bootState20Kernel_zero bootState20Base_zero
              (UpdateKernel kernel_next_101) world_default) as (_ & _ & H).
  - intros plan [=].
  - by erewrite H.
Defined.

Lemma kernel_commit_same_kernel_witness :
  bootState20Kernel_commit kernel_next_100 world_default
  = (ebl_SetBootVars {[ "kernel_status" := DefaultStatus ]} ;;;
     ret kernel_next_100) world_default.
Proof.
  apply (proj2 (kernel_commit_same_kernel (P:=Info) kernel_next_100
                  (mkKmerki TryStatus DefaultStatus k100) k100 world_default
                  eq_refl eq_refl eq_refl)).
  discriminate.
Defined.

Lemma kernel_commit_keeps_kernel_witness :
  kernelRef (bootState20Kernel_commit kernel_next_101 world_default).2
  = Some k100.
Proof.
  apply (proj1 (kernel_commit_keeps_kernel (P:=Info) kernel_next_101
                  world_default)).
Defined.

Lemma base_update_round_trip_witness :
  modeenvFile (stageBase core20_2 world_default).2
  = Some (mkModeenv "core20_1.snap" "core20_2.snap" TryStatus
                    ["pc-kernel_100.snap"])
  /\ modeenvFile
       (markBaseSuccessful
          (bootScript_base (stageBase core20_2 world_default).2)).2
     = Some (mkModeenv "core20_2.snap" EmptyString DefaultStatus
                       ["pc-kernel_100.snap"]).
Proof.
  destruct (base_update_round_trip (P:=Info) world_default modeenv_default
              core20_1 core20_2 core20_2) as (_ & H1 & _ & H2 & _).
  - intros h c. reflexivity.
  - reflexivity.
  - reflexivity.
  - discriminate.
  - reflexivity.
  - intros [_ [=]].
  - discriminate.
  - reflexivity.
  - reflexivity.
  - split; [exact H1 | exact H2].
Defined.

Lemma kernel_update_round_trip_witness :
  kernelRef (stageKernel k101 world_default).2 = Some k100
  /\ tryKernelRef (stageKernel k101 world_default).2 = Some k101
  /\ kernelRef
       (markBootSuccessful
          (bootScript_kernel (stageKernel k101 world_default).2)).2
     = Some k101
  /\ tryKernelRef
       (markBootSuccessful
          (bootScript_kernel (stageKernel k101 world_default).2)).2
     = None.
Proof.
  destruct (kernel_update_round_trip (P:=Info) world_default modeenv_default
              k100 k101 core20_1)
    as (_ & _ & _ & Hk1 & Ht1 & _ & _ & _ & Hk2 & Ht2).
  - intros h c. reflexivity.
  - reflexivity.
  - reflexivity.
  - reflexivity.
  - reflexivity.
  - reflexivity.
  - discriminate.
  - reflexivity.
  - intros [_ [=]].
  - discriminate.
  - by repeat split.
Defined.

Lemma base_setNext_current_keeps_try_base_witness :
  modeenvFile (stageBase core20_1 world_try_undecodable).2
  = Some (mkModeenv "core20_1.snap" "not-a-snap-file" DefaultStatus
                    ["pc-kernel_100.snap"]).
Proof.
  destruct (base_setNext_current_keeps_try_base (P:=Info)
              world_try_undecodable modeenv_try_undecodable core20_1 core20_1)
    as (_ & H & _).
  - intros h c. reflexivity.
  - reflexivity.
  - discriminate.
  - discriminate.
  - reflexivity.
  - split; reflexivity.
  - exact H.
Defined.

Lemma kernel_setNext_current_keeps_try_kernel_witness :
  index (bootVars (stageKernel k100 world_kernel_staged).2) "kernel_status"
  = DefaultStatus
  /\ modeenvFile (stageKernel k100 world_kernel_staged).2 = Some modeenv_trying
  /\ tryKernelRef (stageKernel k100 world_kernel_staged).2 = Some k101.
Proof.
  destruct (kernel_setNext_current_keeps_try_kernel (P:=Info)
              world_kernel_staged modeenv_trying k100 k100)
    as (_ & Hs & Hm & _ & Ht & _).
  - intros h c. reflexivity.
  - reflexivity.
  - reflexivity.
  - reflexivity.
  - reflexivity.
  - split; reflexivity.
  - reflexivity.
  - split; [exact Hs|]. split; [exact Hm | exact Ht].
Defined.

Lemma commits_keep_trust_witness :
  trusted (bootState20MarkSuccessful_commit plan_trying world_trying_faulty).2.
Proof.
  refine (proj1 (proj2 (commits_keep_trust world_trying_faulty _))
            plan_trying kmut_trying k101 modeenv_trying
            eq_refl eq_refl eq_refl eq_refl eq_refl (or_intror eq_refl)).
  exists modeenv_trying. split; [reflexivity|]. split; [|split].
  - intros k [= <-]. vm_compute. by left.
  - intros t [= <-]. vm_compute. right. by left.
  - intros _. by eexists.
Defined.

Lemma operations_keep_trust_witness :
  trusted (stageKernel k101 world_default).2
  /\ trusted (markBootSuccessful world_default).2.
Proof.
  destruct (operations_keep_trust world_default k101) as (Hs & Hm & _).
  - exists modeenv_default. split; [reflexivity|]. split; [|split].
    + intros k [= <-]. vm_compute. by left.
    + intros t [=].
    + intros [=].
  - split; [|exact Hm]. apply Hs. intros cur [= <-] Heq.
    vm_compute in Heq. discriminate Heq.
Defined.

(** ** Disks and their partitions *)

Lemma append_String c a b : (String c a ++ b)%string = String c (a ++ b).
Proof. reflexivity. Qed.

Lemma append_Empty b : (EmptyString ++ b)%string = b.
Proof. reflexivity. Qed.

Lemma append_assoc a b c : ((a ++ b) ++ c)%string = (a ++ (b ++ c))%string.
Proof.
  induction a as [|x a IH]; [done|]. rewrite !append_String. by rewrite IH.
Qed.

Lemma digits_app a b acc :
  digits (a ++ b) acc
  = match digits a acc with Some n => digits b n | None => None end.
Proof.
  revert acc. induction a as [|c a IH]; intros acc; [done|].
  rewrite append_String. cbn. destruct (decide _); [apply IH | done].
Qed.

Lemma pretty_N_go_app x s : pretty_N_go x s = (pretty_N_go x EmptyString ++ s)%string.
Proof.
  revert s. induction (N.lt_wf_0 x) as [x _ IH]; intros s.
  destruct (decide (0 < x)%N) as [Hx|Hx].
  - rewrite !(pretty_N_go_step x) by done.
    assert (x `div` 10 < x)%N as Hlt by (by apply N.div_lt).
    rewrite (IH _ Hlt (String _ s)), (IH _ Hlt (String _ EmptyString)).
    by rewrite append_assoc.
  - assert (x = 0%N) as -> by lia. by rewrite !pretty_N_go_0.
Qed.

Lemma N_of_pretty_N_char d :
  (d < 10)%N -> N_of_ascii (pretty_N_char d) = (48 + d)%N.
Proof.
  intros Hd.
  assert (d = 0 ∨ d = 1 ∨ d = 2 ∨ d = 3 ∨ d = 4 ∨ d = 5 ∨ d = 6 ∨ d = 7
          ∨ d = 8 ∨ d = 9)%N as Hc by lia.
  repeat destruct Hc as [->|Hc]; try subst d; reflexivity.
Qed.

Lemma digits_pretty_N_go x : digits (pretty_N_go x EmptyString) 0 = Some x.
Proof.
  induction (N.lt_wf_0 x) as [x _ IH].
  destruct (decide (0 < x)%N) as [Hx|Hx].
  - rewrite pretty_N_go_step, pretty_N_go_app, digits_app by done.
    rewrite IH by (by apply N.div_lt). cbn.
    assert (x `mod` 10 < 10)%N as Hm by (apply N.mod_lt; lia).
    rewrite N_of_pretty_N_char by done.
    pose proof (N.div_mod x 10 ltac:(lia)) as Hdm.
    set (r := (x `mod` 10)%N) in *. set (q := (x `div` 10)%N) in *.
    clearbody r q. rewrite decide_True by lia. f_equal. lia.
  - assert (x = 0%N) as -> by lia. by rewrite pretty_N_go_0.
Qed.

Lemma digits_pretty (n : N) : digits (pretty n) 0 = Some n.
Proof.
  unfold pretty, pretty_N. destruct (decide (n = 0%N)) as [->|]; [done|].
  apply digits_pretty_N_go.
Qed.

(** A string of digits holds no other byte. *)
Lemma digits_splitAt a b acc n sep :
  ~ (48 <= N_of_ascii sep < 58)%N ->
  digits a acc = Some n ->
  splitAt sep (a ++ String sep b) = Some (a, b).
Proof.
  intros Hsep. revert acc. induction a as [|c a IH]; intros acc.
  - intros _. rewrite append_Empty. cbn. by rewrite decide_True.
  - rewrite append_String. cbn. destruct (decide (48 ≤ N_of_ascii c < 58)%N) as [Hc|]; [|done].
    intros Hd. rewrite decide_False by (intros ->; done).
    by rewrite (IH _ Hd).
Qed.

Lemma digits_nonempty_first a acc n :
  digits a acc = Some n -> a <> EmptyString ->
  exists c r, a = String c r /\ c <> "-"%char /\ c <> "+"%char.
Proof.
  destruct a as [|c r]; [done|]. cbn.
  destruct (decide (48 ≤ N_of_ascii c < 58)%N) as [Hc|]; [|done].
  intros _ _. exists c, r. split; [done|]. split; intros ->; cbn in Hc; lia.
Qed.

Lemma pretty_N_nonempty (n : N) : pretty n <> EmptyString.
Proof.
  intros Hn. pose proof (digits_pretty n) as Hd. rewrite Hn in Hd. cbn in Hd.
  injection Hd as <-. by vm_compute in Hn.
Qed.

(** [splitAt] cuts at the first separator. *)
Lemma splitAt_Some sep s a b :
  splitAt sep s = Some (a, b) ->
  s = (a ++ String sep b)%string /\ splitAt sep a = None.
Proof.
  revert a. induction s as [|c s IH]; intros a; cbn; [done|].
  destruct (decide (c = sep)) as [->|Hc].
  - by intros [= <- <-].
  - destruct (splitAt sep s) as [[a' b']|] eqn:E; [|done].
    intros [= <- <-]. destruct (IH a' eq_refl) as [-> Hn].
    split; [done|]. cbn. by rewrite decide_False, Hn by done.
Qed.

Lemma splitAt_app sep a b :
  splitAt sep a = None -> splitAt sep (a ++ String sep b) = Some (a, b).
Proof.
  induction a as [|c a IH].
  - intros _. rewrite append_Empty. cbn. by rewrite decide_True.
  - rewrite append_String. cbn. destruct (decide (c = sep)); [done|].
    destruct (splitAt sep a) as [[??]|]; [done|]. intros _. by rewrite IH.
Qed.

Lemma splitAt_None_Contains sep s :
  splitAt sep s = None <-> Contains s (String sep EmptyString) = false.
Proof.
  induction s as [|c s IH]; cbn; [done|].
  destruct (decide (c = sep)) as [->|Hc].
  - split; [done|]. destruct (ascii_dec sep sep); [|done].
    by destruct s.
  - destruct (ascii_dec sep c) as [->|]; [done|]. cbn.
    destruct (splitAt sep s) as [[??]|].
    + split; [done|]. intros Hn. by apply IH in Hn.
    + split; [|done]. intros _. by apply IH.
Qed.

(** After the first colon of a string with two colons there is a colon. *)
Lemma splitAt_two sep a b c x y :
  splitAt sep (a ++ String sep (b ++ String sep c)) = Some (x, y) ->
  exists y1 y2, y = (y1 ++ String sep y2)%string.
Proof.
  revert x. induction a as [|ch a IH]; intros x.
  - rewrite append_Empty. cbn. rewrite decide_True by done.
    intros [= <- <-]. by exists b, c.
  - rewrite append_String. cbn. destruct (decide (ch = sep)).
    + intros [= <- <-]. by eexists a, _.
    + destruct (splitAt sep _) as [[x' y']|] eqn:E; [|done].
      intros [= <- <-]. by apply (IH x').
Qed.

Lemma digits_colon a b acc : digits (a ++ String ":" b) acc = None.
Proof. rewrite digits_app. by destruct (digits a acc). Qed.

Lemma find_first {A} (f : A -> bool) l x :
  List.find f l = Some x ->
  exists l1 l2, l = l1 ++ x :: l2 /\ f x = true
                /\ Forall (fun y => f y = false) l1.
Proof.
  induction l as [|y l IH]; cbn; [done|].
  destruct (f y) eqn:E.
  - intros [= <-]. by exists [], l.
  - intros Hf. destruct (IH Hf) as (l1 & l2 & -> & Hx & Hl1).
    exists (y :: l1), l2. split; [done|]. split; [done|]. by constructor.
Qed.

Lemma find_first_eq {A} (f : A -> bool) l1 x l2 :
  f x = true -> Forall (fun y => f y = false) l1 ->
  List.find f (l1 ++ x :: l2) = Some x.
Proof.
  intros Hx. induction 1 as [|y l1 Hy _ IH]; cbn.
  - by rewrite Hx.
  - by rewrite Hy.
Qed.

Lemma find_none_eq {A} (f : A -> bool) l :
  Forall (fun y => f y = false) l -> List.find f l = None.
Proof. induction 1 as [|y l Hy _ IH]; cbn; [done|]. by rewrite Hy. Qed.

Section disks_properties.
Context {lib : GoLib}.

Implicit Types (sys : System) (d : disk).

Lemma intSize_pos : (0 < intSize)%Z.
Proof. destruct intSize_cases as [-> | ->]; lia. Qed.

Lemma minInt_maxInt : (minInt < 0 <= maxInt)%Z.
Proof.
  unfold minInt, maxInt. pose proof intSize_pos.
  assert (0 < 2 ^ (intSize - 1))%Z by (apply Z.pow_pos_nonneg; lia). lia.
Qed.

Lemma Atoi_unsigned s n :
  s <> EmptyString -> digits s 0 = Some n ->
  Atoi s = if decide (minInt <= Z.of_N n <= maxInt)%Z
           then Some (Z.of_N n) else None.
Proof.
  intros Hs Hd.
  destruct (digits_nonempty_first _ _ _ Hd Hs) as (c & r & -> & Hm & Hp).
  unfold Atoi. destruct (decide (c = "-"%char)); [done|].
  destruct (decide (c = "+"%char)); [done|]. by rewrite Hd.
Qed.

Lemma Atoi_negative s n :
  s <> EmptyString -> digits s 0 = Some n ->
  Atoi (String "-" s)
  = if decide (minInt <= - Z.of_N n <= maxInt)%Z
    then Some (- Z.of_N n)%Z else None.
Proof.
  intros Hs Hd. unfold Atoi. rewrite decide_True by done.
  destruct s; [done|]. by rewrite Hd.
Qed.

Lemma Atoi_Sprintf_d z :
  (minInt <= z <= maxInt)%Z -> Atoi (Sprintf_d z) = Some z.
Proof.
  intros Hz. unfold Sprintf_d, pretty, pretty_Z.
  destruct z as [|p|p].
  - rewrite (Atoi_unsigned "0" 0%N) by done.
    pose proof minInt_maxInt. by rewrite decide_True by lia.
  - change (pretty p) with (pretty (Npos p)).
    rewrite (Atoi_unsigned _ (Npos p))
      by (apply pretty_N_nonempty || apply digits_pretty).
    by rewrite decide_True by lia.
  - change (pretty p) with (pretty (Npos p)).
    change ("-" +:+ pretty (Npos p)) with (String "-" (pretty (Npos p))).
    rewrite (Atoi_negative _ (Npos p))
      by (apply pretty_N_nonempty || apply digits_pretty).
    by rewrite decide_True by lia.
Qed.

Lemma splitAt_Sprintf_d z b :
  splitAt ":" (Sprintf_d z ++ String ":" b) = Some (Sprintf_d z, b).
Proof.
  unfold Sprintf_d, pretty, pretty_Z. destruct z as [|p|p].
  - reflexivity.
  - change (pretty p) with (pretty (Npos p)).
    apply (digits_splitAt _ _ 0%N (Npos p)); [cbn; lia | apply digits_pretty].
  - change (pretty p) with (pretty (Npos p)).
    change ("-" +:+ pretty (Npos p)) with (String "-" (pretty (Npos p))).
    rewrite append_String. cbn [splitAt]. rewrite decide_False by done.
    by rewrite (digits_splitAt _ _ 0%N (Npos p))
      by (cbn; try lia; apply digits_pretty).
Qed.

Lemma parseDeviceMajorMinor_Sprintf maj min :
  (minInt <= maj <= maxInt)%Z -> (minInt <= min <= maxInt)%Z ->
  parseDeviceMajorMinor (Sprintf_d maj ++ ":" ++ Sprintf_d min)
  = inr (maj, min).
Proof.
  intros Hmaj Hmin. unfold parseDeviceMajorMinor, SplitN2.
  change (":" ++ Sprintf_d min)%string with (String ":" (Sprintf_d min)).
  rewrite splitAt_Sprintf_d. by rewrite !Atoi_Sprintf_d.
Qed.

(** X17: [Dev] and [parseDeviceMajorMinor] are inverse to each other on
    the device numbers an int can hold: parsing the string that [Dev] prints
    for a disk gives back its major and minor numbers, negative ones
    included. *)
Theorem parseDeviceMajorMinor_Dev (d : disk) :
  (minInt <= major d <= maxInt)%Z -> (minInt <= minor d <= maxInt)%Z ->
  parseDeviceMajorMinor (Dev d) = inr (major d, minor d).
Proof.
  intros Hmaj Hmin. unfold parseDeviceMajorMinor, Dev, SplitN2.
  change (":" ++ Sprintf_d (minor d))%string
    with (String ":" (Sprintf_d (minor d))).
  rewrite splitAt_Sprintf_d.
  rewrite (Atoi_Sprintf_d (major d)) by done.
  by rewrite (Atoi_Sprintf_d (minor d)) by done.
Qed.

Lemma Atoi_colon a b : Atoi (a ++ String ":" b) = None.
Proof.
  unfold Atoi. destruct a as [|c a].
  - rewrite append_Empty. rewrite !decide_False by done.
    by rewrite (digits_colon EmptyString b 0 : digits (String ":" b) 0 = None).
  - rewrite append_String.
    destruct (decide (c = "-"%char)); [|destruct (decide (c = "+"%char))].
    + rewrite digits_colon. by destruct (a ++ String ":" b)%string.
    + rewrite digits_colon. by destruct (a ++ String ":" b)%string.
    + by rewrite (digits_colon (String c a) b 0
                  : digits (String c (a ++ String ":" b)) 0 = None).
Qed.

Lemma Atoi_range s v : Atoi s = Some v -> (minInt <= v <= maxInt)%Z.
Proof.
  unfold Atoi.
  destruct (match s with
            | EmptyString => (false, s)
            | String c rest => _
            end) as [neg ds].
  destruct ds; [done|]. destruct (digits _ _); [|done].
  cbv zeta. destruct (decide _); [|done]. by intros [= <-].
Qed.

Lemma parseDeviceMajorMinor_range s maj min :
  parseDeviceMajorMinor s = inr (maj, min) ->
  (minInt <= maj <= maxInt)%Z /\ (minInt <= min <= maxInt)%Z.
Proof.
  unfold parseDeviceMajorMinor, SplitN2.
  destruct (splitAt ":" s) as [[a b]|]; [|done].
  destruct (Atoi a) as [x|] eqn:Ea; [|done].
  destruct (Atoi b) as [y|] eqn:Eb; [|done].
  intros [= <- <-]. split; by eapply Atoi_range.
Qed.

(** X18: what [parseDeviceMajorMinor] rejects.  Every failure is the one
    error "invalid device number format: (expected <int>:<int>)"; a string
    without a colon fails, and so does a string with two colons, since only
    the first colon separates; and the numbers of a successful parse fit an
    int. *)
Theorem parseDeviceMajorMinor_errors :
  (forall s e, parseDeviceMajorMinor s = inl e -> e = errMsg)
  /\ (forall s, Contains s ":" = false -> parseDeviceMajorMinor s = inl errMsg)
  /\ (forall a b c,
         parseDeviceMajorMinor (a ++ ":" ++ b ++ ":" ++ c) = inl errMsg)
  /\ (forall s maj min,
         parseDeviceMajorMinor s = inr (maj, min) ->
         (minInt <= maj <= maxInt)%Z /\ (minInt <= min <= maxInt)%Z).
Proof.
  split; [|split; [|split]].
  - intros s e. unfold parseDeviceMajorMinor, SplitN2.
    destruct (splitAt ":" s) as [[a b]|]; [|by intros [= <-]].
    destruct (Atoi a); [|by intros [= <-]].
    destruct (Atoi b); [done|by intros [= <-]].
  - intros s Hs. apply splitAt_None_Contains in Hs.
    unfold parseDeviceMajorMinor, SplitN2. by rewrite Hs.
  - intros a b c. unfold parseDeviceMajorMinor, SplitN2.
    destruct (splitAt ":" _) as [[x y]|] eqn:E; [|done].
    apply splitAt_two in E as (y1 & y2 & ->).
    rewrite Atoi_colon. by destruct (Atoi x).
  - apply parseDeviceMajorMinor_range.
Qed.

(** The map that [parseUdevProperties] builds from the lines read so far. *)
Lemma parseUdevProperties_snoc lines line err :
  (parseUdevProperties (lines ++ [line], err)).1
  = match SplitN2 line "=" with
    | [k; v] => <[k := v]> (parseUdevProperties (lines, err)).1
    | _ => (parseUdevProperties (lines, err)).1
    end.
Proof. unfold parseUdevProperties. cbn. by rewrite fold_left_app. Qed.

Lemma parseUdevProperties_lookup_In lines err k v :
  (parseUdevProperties (lines, err)).1 !! k = Some v ->
  Contains k "=" = false /\ In (k ++ "=" ++ v)%string lines.
Proof.
  revert k v. induction lines as [|line lines IH] using rev_ind; intros k v.
  - by cbn.
  - rewrite parseUdevProperties_snoc. unfold SplitN2.
    destruct (splitAt "=" line) as [[k' v']|] eqn:E.
    + destruct (decide (k' = k)) as [->|Hk].
      * rewrite lookup_insert_eq. intros [= <-].
        apply splitAt_Some in E as [-> Hn].
        split; [by apply splitAt_None_Contains|].
        apply in_or_app. right. by left.
      * rewrite lookup_insert_ne by done. intros Hl.
        destruct (IH _ _ Hl). split; [done|]. apply in_or_app. by left.
    + intros Hl. destruct (IH _ _ Hl). split; [done|].
      apply in_or_app. by left.
Qed.

Lemma prefix_key k v : String.prefix (k ++ "=") (k ++ String "=" v) = true.
Proof.
  induction k as [|c k IHk].
  - rewrite !append_Empty. cbn. by destruct v.
  - rewrite !append_String. cbn. by destruct (ascii_dec c c).
Qed.

Lemma parseUdevProperties_lookup_last lines err l1 l2 k v :
  lines = l1 ++ (k ++ "=" ++ v)%string :: l2 ->
  Contains k "=" = false ->
  Forall (fun line => String.prefix (k ++ "=") line = false) l2 ->
  (parseUdevProperties (lines, err)).1 !! k = Some v.
Proof.
  revert lines. induction l2 as [|line l2 IH] using rev_ind;
    intros lines -> Hk Hl2.
  - rewrite parseUdevProperties_snoc. unfold SplitN2.
    change (k ++ "=" ++ v)%string with (k ++ String "=" v)%string.
    rewrite splitAt_app by (by apply splitAt_None_Contains).
    by rewrite lookup_insert_eq.
  - rewrite Forall_app, Forall_singleton in Hl2.
    destruct Hl2 as [Hl2 Hline].
    rewrite app_comm_cons, app_assoc, parseUdevProperties_snoc.
    unfold SplitN2.
    destruct (splitAt "=" line) as [[k' v']|] eqn:E; [|by apply IH].
    rewrite lookup_insert_ne; [by apply IH|].
    intros ->. apply splitAt_Some in E as [-> _].
    by rewrite prefix_key in Hline.
Qed.

(** X19: the map of [parseUdevProperties].  The error returned is the one
    of the scanner, with the map built from the lines read until then.
    Every binding of the map comes from a line key=value whose key has no
    equals sign; lines without an equals sign are skipped; and for a key
    that occurs more than once the last line wins.  The value is all that
    follows the first equals sign, other equals signs included. *)
Theorem parseUdevProperties_last_wins lines err :
  (parseUdevProperties (lines, err)).2 = err
  /\ (forall k v, (parseUdevProperties (lines, err)).1 !! k = Some v ->
                  Contains k "=" = false /\ In (k ++ "=" ++ v)%string lines)
  /\ (forall l1 l2 k v,
         lines = l1 ++ (k ++ "=" ++ v)%string :: l2 ->
         Contains k "=" = false ->
         Forall (fun line => String.prefix (k ++ "=") line = false) l2 ->
         (parseUdevProperties (lines, err)).1 !! k = Some v).
Proof.
  split; [done|]. split.
  - apply parseUdevProperties_lookup_In.
  - intros l1 l2 k v. apply parseUdevProperties_lookup_last.
Qed.

Lemma findMount_first mounts pre e post mountpoint :
  mounts = pre ++ e :: post ->
  Forall (fun m => MountDir m <> mountpoint) pre ->
  MountDir e = mountpoint ->
  findMount mounts mountpoint
  = Some (mkPartition (DevMajor e) (DevMinor e) EmptyString EmptyString
                      (MountSource e)).
Proof.
  intros -> Hpre He. induction Hpre as [|m pre Hm _ IH]; cbn.
  - by rewrite decide_True.
  - by rewrite decide_False.
Qed.

Lemma findMount_None mounts mountpoint :
  Forall (fun m => MountDir m <> mountpoint) mounts ->
  findMount mounts mountpoint = None.
Proof.
  induction 1 as [|m ms Hm _ IH]; cbn; [done|]. by rewrite decide_False.
Qed.

(** X20: finding the disk of a mount point, end to end.  The first entry
    of the mount table for the mount point decides, later entries for the
    same mount point are not looked at; when udevadm succeeds for its mount
    source and the last ID_PART_ENTRY_DISK line of the output holds
    major:minor, the disk with these numbers and no partitions is returned,
    also when the scanner stopped with an error after that line. *)
Theorem diskFromMountPointImpl_found
    sys mountpoint opts pre e post out l1 l2 serr maj min :
  LoadMountInfo sys = inr (pre ++ e :: post) ->
  Forall (fun m => MountDir m <> mountpoint) pre ->
  MountDir e = mountpoint ->
  udevadmProperties sys (MountSource e) = (out, None) ->
  Scanner out
  = (l1 ++ ("ID_PART_ENTRY_DISK=" ++ Sprintf_d maj ++ ":" ++ Sprintf_d min)%string
        :: l2, serr) ->
  Forall (fun line => String.prefix "ID_PART_ENTRY_DISK=" line = false) l2 ->
  (minInt <= maj <= maxInt)%Z -> (minInt <= min <= maxInt)%Z ->
  diskFromMountPointImpl sys mountpoint opts = inr (mkDisk maj min None).
Proof.
  intros Hm Hpre He Hu Hs Hl2 Hmaj Hmin.
  unfold diskFromMountPointImpl. rewrite Hm.
  rewrite (findMount_first _ pre e post) by done. cbn [path].
  unfold udevProperties. rewrite Hu, Hs.
  destruct (parseUdevProperties _) as [m err] eqn:E.
  assert (Hk : m !! "ID_PART_ENTRY_DISK"
               = Some (Sprintf_d maj ++ ":" ++ Sprintf_d min)%string).
  { change m with (m, err).1. rewrite <- E.
    by eapply parseUdevProperties_lookup_last. }
  pose proof (parseDeviceMajorMinor_Sprintf maj min Hmaj Hmin) as Hp.
  destruct err; cbn [default]; unfold id; by rewrite Hk, Hp.
Qed.

Lemma findMount_Some mounts mountpoint part :
  findMount mounts mountpoint = Some part ->
  exists e, In e mounts /\ MountDir e = mountpoint
            /\ path part = MountSource e.
Proof.
  induction mounts as [|m ms IH]; cbn; [done|].
  destruct (decide (MountDir m = mountpoint)).
  - intros [= <-]. exists m. split; [by left|done].
  - intros Hf. destruct (IH Hf) as (e & ? & ? & ?). exists e.
    split; [by right|done].
Qed.

Lemma diskFromMountPointImpl_inr sys mountpoint opts d :
  diskFromMountPointImpl sys mountpoint opts = inr d ->
  partitions d = None
  /\ (minInt <= major d <= maxInt)%Z /\ (minInt <= minor d <= maxInt)%Z
  /\ exists mounts e,
      LoadMountInfo sys = inr mounts /\ In e mounts
      /\ MountDir e = mountpoint
      /\ (udevadmProperties sys (MountSource e)).2 = None.
Proof.
  unfold diskFromMountPointImpl.
  destruct (LoadMountInfo sys) as [err|mounts]; [done|].
  destruct (findMount mounts mountpoint) as [part|] eqn:Ef; [|done].
  apply findMount_Some in Ef as (e & Hin & He & Hpath). rewrite Hpath.
  unfold udevProperties.
  destruct (udevadmProperties sys (MountSource e)) as [out [uerr|]] eqn:Eu;
    [done|].
  destruct (parseUdevProperties (Scanner out)) as [m perr].
  assert (Hgoal :
    match default ∅ (Some m) !! "ID_PART_ENTRY_DISK" with
    | Some majorMinor =>
        match parseDeviceMajorMinor majorMinor with
        | inl err =>
            inl (Errorf ("cannot find disk for partition " ++ MountSource e
                         ++ ", bad udev output: " ++ Error err))
        | inr (maj, min) => inr (mkDisk maj min None)
        end
    | None =>
        inl (Errorf ("cannot find disk for partition " ++ MountSource e
                     ++ ", incomplete udev output"))
    end = inr d ->
    partitions d = None
    /\ (minInt <= major d <= maxInt)%Z /\ (minInt <= minor d <= maxInt)%Z).
  { destruct (_ !! _) as [mm|]; [|done].
    destruct (parseDeviceMajorMinor mm) as [?|[maj min]] eqn:Ep; [done|].
    intros [= <-]. apply parseDeviceMajorMinor_range in Ep. by cbn. }
  intros Hd.
  assert (partitions d = None
          /\ (minInt <= major d <= maxInt)%Z
          /\ (minInt <= minor d <= maxInt)%Z) as (? & ? & ?).
  { destruct perr; by apply Hgoal. }
  do 3 (split; [done|]). exists mounts, e. by rewrite Eu.
Qed.

(** X21: every disk that [diskFromMountPointImpl] returns has no
    partitions loaded yet and device numbers that fit an int, so that
    [parseDeviceMajorMinor] reads them back from its [Dev]; and it is
    returned only when the mount table has an entry for the mount point
    for whose mount source udevadm succeeded. *)
Theorem diskFromMountPointImpl_disk sys mountpoint opts d :
  diskFromMountPointImpl sys mountpoint opts = inr d ->
  partitions d = None
  /\ (minInt <= major d <= maxInt)%Z /\ (minInt <= minor d <= maxInt)%Z
  /\ parseDeviceMajorMinor (Dev d) = inr (major d, minor d)
  /\ exists mounts e,
      LoadMountInfo sys = inr mounts /\ In e mounts
      /\ MountDir e = mountpoint
      /\ (udevadmProperties sys (MountSource e)).2 = None.
Proof.
  intros Hd. destruct (diskFromMountPointImpl_inr _ _ _ _ Hd)
    as (Hp & Hmaj & Hmin & He).
  do 3 (split; [done|]). split; [|done].
  by apply parseDeviceMajorMinor_Sprintf.
Qed.

(** X22: the failures of [diskFromMountPointImpl].  An error of
    LoadMountInfo is returned as it is; a mount point without entry gives
    "cannot find mountpoint <quoted>"; a failure of udevadm for the mount
    source gives "cannot find disk for partition <source>: <error>" with the
    error that OutputErr builds; and an output without line
    ID_PART_ENTRY_DISK gives "... incomplete udev output". *)
Theorem diskFromMountPointImpl_failures sys mountpoint opts :
  (forall err, LoadMountInfo sys = inl err ->
               diskFromMountPointImpl sys mountpoint opts = inl err)
  /\ (forall mounts,
         LoadMountInfo sys = inr mounts ->
         Forall (fun m => MountDir m <> mountpoint) mounts ->
         diskFromMountPointImpl sys mountpoint opts
         = inl (Errorf ("cannot find mountpoint " ++ Quote mountpoint)))
  /\ (forall pre e post,
         LoadMountInfo sys = inr (pre ++ e :: post) ->
         Forall (fun m => MountDir m <> mountpoint) pre ->
         MountDir e = mountpoint ->
         (forall out err,
             udevadmProperties sys (MountSource e) = (out, Some err) ->
             diskFromMountPointImpl sys mountpoint opts
             = inl (Errorf ("cannot find disk for partition "
                            ++ MountSource e ++ ": "
                            ++ Error (OutputErr out err))))
         /\ (forall out,
                udevadmProperties sys (MountSource e) = (out, None) ->
                Forall (fun line =>
                          String.prefix "ID_PART_ENTRY_DISK=" line = false)
                       (Scanner out).1 ->
                diskFromMountPointImpl sys mountpoint opts
                = inl (Errorf ("cannot find disk for partition "
                               ++ MountSource e
                               ++ ", incomplete udev output")))).
Proof.
  split; [|split].
  - intros err Hm. unfold diskFromMountPointImpl. by rewrite Hm.
  - intros mounts Hm Hall. unfold diskFromMountPointImpl.
    by rewrite Hm, findMount_None.
  - intros pre e post Hm Hpre He. split.
    + intros out err Hu. unfold diskFromMountPointImpl. rewrite Hm.
      rewrite (findMount_first _ pre e post) by done. cbn [path].
      unfold udevProperties. by rewrite Hu.
    + intros out Hu Hlines. unfold diskFromMountPointImpl. rewrite Hm.
      rewrite (findMount_first _ pre e post) by done. cbn [path].
      unfold udevProperties. rewrite Hu.
      destruct (Scanner out) as [lines serr].
      destruct (parseUdevProperties (lines, serr)) as [m perr] eqn:E.
      assert (Hk : m !! "ID_PART_ENTRY_DISK" = None).
      { destruct (m !! "ID_PART_ENTRY_DISK") as [v|] eqn:Ek; [|done].
        change m with (m, perr).1 in Ek. rewrite <- E in Ek.
        apply parseUdevProperties_lookup_In in Ek as [_ Hin].
        cbn in Hlines. rewrite Forall_forall in Hlines.
        apply list_elem_of_In in Hin.
        specialize (Hlines _ Hin).
        pose proof (prefix_key "ID_PART_ENTRY_DISK" v) as Hp.
        assert (true = false) as Habs
          by exact (eq_trans (eq_sym Hp) Hlines).
        done. }
      destruct perr; cbn [default]; unfold id; by rewrite Hk.
Qed.

(** X23: [MountPointIsFromDisk] agrees with [diskFromMountPointImpl].  The
    mount point a disk was found from is from that disk; for two mount
    points with their disks, asking whether the second is from the disk of
    the first answers as asking whether the first is from the disk of the
    second; an error of the lookup is returned as it is; and the partitions
    held by the disk play no role. *)
Theorem MountPointIsFromDisk_same_disk sys :
  (forall mountpoint opts opts' d,
      diskFromMountPointImpl sys mountpoint opts = inr d ->
      MountPointIsFromDisk sys d mountpoint opts' = inr true)
  /\ (forall mp1 mp2 o1 o2 o3 o4 d1 d2,
         diskFromMountPointImpl sys mp1 o1 = inr d1 ->
         diskFromMountPointImpl sys mp2 o2 = inr d2 ->
         MountPointIsFromDisk sys d1 mp2 o3
         = MountPointIsFromDisk sys d2 mp1 o4)
  /\ (forall d mountpoint opts err,
         diskFromMountPointImpl sys mountpoint opts = inl err ->
         MountPointIsFromDisk sys d mountpoint opts = inl err)
  /\ (forall d mountpoint opts ps,
         MountPointIsFromDisk sys (mkDisk (major d) (minor d) ps)
                              mountpoint opts
         = MountPointIsFromDisk sys d mountpoint opts).
Proof.
  assert (Hopts : forall mp o o',
             diskFromMountPointImpl sys mp o = diskFromMountPointImpl sys mp o')
    by done.
  split; [|split; [|split]].
  - intros mp o o' d Hd. unfold MountPointIsFromDisk.
    rewrite (Hopts mp o' o), Hd. by rewrite !bool_decide_true by done.
  - intros mp1 mp2 o1 o2 o3 o4 d1 d2 H1 H2. unfold MountPointIsFromDisk.
    rewrite (Hopts mp2 o3 o2), H2, (Hopts mp1 o4 o1), H1. f_equal.
    destruct (bool_decide_reflect (major d1 = major d2)),
      (bool_decide_reflect (major d2 = major d1)),
      (bool_decide_reflect (minor d1 = minor d2)),
      (bool_decide_reflect (minor d2 = minor d1)); cbn; congruence.
  - intros d mp o err Hd. unfold MountPointIsFromDisk. by rewrite Hd.
  - done.
Qed.

Lemma wrapInt_add a b : wrapInt (wrapInt a + b) = wrapInt (a + b).
Proof.
  unfold wrapInt. f_equal.
  replace ((a - minInt) `mod` 2 ^ intSize + minInt + b - minInt)%Z
    with ((a - minInt) `mod` 2 ^ intSize + b)%Z by lia.
  rewrite Z.add_mod_idemp_l.
  - f_equal. lia.
  - pose proof intSize_pos. apply Z.pow_nonzero; lia.
Qed.

Lemma wrapInt_range z : (minInt <= wrapInt z <= maxInt)%Z.
Proof.
  unfold wrapInt, minInt, maxInt. pose proof intSize_pos.
  assert (2 ^ intSize = 2 * 2 ^ (intSize - 1))%Z as Hp.
  { rewrite <- Z.pow_succ_r by lia. f_equal. lia. }
  assert (0 < 2 ^ (intSize - 1))%Z by (apply Z.pow_pos_nonneg; lia).
  rewrite Hp. set (M := (2 ^ (intSize - 1))%Z) in *.
  pose proof (Z.mod_pos_bound (z - - M) (2 * M) ltac:(lia)).
  set (r := ((z - - M) `mod` (2 * M))%Z) in *. clearbody r M. lia.
Qed.

(** The results of the loop do not depend on the fuel that is left over. *)
Lemma findPartitions_mono sys fuel fuel' d c r :
  findPartitions sys fuel d c = Some r -> (fuel <= fuel')%nat ->
  findPartitions sys fuel' d c = Some r.
Proof.
  revert fuel' d c. induction fuel as [|fuel IH]; intros fuel' d c; [done|].
  destruct fuel' as [|fuel']; [lia|]. intros Hr Hle. revert Hr.
  cbn [findPartitions].
  destruct (udevProperties sys _) as [props [err|]]; [done|].
  destruct (decide (props_index props "DEVTYPE" <> "partition")); [done|].
  destruct (decide (props_index props "ID_FS_LABEL" <> EmptyString));
    [destruct (decide (props_index props "ID_PART_ENTRY_UUID" <> EmptyString));
       [|done]|];
    intros Hr; apply IH; (done || lia).
Qed.

Lemma findPartitions_ends sys d c n :
  loop_ends sys (major d) (wrapInt (c + Z.of_nat (S n))) ->
  findPartitions sys (S n) d c <> None.
Proof.
  revert d c. induction n as [|n IH]; intros d c Hend.
  - revert Hend. unfold loop_ends. cbn [findPartitions Z.of_nat Pos.of_succ_nat].
    destruct (udevProperties sys _) as [props [err|]].
    { intros _. by destruct (Contains _ _). }
    intros [?|[?|[? Hu]]]; [done| |].
    + by rewrite decide_True.
    + destruct (decide (props_index props "DEVTYPE" <> "partition")); [done|].
      rewrite decide_True by done. rewrite Hu.
      by rewrite decide_False by (by intros ?).
  - assert (Hc : wrapInt (wrapInt (c + 1) + Z.of_nat (S n))
                 = wrapInt (c + Z.of_nat (S (S n)))).
    { rewrite wrapInt_add. f_equal. lia. }
    rewrite <- Hc in Hend.
    change (findPartitions sys (S (S n)) d c) with
      (let currentMinor := wrapInt (c + 1)%Z in
       let partMajMin :=
         (Sprintf_d (major d) ++ ":" ++ Sprintf_d currentMinor)%string in
       let '(props, err) :=
         udevProperties sys (filepath_Join "/dev/block" partMajMin) in
       match err with
       | Some err =>
           if Contains (Error err) "Unknown device" then Some (None, d)
           else Some (Some (Errorf ("cannot get udev properties for partition "
                                    ++ partMajMin ++ ": " ++ Error err)), d)
       | None =>
           if decide (props_index props "DEVTYPE" <> "partition")
           then Some (None, d)
           else
             let label := props_index props "ID_FS_LABEL" in
             if decide (label <> EmptyString) then
               let partuuid := props_index props "ID_PART_ENTRY_UUID" in
               if decide (partuuid <> EmptyString) then
                 let p := mkPartition (major d) currentMinor label partuuid
                                      EmptyString in
                 findPartitions sys (S n)
                   (mkDisk (major d) (minor d) (append (partitions d) p))
                   currentMinor
               else
                 Some (Some (Errorf
                         ("cannot get udev properties for partition "
                          ++ partMajMin ++ ", missing udev property "
                          ++ String "034" "ID_PART_ENTRY_UUID"
                          ++ String "034" EmptyString)), d)
             else findPartitions sys (S n) d currentMinor
       end).
    cbv zeta.
    destruct (udevProperties sys _) as [props [err|]].
    { by destruct (Contains _ _). }
    destruct (decide (props_index props "DEVTYPE" <> "partition")); [done|].
    destruct (decide (props_index props "ID_FS_LABEL" <> EmptyString));
      [destruct (decide (props_index props "ID_PART_ENTRY_UUID" <> EmptyString));
         [|done]|];
      by apply IH.
Qed.

(** What the loop leaves in the disk. *)
Lemma findPartitions_appends sys fuel d c err d' :
  findPartitions sys fuel d c = Some (err, d') ->
  major d' = major d /\ minor d' = minor d
  /\ exists new,
      default [] (partitions d') = default [] (partitions d) ++ new
      /\ (new = [] -> d' = d)
      /\ (new <> [] -> partitions d' <> None)
      /\ Forall (fun p => part_major p = major d
                          /\ label p <> EmptyString
                          /\ partuuid p <> EmptyString
                          /\ (minInt <= part_minor p <= maxInt)%Z) new.
Proof.
  revert d c. induction fuel as [|fuel IH]; intros d c; [done|].
  cbn [findPartitions].
  assert (Hstop : forall e, Some (e, d) = Some (err, d') ->
    major d' = major d /\ minor d' = minor d
    /\ exists new,
        default [] (partitions d') = default [] (partitions d) ++ new
        /\ (new = [] -> d' = d)
        /\ (new <> [] -> partitions d' <> None)
        /\ Forall (fun p => part_major p = major d
                            /\ label p <> EmptyString
                            /\ partuuid p <> EmptyString
                            /\ (minInt <= part_minor p <= maxInt)%Z) new).
  { intros e [= <- <-]. do 2 (split; [done|]). exists [].
    rewrite app_nil_r. by repeat split. }
  destruct (udevProperties sys _) as [props [e|]].
  { destruct (Contains _ _); apply Hstop. }
  destruct (decide (props_index props "DEVTYPE" <> "partition"));
    [apply Hstop|].
  destruct (decide (props_index props "ID_FS_LABEL" <> EmptyString)) as [Hl|];
    [destruct (decide (props_index props "ID_PART_ENTRY_UUID" <> EmptyString))
       as [Hu|]; [|apply Hstop]|].
  - intros Hr. apply IH in Hr as (Hmaj & Hmin & new & Hps & Hnil & Hne & Hall).
    cbn in Hmaj, Hmin, Hps, Hall. do 2 (split; [done|]).
    eexists (_ :: new). split; [by rewrite Hps, <- app_assoc|].
    split; [done|]. split.
    + intros _. destruct new as [|q new]; [by rewrite Hnil|by apply Hne].
    + constructor; [|done]. cbn. repeat split; try done;
        apply wrapInt_range.
  - apply IH.
Qed.

(** X25: [FindMatchingPartitionUUID] returns.  The loop over the devices
    after the disk has no bound of its own; when the device n+1 steps after
    the disk (counted with the wrap-around of int) ends it, because udev
    fails for it, or it is not a partition, or it has a label and no
    partition UUID, then n+1 steps of fuel are enough and the result is the
    same for any larger amount. *)
Theorem FindMatchingPartitionUUID_terminates sys d lbl n :
  loop_ends sys (major d) (wrapInt (minor d + Z.of_nat (S n))) ->
  exists r, forall fuel, (S n <= fuel)%nat ->
                         FindMatchingPartitionUUID sys fuel d lbl = Some r.
Proof.
  intros Hend. apply findPartitions_ends in Hend.
  destruct (findPartitions sys (S n) d (minor d)) as [r|] eqn:E; [|done].
  assert (Hfuel : forall fuel, (S n <= fuel)%nat ->
                               FindMatchingPartitionUUID sys fuel d lbl
                               = FindMatchingPartitionUUID sys (S n) d lbl).
  { intros fuel Hle. unfold FindMatchingPartitionUUID.
    destruct (partitions d); [reflexivity|].
    by rewrite (findPartitions_mono _ _ _ _ _ _ E Hle), E. }
  destruct (FindMatchingPartitionUUID sys (S n) d lbl) as [r'|] eqn:E'.
  - exists r'. intros fuel Hle. by rewrite Hfuel.
  - exfalso. revert E'. unfold FindMatchingPartitionUUID.
    destruct (partitions d); rewrite ?E.
    + destruct (decide _); [done|]. by destruct (List.find _ _).
    + destruct r as [[e|] d1]; [done|].
      destruct (decide _); [done|]. by destruct (List.find _ _).
Qed.

Lemma FindMatchingPartitionUUID_cached_run sys fuel d lbl ps :
  partitions d = Some ps ->
  FindMatchingPartitionUUID sys fuel d lbl
  = Some (if decide (ps = []) then
            inl (Errorf ("no partitions found for disk " ++ Dev d))
          else
            match List.find (fun part => bool_decide (label part = lbl)) ps with
            | Some part => inr (partuuid part)
            | None => inl (Errorf ("couldn't find label " ++ Quote lbl))
            end, d).
Proof.
  intros Hps. unfold FindMatchingPartitionUUID, len. rewrite Hps.
  cbv beta iota. rewrite !Hps. cbn [default]. destruct ps as [|p ps].
  - by rewrite !decide_True by done.
  - rewrite !decide_False by done. by destruct (List.find _ _).
Qed.

(** X24: once a disk holds partitions, [FindMatchingPartitionUUID] answers
    from them: the result does not depend on the system nor on the fuel, so
    udev is not asked again, and the disk is returned unchanged; the answer
    is the partition UUID of the first partition with the label, and the
    error "couldn't find label <quoted>" when no partition has it. *)
Theorem FindMatchingPartitionUUID_cached sys fuel d lbl ps :
  partitions d = Some ps ->
  (forall sys' fuel',
      FindMatchingPartitionUUID sys' fuel' d lbl
      = FindMatchingPartitionUUID sys fuel d lbl)
  /\ (exists r, FindMatchingPartitionUUID sys fuel d lbl = Some (r, d))
  /\ (forall ps1 p ps2,
         ps = ps1 ++ p :: ps2 -> label p = lbl ->
         Forall (fun q => label q <> lbl) ps1 ->
         FindMatchingPartitionUUID sys fuel d lbl = Some (inr (partuuid p), d))
  /\ (ps <> [] -> Forall (fun q => label q <> lbl) ps ->
      FindMatchingPartitionUUID sys fuel d lbl
      = Some (inl (Errorf ("couldn't find label " ++ Quote lbl)), d)).
Proof.
  intros Hps. split; [|split; [|split]].
  - intros sys' fuel'. by rewrite !(FindMatchingPartitionUUID_cached_run _ _ _ _ ps).
  - rewrite (FindMatchingPartitionUUID_cached_run _ _ _ _ ps) by done.
    by eexists.
  - intros ps1 p ps2 -> Hp Hps1.
    rewrite (FindMatchingPartitionUUID_cached_run _ _ _ _ _ Hps).
    rewrite decide_False by (by destruct ps1).
    rewrite find_first_eq; [done|by apply bool_decide_eq_true|].
    eapply Forall_impl; [exact Hps1|]. intros q Hq.
    by apply bool_decide_eq_false.
  - intros Hne Hall.
    rewrite (FindMatchingPartitionUUID_cached_run _ _ _ _ _ Hps).
    rewrite decide_False by done. rewrite find_none_eq; [done|].
    eapply Forall_impl; [exact Hall|]. intros q Hq.
    by apply bool_decide_eq_false.
Qed.

(** X26: what a search on a disk without partitions can find.  When
    [FindMatchingPartitionUUID] returns a partition UUID, the UUID is not
    empty, the label asked for is not empty, and the disk afterwards holds
    the partitions found, of which the first with that label has this UUID
    and the major number of the disk; the numbers of the disk itself are
    unchanged. *)
Theorem FindMatchingPartitionUUID_found sys fuel d lbl uuid d' :
  partitions d = None ->
  FindMatchingPartitionUUID sys fuel d lbl = Some (inr uuid, d') ->
  uuid <> EmptyString /\ lbl <> EmptyString
  /\ major d' = major d /\ minor d' = minor d
  /\ exists ps1 p ps2,
      partitions d' = Some (ps1 ++ p :: ps2)
      /\ label p = lbl /\ partuuid p = uuid /\ part_major p = major d
      /\ Forall (fun q => label q <> lbl) ps1.
Proof.
  intros Hnil. unfold FindMatchingPartitionUUID. rewrite Hnil.
  destruct (findPartitions sys fuel d (minor d)) as [[[e|] d1]|] eqn:E;
    [done| |done].
  apply findPartitions_appends in E as (Hmaj & Hmin & new & Hps & _ & _ & Hall).
  rewrite Hnil in Hps. cbn in Hps.
  destruct (decide _); [done|].
  destruct (List.find _ _) as [p|] eqn:Ef; [|done].
  intros [= <- <-]. apply find_first in Ef as (ps1 & ps2 & Heq & Hp & Hps1).
  apply bool_decide_eq_true in Hp.
  assert (Hin : p ∈ new).
  { rewrite <- Hps, Heq. apply elem_of_app. right. by left. }
  rewrite Forall_forall in Hall. destruct (Hall _ Hin) as (Hpm & Hl & Hu & _).
  split; [done|]. split; [by rewrite <- Hp|]. do 2 (split; [done|]).
  exists ps1, p, ps2. split.
  { destruct (partitions d1) as [ps|]; [by cbn in Heq; subst|].
    cbn in Heq. by destruct ps1. }
  do 3 (split; [done|]).
  eapply Forall_impl; [exact Hps1|]. intros q Hq.
  by apply bool_decide_eq_false in Hq.
Qed.

(** X27: what the first search leaves in the disk.  After a call on a disk
    without partitions, either the disk still has none, the call returned
    an error and the disk is unchanged, so that the next call asks udev
    again; or the disk holds a non-empty list of partitions, also when the
    call returned an error in the middle of the loop, and every later call,
    in whatever system, answers from that list without asking udev. *)
Theorem FindMatchingPartitionUUID_keeps_partitions sys fuel d lbl r d' :
  partitions d = None ->
  FindMatchingPartitionUUID sys fuel d lbl = Some (r, d') ->
  (partitions d' = None -> d' = d /\ exists e, r = inl e)
  /\ (forall ps, partitions d' = Some ps ->
                 ps <> []
                 /\ forall sys' fuel' lbl',
                     exists r',
                       FindMatchingPartitionUUID sys' fuel' d' lbl'
                       = Some (r', d')
                       /\ FindMatchingPartitionUUID sys 0 d' lbl'
                          = Some (r', d')).
Proof.
  intros Hnil. unfold FindMatchingPartitionUUID at 1. rewrite Hnil.
  destruct (findPartitions sys fuel d (minor d)) as [[e d1]|] eqn:E; [|done].
  apply findPartitions_appends in E
    as (Hmaj & Hmin & new & Hps & Hnew & Hne & Hall).
  rewrite Hnil in Hps. cbn in Hps.
  intros Hr.
  assert (Hd : d' = d1).
  { destruct e; [by injection Hr|]. destruct (decide _); [by injection Hr|].
    destruct (List.find _ _); by injection Hr. }
  subst d1. split.
  - intros Hnone. rewrite Hnone in Hps. cbn in Hps. split; [by apply Hnew|].
    destruct e; [injection Hr as <-; by eexists|].
    unfold len in Hr. rewrite Hnone in Hr. cbn in Hr.
    injection Hr as <-. by eexists.
  - intros ps Hsome. rewrite Hsome in Hps. cbn in Hps. subst new.
    assert (ps <> []) as Hps.
    { intros ->. specialize (Hnew eq_refl). subst d'. congruence. }
    split; [done|]. intros sys' fuel' lbl'.
    rewrite !(FindMatchingPartitionUUID_cached_run _ _ _ _ ps) by done.
    by eexists.
Qed.

End disks_properties.

(** *** Runs on a concrete system *)

Lemma parseDeviceMajorMinor_Dev_witness :
  parseDeviceMajorMinor (lib:=GoLib64) "8:0" = inr (8%Z, 0%Z).
Proof.
  apply (parseDeviceMajorMinor_Dev (lib:=GoLib64) disk_sda); vm_compute;
    split; discriminate.
Defined.

Lemma parseDeviceMajorMinor_errors_witness :
  parseDeviceMajorMinor (lib:=GoLib64) "sda" = inl errMsg
  /\ parseDeviceMajorMinor (lib:=GoLib64) "8:0:1" = inl errMsg.
Proof.
  destruct (parseDeviceMajorMinor_errors (lib:=GoLib64)) as (_ & H1 & H2 & _).
  split; [apply H1; reflexivity | apply (H2 "8" "0" "1")].
Defined.

Lemma parseUdevProperties_last_wins_witness :
  (parseUdevProperties
     (["DEVTYPE=disk"; "no separator"; "DEVTYPE=partition"; "ID_FS_LABEL=a=b"],
      None)).1 !! "DEVTYPE" = Some "partition".
Proof.
  apply (proj2 (proj2 (parseUdevProperties_last_wins _ None))
           ["DEVTYPE=disk"; "no separator"] ["ID_FS_LABEL=a=b"]
           "DEVTYPE" "partition").
  - reflexivity.
  - reflexivity.
  - repeat constructor.
Defined.

Lemma diskFromMountPointImpl_found_witness :
  diskFromMountPointImpl (lib:=GoLib64) (sys_sda "uuid-data")
    "/run/mnt/ubuntu-boot" None
  = inr disk_sda.
Proof.
  apply (diskFromMountPointImpl_found (lib:=GoLib64) (sys_sda "uuid-data")
           "/run/mnt/ubuntu-boot" None
           [mkMountInfoEntry "/" 0 25 "tmpfs"]
           (mkMountInfoEntry "/run/mnt/ubuntu-boot" 8 3 "/dev/sda3")
           [mkMountInfoEntry "/run/mnt/ubuntu-boot" 8 4 "/dev/sda4"]
           (udev_sda "uuid-data" "/dev/sda3").1
           ["DEVTYPE=partition"] ["ID_FS_LABEL=ubuntu-boot"] None 8%Z 0%Z).
  - reflexivity.
  - repeat constructor. discriminate.
  - reflexivity.
  - reflexivity.
  - vm_compute. reflexivity.
  - repeat constructor.
  - vm_compute. split; discriminate.
  - vm_compute. split; discriminate.
Defined.

Lemma diskFromMountPointImpl_disk_witness :
  partitions disk_sda = None
  /\ parseDeviceMajorMinor (lib:=GoLib64) (Dev disk_sda)
     = inr (major disk_sda, minor disk_sda).
Proof.
  destruct (diskFromMountPointImpl_disk (lib:=GoLib64) (sys_sda "uuid-data")
              "/run/mnt/ubuntu-boot" None disk_sda)
    as (Hp & _ & _ & Hd & _).
  - vm_compute. reflexivity.
  - split; [exact Hp | exact Hd].
Defined.

Lemma diskFromMountPointImpl_failures_witness :
  diskFromMountPointImpl (lib:=GoLib64) (sys_sda "uuid-data") "/boot" None
  = inl (Errorf ("cannot find mountpoint " ++ Quote (GoLib:=GoLib64) "/boot")).
Proof.
  apply (proj1 (proj2 (diskFromMountPointImpl_failures (lib:=GoLib64)
                         (sys_sda "uuid-data") "/boot" None)) mounts_sda).
  - reflexivity.
  - repeat constructor; discriminate.
Defined.

Lemma MountPointIsFromDisk_same_disk_witness :
  MountPointIsFromDisk (lib:=GoLib64) (sys_sda "uuid-data") disk_sda
    "/run/mnt/ubuntu-boot" None
  = inr true.
Proof.
  apply (proj1 (MountPointIsFromDisk_same_disk (lib:=GoLib64)
                  (sys_sda "uuid-data")) "/run/mnt/ubuntu-boot" None None).
  vm_compute. reflexivity.
Defined.

Lemma FindMatchingPartitionUUID_cached_witness :
  FindMatchingPartitionUUID (lib:=GoLib64) (sys_sda EmptyString) 0
    (mkDisk 8 0 (Some [part_seed; part_boot])) "ubuntu-boot"
  = Some (inr "uuid-boot", mkDisk 8 0 (Some [part_seed; part_boot])).
Proof.
  apply (proj1 (proj2 (proj2 (FindMatchingPartitionUUID_cached (lib:=GoLib64)
           (sys_sda EmptyString) 0 (mkDisk 8 0 (Some [part_seed; part_boot]))
           "ubuntu-boot" [part_seed; part_boot] eq_refl)))
           [part_seed] part_boot []).
  - reflexivity.
  - reflexivity.
  - repeat constructor. discriminate.
Defined.

Lemma FindMatchingPartitionUUID_terminates_witness :
  exists r, forall fuel, (5 <= fuel)%nat ->
    FindMatchingPartitionUUID (lib:=GoLib64) (sys_sda "uuid-data") fuel
      disk_sda "ubuntu-data" = Some r.
Proof.
  apply (FindMatchingPartitionUUID_terminates (lib:=GoLib64)
           (sys_sda "uuid-data") disk_sda "ubuntu-data" 4).
  vm_compute. left. discriminate.
Defined.

Lemma FindMatchingPartitionUUID_found_witness :
  exists ps1 p ps2,
    Some [part_seed; part_boot; part_data] = Some (ps1 ++ p :: ps2)
    /\ label p = "ubuntu-data" /\ partuuid p = "uuid-data".
Proof.
  destruct (FindMatchingPartitionUUID_found (lib:=GoLib64)
              (sys_sda "uuid-data") 5 disk_sda "ubuntu-data" "uuid-data"
              (mkDisk 8 0 (Some [part_seed; part_boot; part_data])))
    as (_ & _ & _ & _ & ps1 & p & ps2 & Hps & Hl & Hu & _).
  - reflexivity.
  - vm_compute. reflexivity.
  - by exists ps1, p, ps2.
Defined.

Lemma FindMatchingPartitionUUID_keeps_partitions_witness :
  exists e r',
    FindMatchingPartitionUUID (lib:=GoLib64) (sys_sda EmptyString) 5
      disk_sda "ubuntu-boot"
    = Some (inl e, mkDisk 8 0 (Some [part_seed; part_boot]))
    /\ FindMatchingPartitionUUID (lib:=GoLib64) (sys_sda "uuid-data") 5
         (mkDisk 8 0 (Some [part_seed; part_boot])) "ubuntu-data"
       = Some (r', mkDisk 8 0 (Some [part_seed; part_boot])).
Proof.
  destruct (FindMatchingPartitionUUID_keeps_partitions (lib:=GoLib64)
              (sys_sda EmptyString) 5 disk_sda "ubuntu-boot"
              (inl (Errorf ("cannot get udev properties for partition 8:4, "
                            ++ "missing udev property "
                            ++ String "034" "ID_PART_ENTRY_UUID"
                            ++ String "034" EmptyString)))
              (mkDisk 8 0 (Some [part_seed; part_boot])))
    as (_ & Hc).
  - reflexivity.
  - vm_compute. reflexivity.
  - destruct (Hc [part_seed; part_boot] eq_refl) as (_ & Hlater).
    destruct (Hlater (sys_sda "uuid-data") 5%nat "ubuntu-data")
      as (r' & Hr & _).
    eexists _, r'. split; [vm_compute; reflexivity | exact Hr].
Defined.
